(** * Incremental e-mail pipeline: fetch, classify, decide, index, query

  A shallow embedding of the synchronisation logic of the repository:

  - [GmailRead]      Code/gmail_read.py             (new-only fetch)
  - [Predict]        Code/predict.py                (incremental classification merge)
  - [InboxAgentV2]   Code/inbox_agent_gmail_ml_v2.py (hybrid rules + model decision)
  - [InboxAgent]     Code/inbox_agent_gmail.py      (rule-only status derivation)
  - [AutoTrain]      Code/auto_train_job_email_model.py (weak-supervision rule)
  - [Rag]            Code/rag.py                    (vector-store sync and query)
  - [App]            Code/app.py                    (one fetch cycle of the application)
  - [Main]           Code/main.py                   (full export: cells, paged listing)

  External collaborators (Gmail API, the scikit-learn model, the sentence
  embedder, the LLM) are function parameters; every call made to one of
  them is recorded in an explicit trace so that "is not invoked" is a
  statement about that trace.  Strings are ASCII texts. *)

From Stdlib Require Import ZArith QArith String Ascii List Bool Lia.
From stdpp Require Import base list strings gmap sets pretty.

Set Warnings "-clear-no-such-hyp".

Local Open Scope string_scope.
Local Open Scope list_scope.

(* ===================================================================== *)
(** ** Text helpers: the Python string operations the rules rely on       *)
(* ===================================================================== *)

Module Text.

(** [c.lower()] on an ASCII character. *)
Definition lower_ascii (c : ascii) : ascii :=
  let n := nat_of_ascii c in
  if (65 <=? n)%nat && (n <=? 90)%nat then ascii_of_nat (n + 32) else c.

(** [s.lower()] *)
Fixpoint lower (s : string) : string :=
  match s with
  | EmptyString => EmptyString
  | String c s' => String (lower_ascii c) (lower s')
  end.

(** [kw in t]: [kw] occurs in [t] as a contiguous substring. *)
Fixpoint str_in (kw t : string) : bool :=
  String.prefix kw t
  || match t with
     | EmptyString => false
     | String _ t' => str_in kw t'
     end.

(** [any(kw in t for kw in kws)] *)
Definition any_in (kws : list string) (t : string) : bool :=
  existsb (fun kw => str_in kw t) kws.

(** Python's [str.isspace] on ASCII: TAB..CR, FS..US and the blank. *)
Definition is_space (c : ascii) : bool :=
  let n := nat_of_ascii c in
  ((9 <=? n)%nat && (n <=? 13)%nat) || ((28 <=? n)%nat && (n <=? 32)%nat).

Fixpoint lstrip (s : string) : string :=
  match s with
  | EmptyString => EmptyString
  | String c s' => if is_space c then lstrip s' else s
  end.

(** [rstrip] drops the trailing blanks: a character is kept when it is
    not a blank or when something survives after it. *)
Fixpoint rstrip (s : string) : string :=
  match s with
  | EmptyString => EmptyString
  | String c s' =>
      match rstrip s' with
      | EmptyString => if is_space c then EmptyString else String c EmptyString
      | r => String c r
      end
  end.

(** [s.strip()] *)
Definition strip (s : string) : string := rstrip (lstrip s).

(** [sep.join(parts)] *)
Fixpoint join (sep : string) (parts : list string) : string :=
  match parts with
  | [] => ""
  | [p] => p
  | p :: rest => p +:+ sep +:+ join sep rest
  end.

(** Every character of [s] satisfies [p]. *)
Fixpoint all_chars (p : ascii -> bool) (s : string) : bool :=
  match s with
  | EmptyString => true
  | String c s' => p c && all_chars p s'
  end.

(** [s] begins, respectively ends, with a blank. *)
Definition starts_blank (s : string) : bool :=
  match s with
  | EmptyString => false
  | String c _ => is_space c
  end.

Fixpoint ends_blank (s : string) : bool :=
  match s with
  | EmptyString => false
  | String c EmptyString => is_space c
  | String _ s' => ends_blank s'
  end.

(** A character that is no blank, or the space character itself. *)
Definition plain_char (c : ascii) : bool :=
  negb (is_space c) || Ascii.eqb c " ".

End Text.

(* ===================================================================== *)
(** ** Calls that may raise or exit, and the trace of their effects       *)
(* ===================================================================== *)

(** How a Python call ends: it returns a value, it terminates the process
    through [sys.exit(code)], or an exception propagates to the caller. *)
Inductive outcome (A : Type) : Type :=
| Returned (a : A)
| SysExit (code : Z)
| Raised.
Arguments Returned {A} a.
Arguments SysExit {A} code.
Arguments Raised {A}.

(** A script is run for its effects: [script E A] pairs the events of type
    [E] it performed, in order, with the way it ended. *)
Definition script (E A : Type) : Type := list E * outcome A.

Definition emit {E} (e : E) : script E unit := ([e], Returned tt).
Definition sys_exit {E A} (code : Z) : script E A := ([], SysExit code).
Definition raise {E A} : script E A := ([], Raised).

#[global] Instance script_ret {E} : MRet (script E) :=
  fun A a => ([], Returned a).

#[global] Instance script_bind {E} : MBind (script E) :=
  fun A B f m =>
    match m with
    | (t, Returned a) => let '(t', r) := f a in (t ++ t', r)
    | (t, SysExit code) => (t, SysExit code)
    | (t, Raised) => (t, Raised)
    end.

Definition events {E A} (m : script E A) : list E := fst m.
Definition ending {E A} (m : script E A) : outcome A := snd m.

(* ===================================================================== *)
(** ** Code/gmail_read.py: the new-only fetch                             *)
(* ===================================================================== *)

Module GmailRead.

(** What the message parser extracts from one raw message (MIME decoding
    is the message-source collaborator's business). *)
Record Parsed := {
  p_sender_name : string;
  p_sender_email : string;
  p_subject : string;
  p_body : string;
  p_date_received : string;
}.

(** One row of the returned DataFrame: the dict built by [get_details]. *)
Record Details := {
  id : string;
  sender_name : string;
  sender_email : string;
  subject : string;
  body : string;
  date_received : string;
  gmail_link : string;
}.

(** The Gmail API as seen by the reader; [None] is a raised exception. *)
Record Service := {
  messages_list : string -> option (list string);
  messages_get : string -> option Parsed;
}.

Record GmailLiveReader := {
  service : Service;
  gmail_account_index : nat;
}.

Definition gmail_web_base (self : GmailLiveReader) : string :=
  "https://mail.google.com/mail/u/" +:+ pretty (gmail_account_index self) +:+ "/#all/".

Definition list_ids (self : GmailLiveReader) (query : string) : option (list string) :=
  messages_list (service self) query.

Definition get_details (self : GmailLiveReader) (msg_id : string) : option Details :=
  match messages_get (service self) msg_id with
  | None => None
  | Some p =>
      Some {| id := msg_id;
              sender_name := p_sender_name p;
              sender_email := p_sender_email p;
              subject := p_subject p;
              body := p_body p;
              date_received := p_date_received p;
              gmail_link := gmail_web_base self +:+ msg_id |}
  end.

(** The [for mid in new_ids] loop; [seen_ids] is the caller's set,
    mutated in place, so it is threaded through and handed back even
    when a detail fetch raises half-way. *)
Fixpoint fetch_rows (self : GmailLiveReader) (new_ids : list string)
    (rows : list Details) (seen_ids : gset string)
    : outcome (list Details) * gset string :=
  match new_ids with
  | [] => (Returned rows, seen_ids)
  | mid :: rest =>
      match get_details self mid with
      | None => (Raised, seen_ids)
      | Some details => fetch_rows self rest (rows ++ [details]) ({[mid]} ∪ seen_ids)
      end
  end.

Definition fetch_new_as_dataframe (self : GmailLiveReader) (query : string)
    (seen_ids : gset string) : outcome (list Details) * gset string :=
  match list_ids self query with
  | None => (Raised, seen_ids)
  | Some all_ids =>
      let new_ids := filter (fun mid => mid ∉ seen_ids) all_ids in
      match new_ids with
      | [] => (Returned [], seen_ids)
      | _ => fetch_rows self new_ids [] seen_ids
      end
  end.

End GmailRead.

(* ===================================================================== *)
(** ** Code/predict.py: incremental classification                        *)
(* ===================================================================== *)

Module Predict.

(** A class returned by [model.predict] and a probability returned by
    [model.predict_proba]; both are only stored and copied here. *)
Definition label : Type := Z.
Definition prob : Type := Q.

(** A row of the Gmail export.  [None] is a missing cell (NaN / pd.NA);
    a column that is absent from the sheet reads as [None] in every row,
    which is what lines 101-104 make of it.  [s_id] is the cell after
    [astype(str)] and carries no information when the sheet has no
    ["id"] column.  [s_rest] stands for the columns the classifier only
    copies. *)
Record SrcRow := {
  s_id : string;
  s_subject : option string;
  s_body : option string;
  s_job_label : option label;
  s_prob_job : option prob;
  s_rest : string;
}.

Record SrcTable := {
  src_has_required : bool;     (* {"subject", "body"} ⊆ df_src.columns *)
  src_has_id : bool;           (* "id" in df_src.columns *)
  src_rows : list SrcRow;
}.

(** The columns of the previous classified file that the merge pulls. *)
Record OldRow := {
  o_id : string;
  o_job_label : option label;
  o_prob_job : option prob;
}.

Record OldTable := {
  old_has_id : bool;           (* "id" in df_old.columns *)
  old_rows : list OldRow;
}.

(** A row of the DataFrame that is saved and returned. *)
Record Row := {
  id : string;
  subject : string;
  body : string;
  text : string;
  job_label : option label;
  prob_job : option prob;
  rest : string;
}.

Record Table := {
  has_id : bool;
  rows : list Row;
}.

(** The classification collaborator; [predict_proba] is column 1 of the
    matrix the library returns. *)
Record Model := {
  predict : list string -> list label;
  predict_proba : list string -> list prob;
}.

(** What is found at a path. *)
Inductive file (A : Type) : Type :=
| Missing
| Unreadable
| Readable (content : A).
Arguments Missing {A}.
Arguments Unreadable {A}.
Arguments Readable {A} content.

Definition path_exists {A} (f : file A) : bool :=
  match f with Missing => false | _ => true end.

Record Disk := {
  excel_file : file SrcTable;
  model_file : file Model;
  output_file : file OldTable;
}.

Record EmailJobClassifier := {
  excel_path : string;
  model_path : string;
  output_path : string;
}.

(** A pandas Series selected by a mask keeps the index of its rows. *)
Definition Series : Type := list (nat * string).

Inductive Event : Type :=
| Print (line : string)
| ModelPredict (texts : Series)
| ModelPredictProba (texts : Series)
| ToExcel (path : string) (df : Table).

(** [load_excel_safely]: any failure of [pd.read_excel] ends the process. *)
Definition load_excel_safely {A} (path : string) (f : file A) : script Event A :=
  emit (Print ("[INFO] Loading Excel from: " +:+ path));;
  match f with
  | Readable df => mret df
  | _ => emit (Print "[ERROR] Unable to read Excel file");; sys_exit 1
  end.

Definition load_model_safely (path : string) (f : file Model) : script Event Model :=
  emit (Print ("[INFO] Loading model from: " +:+ path));;
  match f with
  | Readable m => mret m
  | _ => emit (Print "[ERROR] Unable to load model");; sys_exit 1
  end.

(** [Series.fillna(other)] on one cell. *)
Definition fillna {A} (x other : option A) : option A :=
  match x with Some _ => x | None => other end.

(** [drop_duplicates(subset=["id"])]: the first row of every id stays. *)
Fixpoint drop_duplicates_from (seen : list string) (df : list OldRow) : list OldRow :=
  match df with
  | [] => []
  | o :: rest =>
      if decide (o_id o ∈ seen) then drop_duplicates_from seen rest
      else o :: drop_duplicates_from (o_id o :: seen) rest
  end.

Definition drop_duplicates (df : list OldRow) : list OldRow :=
  drop_duplicates_from [] df.

(** [df.merge(df_old_small, on="id", how="left")]: the left rows in their
    order, each paired with every right row of the same id, or with
    nothing when there is none. *)
Definition merge_left (df : list SrcRow) (right : list OldRow)
    : list (SrcRow * option OldRow) :=
  flat_map (fun r =>
    match filter (fun o => o_id o = s_id r) right with
    | [] => [(r, None)]
    | matches => map (fun o => (r, Some o)) matches
    end) df.

(** Lines 123-129: fill the missing new cells from the [_old] columns,
    then drop those columns. *)
Definition fill_from_old (p : SrcRow * option OldRow) : SrcRow :=
  let '(r, o) := p in
  {| s_id := s_id r;
     s_subject := s_subject r;
     s_body := s_body r;
     s_job_label := fillna (s_job_label r) (o ≫= o_job_label);
     s_prob_job := fillna (s_prob_job r) (o ≫= o_prob_job);
     s_rest := s_rest r |}.

Definition merge_old (df : list SrcRow) (df_old : OldTable) : list SrcRow :=
  let df_old_small := drop_duplicates (old_rows df_old) in
  map fill_from_old (merge_left df df_old_small).

(** Lines 135-137. *)
Definition prepare_text (r : SrcRow) : Row :=
  let subject := default "" (s_subject r) in
  let body := default "" (s_body r) in
  {| id := s_id r;
     subject := subject;
     body := body;
     text := subject +:+ " " +:+ body;
     job_label := s_job_label r;
     prob_job := s_prob_job r;
     rest := s_rest r |}.

Definition isna {A} (x : option A) : bool :=
  match x with None => true | Some _ => false end.

(** [df.loc[mask, "text"]] *)
Fixpoint loc_text (i : nat) (mask : list bool) (df : list Row) : Series :=
  match mask, df with
  | m :: mask', r :: df' =>
      if m then (i, text r) :: loc_text (S i) mask' df' else loc_text (S i) mask' df'
  | _, _ => []
  end.

(** [df.loc[mask, col] = values]: the selected rows receive the values in
    order; pandas raises when their numbers differ. *)
Fixpoint loc_assign {A} (set : Row -> A -> Row) (mask : list bool)
    (df : list Row) (values : list A) : option (list Row) :=
  match mask, df with
  | true :: mask', r :: df' =>
      match values with
      | v :: values' => (fun t => set r v :: t) <$> loc_assign set mask' df' values'
      | [] => None
      end
  | false :: mask', r :: df' => (fun t => r :: t) <$> loc_assign set mask' df' values
  | _, _ => match values with [] => Some df | _ :: _ => None end
  end.

Definition set_job_label (r : Row) (v : label) : Row :=
  {| id := id r; subject := subject r; body := body r; text := text r;
     job_label := Some v; prob_job := prob_job r; rest := rest r |}.

Definition set_prob_job (r : Row) (v : prob) : Row :=
  {| id := id r; subject := subject r; body := body r; text := text r;
     job_label := job_label r; prob_job := Some v; rest := rest r |}.

Definition try_assign {A} (x : option A) : script Event A :=
  match x with Some a => mret a | None => raise end.

(** Steps 3 and 4 of [classify]: the merged, text-prepared DataFrame. *)
Definition merged (df_src : SrcTable) (df_old : option OldTable) : list Row :=
  let use_id := src_has_id df_src in
  let df := src_rows df_src in
  let df :=
    match df_old with
    | Some old => if use_id && old_has_id old then merge_old df old else df
    | None => df
    end in
  map prepare_text df.

Definition mask_new (df : list Row) : list bool :=
  map (fun r => isna (job_label r)) df.

(** [mask.sum()]: the number of selected rows. *)
Definition mask_sum (mask : list bool) : nat :=
  length (filter (fun b => b = true) mask).

Definition classify (self : EmailJobClassifier) (disk : Disk) : script Event Table :=
  if negb (path_exists (excel_file disk)) then
    emit (Print ("[ERROR] Excel NOT FOUND: " +:+ excel_path self));; sys_exit 1
  else if negb (path_exists (model_file disk)) then
    emit (Print ("[ERROR] Model NOT FOUND: " +:+ model_path self));; sys_exit 1
  else
    df_src ← load_excel_safely (excel_path self) (excel_file disk);
    if negb (src_has_required df_src) then
      emit (Print "[ERROR] Excel missing required columns {'subject', 'body'}");;
      emit (Print "Found:");;
      sys_exit 1
    else
      (if src_has_id df_src then mret tt
       else emit (Print "[WARN] 'id' column not found in source Excel.");;
            emit (Print "Incremental classification works best if 'id' is present."));;
      df_old ←
        (if path_exists (output_file disk) then
           old ← load_excel_safely (output_path self) (output_file disk);
           emit (Print ("[INFO] Loaded existing classified file: " +:+ output_path self));;
           emit (Print ("[INFO] Old classified rows: " +:+ pretty (length (old_rows old))));;
           mret (Some old)
         else
           emit (Print "[INFO] No existing classified file found. Will create a new one.");;
           mret None);
      let df := merged df_src df_old in
      let mask := mask_new df in
      let num_to_classify := mask_sum mask in
      emit (Print ("[INFO] Total emails in source: " +:+ pretty (length df)));;
      emit (Print ("[INFO] Rows needing classification: " +:+ pretty num_to_classify));;
      if (num_to_classify =? 0)%nat then
        let out := {| has_id := src_has_id df_src; rows := df |} in
        emit (Print "[INFO] Nothing new to classify. Exiting.");;
        emit (ToExcel (output_path self) out);;
        emit (Print ("[INFO] Updated file saved to: " +:+ output_path self));;
        mret out
      else
        model ← load_model_safely (model_path self) (model_file disk);
        emit (Print "[INFO] Running predictions on NEW rows only...");;
        let texts_new := loc_text 0 mask df in
        emit (ModelPredict texts_new);;
        let preds := predict model (map snd texts_new) in
        emit (ModelPredictProba texts_new);;
        let probs := predict_proba model (map snd texts_new) in
        df ← try_assign (loc_assign set_job_label mask df preds);
        df ← try_assign (loc_assign set_prob_job mask df probs);
        let out := {| has_id := src_has_id df_src; rows := df |} in
        emit (ToExcel (output_path self) out);;
        emit (Print "[INFO] Incremental classification complete.");;
        emit (Print ("[INFO] Saved updated classifications to: " +:+ output_path self));;
        mret out.

(** *** Reading a run *)

(** The batches handed to [model.predict] during a run. *)
Definition predict_calls (t : list Event) : list Series :=
  omap (fun e => match e with ModelPredict s => Some s | _ => None end) t.

(** Every batch handed to the model, through either entry point. *)
Definition model_calls (t : list Event) : list Series :=
  omap (fun e =>
    match e with
    | ModelPredict s | ModelPredictProba s => Some s
    | _ => None
    end) t.

(** The table written to the classified file, if the run wrote one. *)
Definition saved (t : list Event) : option Table :=
  last (omap (fun e => match e with ToExcel _ df => Some df | _ => None end) t).

(** What a later run reads back from a saved table. *)
Definition as_old_row (r : Row) : OldRow :=
  {| o_id := id r; o_job_label := job_label r; o_prob_job := prob_job r |}.

Definition reload (df : Table) : OldTable :=
  {| old_has_id := has_id df; old_rows := map as_old_row (rows df) |}.

(** The disk after a run: the classified file holds what was saved. *)
Definition disk_after (disk : Disk) (t : list Event) : Disk :=
  match saved t with
  | Some df =>
      {| excel_file := excel_file disk;
         model_file := model_file disk;
         output_file := Readable (reload df) |}
  | None => disk
  end.

(** The first row carrying a given id: the one row that
    [drop_duplicates] keeps for it. *)
Definition find_id (i : string) (df : list OldRow) : option OldRow :=
  List.find (fun o => bool_decide (o_id o = i)) df.

Definition old_row_of (i : string) (df_old : OldTable) : option OldRow :=
  find_id i (old_rows df_old).

(** The previous classified table a run works from, if it reads one. *)
Definition old_of (disk : Disk) : option OldTable :=
  match output_file disk with Readable old => Some old | _ => None end.

(** Two rows that differ at most in their derived fields. *)
Definition same_raw (a b : Row) : Prop :=
  id a = id b /\ subject a = subject b /\ body a = body b /\
  text a = text b /\ rest a = rest b.

(** The raw export carries no classification of its own: it has no
    [job_label] and no [prob_job] column (the data model's SourceItem). *)
Definition unlabelled (df_src : SrcTable) : Prop :=
  Forall (fun r => s_job_label r = None /\ s_prob_job r = None) (src_rows df_src).

End Predict.

(* ===================================================================== *)
(** ** Code/inbox_agent_gmail_ml_v2.py: rules + model                     *)
(* ===================================================================== *)

Module InboxAgentV2.
Import Text.

Record SimpleEmail := {
  email_id : string;
  date : string;
  sender : string;
  subject : string;
  body : string;
}.

(** *** Text helpers *)

(** [re.sub(r"\s+", " ", text)]: every run of blanks becomes one space. *)
Fixpoint collapse_ws (in_run : bool) (s : string) : string :=
  match s with
  | EmptyString => EmptyString
  | String c s' =>
      if is_space c then
        if in_run then collapse_ws true s' else String " " (collapse_ws true s')
      else String c (collapse_ws false s')
  end.

(** [r"http\S+"] matches here: "http" followed by a non-blank. *)
Definition http_at (s : string) : bool :=
  match s with
  | String "h" (String "t" (String "t" (String "p" (String x _)))) => negb (is_space x)
  | _ => false
  end.

(** [re.sub(r"http\S+", " ", text)]: a match runs up to the next blank
    and is replaced by one space. *)
Fixpoint sub_http (in_match : bool) (s : string) : string :=
  match s with
  | EmptyString => EmptyString
  | String c s' =>
      if in_match then
        if is_space c then String c (sub_http false s') else sub_http true s'
      else if http_at s then String " " (sub_http true s')
      else String c (sub_http false s')
  end.

Definition clean_text (text : string) : string :=
  strip (sub_http false (collapse_ws false text)).

Definition combine_fields (subject body sender : string) : string :=
  "SUBJ: " +:+ clean_text subject +:+ " SENDER: " +:+ clean_text sender
    +:+ " BODY: " +:+ clean_text body.

(** The character class [[a-z0-9\-\.]]. *)
Definition is_domain_char (c : ascii) : bool :=
  let n := nat_of_ascii c in
  ((97 <=? n)%nat && (n <=? 122)%nat) || ((48 <=? n)%nat && (n <=? 57)%nat)
  || (n =? 45)%nat || (n =? 46)%nat.

Fixpoint take_while (p : ascii -> bool) (s : string) : string :=
  match s with
  | EmptyString => EmptyString
  | String c s' => if p c then String c (take_while p s') else EmptyString
  end.

(** [re.search(r"@([a-z0-9\-\.]+)", sender)]: group 1 of the leftmost match. *)
Fixpoint search_domain (s : string) : option string :=
  match s with
  | EmptyString => None
  | String c s' =>
      if Ascii.eqb c "@" then
        match take_while is_domain_char s' with
        | EmptyString => search_domain s'
        | d => Some d
        end
      else search_domain s'
  end.

(** [domain.replace("mail.", "")]; [skip] counts the characters of the
    occurrence being removed. *)
Fixpoint remove_mail (skip : nat) (s : string) : string :=
  match s with
  | EmptyString => EmptyString
  | String c s' =>
      match skip with
      | S k => remove_mail k s'
      | O => if String.prefix "mail." s then remove_mail 4 s'
             else String c (remove_mail 0 s')
      end
  end.

(** [domain.split(".")]; [cur] is the part being read. *)
Fixpoint split_dot (cur : string) (s : string) : list string :=
  match s with
  | EmptyString => [cur]
  | String c s' =>
      if Ascii.eqb c "." then cur :: split_dot "" s'
      else split_dot (cur +:+ String c EmptyString) s'
  end.

Definition infer_company_from_sender (sender : string) : string :=
  match search_domain (lower sender) with
  | None => ""
  | Some domain =>
      let parts := split_dot "" (remove_mail 0 domain) in
      if (2 <=? length parts)%nat
      then nth (length parts - 2) parts ""
      else nth 0 parts ""
  end.

(** *** Strong job signals *)

Definition JOB_DOMAINS_INFER : list string :=
  [ "indeed"; "linkedin"; "handshake"; "joinhandshake"; "workday"; "myworkday";
    "greenhouse"; "bamboohr"; "icims"; "smartrecruiters"; "lever.co"; "jazzhr";
    "monster"; "careerbuilder"; "workable"; "eightfold" ].

Definition STRONG_SUBJECT_INFER : list string :=
  [ "application received"; "application submitted"; "application update";
    "thank you for applying"; "your application"; "job application";
    "we received your application"; "we have received your application";
    "interview invitation"; "invitation to interview"; "schedule your interview";
    "job offer"; "offer letter" ].

Definition STRONG_BODY_INFER : list string :=
  [ "this email is to serve as confirmation that we are in receipt of your application";
    "confirmation that we are in receipt of your application";
    "we are in receipt of your application";
    "we have received your application";
    "your application has been received";
    "thank you for applying";
    "your application is currently being reviewed";
    "a dedicated member of our talent acquisition team will be in contact";
    "a member of our talent acquisition team will be in contact";
    "a recruiter will be in contact";
    "we regret to inform you";
    "we have decided not to move forward with your application";
    "schedule an interview";
    "interview invitation";
    "invitation to interview" ].

Definition has_strong_job_signal (subject body sender : string) : bool :=
  let subj := lower subject in
  let text := lower (subject +:+ " [SEP] " +:+ body) in
  let sender_lower := lower sender in
  if any_in JOB_DOMAINS_INFER sender_lower then true
  else if any_in STRONG_SUBJECT_INFER subj then true
  else if any_in STRONG_BODY_INFER text then true
  else false.

(** *** Status rules *)

Definition APPLICATION_CONFIRM_WORDS : list string :=
  [ "application received";
    "thank you for applying";
    "we have received your application";
    "your application has been received";
    "this email is to serve as confirmation that we are in receipt of your application";
    "we are in receipt of your application";
    "your application is currently being reviewed" ].

Definition INTERVIEW_WORDS : list string :=
  [ "schedule an interview"; "interview invitation"; "invitation to interview";
    "virtual interview"; "onsite interview"; "phone interview" ].

Definition REJECTION_WORDS : list string :=
  [ "we regret to inform you";
    "not moving forward with your application";
    "we have decided not to move forward";
    "your application was not selected";
    "we will not be moving forward" ].

Definition infer_job_status (text : string) : string :=
  let t := lower text in
  if any_in APPLICATION_CONFIRM_WORDS t then "APPLICATION_CONFIRMATION"
  else if any_in INTERVIEW_WORDS t then "INTERVIEW_INVITE"
  else if any_in REJECTION_WORDS t then "REJECTION"
  else "OTHER_JOB_EMAIL".

Definition applied_flag_from_status (status : string) : Z :=
  if bool_decide (status ∈ ["APPLICATION_CONFIRMATION"; "INTERVIEW_INVITE"; "REJECTION"])
  then 1 else 0.

(** *** The agent *)

Record Row := {
  r_email_id : string;
  r_date : string;
  r_sender : string;
  r_company : string;
  r_subject : string;
  r_body : string;
  r_job_prob : Q;
  r_job_status : string;
  r_applied : Z;
}.

(** [prob_threshold] is a constructor argument (default 0.2);
    [predict_proba] is column 1 of the model's probability matrix. *)
Record InboxAgentGmailML := {
  prob_threshold : Q;
  predict_proba : list string -> list Q;
}.

(** Line 332: the item is skipped. *)
Definition skipped (self : InboxAgentGmailML) (email : SimpleEmail) (p_job : Q) : bool :=
  let strong := has_strong_job_signal (subject email) (body email) (sender email) in
  negb strong && negb (Qle_bool (prob_threshold self) p_job).

(** The category decision: the item is kept as a job e-mail. *)
Definition accepted (self : InboxAgentGmailML) (email : SimpleEmail) (p_job : Q) : bool :=
  negb (skipped self email p_job).

Definition make_row (email : SimpleEmail) (p_job : Q) : Row :=
  let combined := clean_text (subject email) +:+ " [SEP] " +:+ clean_text (body email) in
  let status := infer_job_status combined in
  {| r_email_id := email_id email;
     r_date := date email;
     r_sender := sender email;
     r_company := infer_company_from_sender (sender email);
     r_subject := clean_text (subject email);
     r_body := clean_text (body email);
     r_job_prob := p_job;
     r_job_status := status;
     r_applied := applied_flag_from_status status |}.

(** The loop [for email, p in zip(emails, probas)]. *)
Fixpoint collect_rows (self : InboxAgentGmailML) (emails : list SimpleEmail)
    (probas : list Q) : list Row :=
  match emails, probas with
  | email :: emails', p_job :: probas' =>
      if skipped self email p_job then collect_rows self emails' probas'
      else make_row email p_job :: collect_rows self emails' probas'
  | _, _ => []
  end.

(** What [pd.read_csv(master_csv_path)] does.  When the file parses,
    [old_df] holds its rows as pandas has them in memory, every cell by
    its printed form, and [numeric_id] tells how pandas typed the
    "email_id" column: [true] when it inferred a numeric dtype (every id
    in the file reads as a number), so that the ids of [old_df] are
    numbers, [false] when the ids are strings. *)
Inductive read_csv_result : Type :=
| Parsed (numeric_id : bool) (old_df : list Row)
| EmptyDataError
| OtherError.

(** The master CSV on disk: absent, or present with its size in bytes
    and what reading it would give. *)
Inductive master_csv : Type :=
| Absent
| Present (getsize : nat) (read_csv : read_csv_result).

Definition exists_nonempty (f : master_csv) : bool :=
  match f with
  | Absent => false
  | Present getsize _ => (0 <? getsize)%nat
  end.

Definition read_master (f : master_csv) : read_csv_result :=
  match f with
  | Absent => OtherError
  | Present _ r => r
  end.

(** [drop_duplicates(subset=["email_id"], keep="last")] *)
Fixpoint drop_duplicates_last (df : list Row) : list Row :=
  match df with
  | [] => []
  | r :: rest =>
      if existsb (fun r' => String.eqb (r_email_id r') (r_email_id r)) rest
      then drop_duplicates_last rest
      else r :: drop_duplicates_last rest
  end.

(** An "email_id" cell in memory: whether it is a number, and its
    printed form.  A number and a string are never equal, whatever they
    print as. *)
Definition id_cell : Type := bool * string.

(** [pd.concat([old_df, new_df], ignore_index=True)], every row with its
    "email_id" cell: the ids of the old rows are typed as they were
    read, those of the rows of this run are strings. *)
Definition concat_typed (numeric_id : bool) (old_df new_df : list Row)
    : list (id_cell * Row) :=
  map (fun r => ((numeric_id, r_email_id r), r)) old_df
  ++ map (fun r => ((false, r_email_id r), r)) new_df.

(** [drop_duplicates(subset=["email_id"], keep="last")] on typed cells. *)
Fixpoint drop_duplicates_last_typed (df : list (id_cell * Row)) : list Row :=
  match df with
  | [] => []
  | (k, r) :: rest =>
      if existsb (fun x => bool_decide (x.1 = k)) rest
      then drop_duplicates_last_typed rest
      else r :: drop_duplicates_last_typed rest
  end.

Inductive Event : Type :=
| Print (line : string)
| PredictProba (texts : list string)
| ToCsv (df : list Row).

(** [process_and_update_csv]; the per-item debug prints are left out. *)
Definition process_and_update_csv (self : InboxAgentGmailML)
    (emails : list SimpleEmail) (master : master_csv) : script Event (list Row) :=
  let texts := map (fun e => combine_fields (subject e) (body e) (sender e)) emails in
  emit (PredictProba texts);;
  let probas := predict_proba self texts in
  let new_df := collect_rows self emails probas in
  match new_df with
  | [] =>
      if exists_nonempty master then
        match read_master master with
        | Parsed _ old_df =>
            emit (Print ("No new job emails. Master has " +:+ pretty (length old_df) +:+ " rows."));;
            mret old_df
        | EmptyDataError =>
            emit (Print "Master CSV exists but is empty/corrupt; recreating.");;
            emit (ToCsv new_df);;
            emit (Print "Created new master CSV (0 rows).");;
            mret new_df
        | OtherError => raise
        end
      else
        emit (ToCsv new_df);;
        emit (Print "Created new master CSV (0 rows).");;
        mret new_df
  | _ =>
      if exists_nonempty master then
        '(numeric_id, old_df) ←
          match read_master master with
          | Parsed numeric_id old_df => mret (numeric_id, old_df)
          | EmptyDataError =>
              emit (Print "Master CSV exists but is empty/corrupt; ignoring old content.");;
              mret (false, [])
          | OtherError => raise
          end;
        let before := length old_df in
        let merged := drop_duplicates_last_typed (concat_typed numeric_id old_df new_df) in
        let after := length merged in
        let added := (Z.of_nat after - Z.of_nat before)%Z in
        emit (ToCsv merged);;
        emit (Print ("Existing rows: " +:+ pretty before +:+ ", New: "
                     +:+ pretty (length new_df) +:+ ", Added: " +:+ pretty added));;
        mret merged
      else
        emit (ToCsv new_df);;
        emit (Print ("Created new master CSV with " +:+ pretty (length new_df) +:+ " rows."));;
        mret new_df
  end.

(** The table written to the master CSV, if the run wrote one. *)
Definition written (t : list Event) : option (list Row) :=
  last (omap (fun e => match e with ToCsv df => Some df | _ => None end) t).

(** *** Reading a Gmail payload *)

(** One entry of [payload["headers"]]: [h.get("name", "")] and
    [h.get("value", "")]. *)
Record Header := {
  h_name : string;
  h_value : string;
}.

Fixpoint get_header (headers : list Header) (name : string) : string :=
  match headers with
  | [] => ""
  | h :: rest =>
      if String.eqb (lower (h_name h)) (lower name) then h_value h
      else get_header rest name
  end.

(** One entry of [payload["parts"]]: [part.get("mimeType")] and
    [part["body"].get("data")]; [None] is an absent key. *)
Record Part := {
  mimeType : option string;
  part_data : option string;
}.

(** [parts] is [None] when the payload has no "parts" key; [body_data] is
    [payload.get("body", {}).get("data")]. *)
Record Payload := {
  headers : list Header;
  parts : option (list Part);
  body_data : option string;
}.

(** [if data:] on an optional string. *)
Definition truthy (data : option string) : option string :=
  match data with
  | Some EmptyString => None
  | other => other
  end.

(** The first part of the given type whose data is non-empty. *)
Fixpoint first_data (mime : string) (ps : list Part) : option string :=
  match ps with
  | [] => None
  | part :: rest =>
      if bool_decide (mimeType part = Some mime) then
        match truthy (part_data part) with
        | Some data => Some data
        | None => first_data mime rest
        end
      else first_data mime rest
  end.

(** [extract_body]; [decode] is
    [base64.urlsafe_b64decode(data).decode("utf-8", errors="ignore")] and
    [get_text] is BeautifulSoup's [get_text(separator=" ", strip=True)]. *)
Definition extract_body (decode get_text : string -> string) (payload : Payload) : string :=
  match parts payload with
  | Some ps =>
      match first_data "text/plain" ps with
      | Some data => decode data
      | None =>
          match first_data "text/html" ps with
          | Some data => get_text (decode data)
          | None => ""
          end
      end
  | None =>
      match truthy (body_data payload) with
      | Some data =>
          let decoded := decode data in
          if str_in "<html" (lower decoded) then get_text decoded else decoded
      | None => ""
      end
  end.

(** [re.search(r"http\S+", s)] finds something. *)
Fixpoint contains_url (s : string) : bool :=
  http_at s
  || match s with
     | EmptyString => false
     | String _ s' => contains_url s'
     end.


(** The [email_id] column of a table. *)
Definition email_ids (df : list Row) : list string := map r_email_id df.

(** A part the loops of [extract_body] stop at, for the given type: its
    [mimeType] is that type and its data is there and not empty. *)
Definition usable (mime : string) (part : Part) : Prop :=
  mimeType part = Some mime /\ exists data, part_data part = Some data /\ data <> "".

End InboxAgentV2.

(* ===================================================================== *)
(** ** Code/inbox_agent_gmail.py: the rule-only status derivation         *)
(* ===================================================================== *)

Module InboxAgent.
Import Text.

Definition STRONG_SUBJECT : list string :=
  [ "your application"; "application received"; "application update";
    "application submitted"; "thank you for applying"; "interview";
    "interview invitation"; "next steps"; "we are hiring"; "we're hiring";
    "job opening"; "job opportunity"; "position"; "role:"; "now hiring";
    "job for you" ].

Definition APPLICATION_CONFIRM_WORDS : list string :=
  [ "application received"; "thank you for applying";
    "we have received your application"; "application submitted" ].

Definition INTERVIEW_WORDS : list string :=
  [ "schedule an interview"; "interview invitation"; "interview"; "next steps";
    "virtual interview" ].

Definition REJECTION_WORDS : list string :=
  [ "we regret to inform you"; "not moving forward"; "unfortunately";
    "your application was not selected" ].

Definition infer_job_status (text : string) : string :=
  let t := lower text in
  if any_in APPLICATION_CONFIRM_WORDS t then "APPLICATION_CONFIRMATION"
  else if any_in INTERVIEW_WORDS t then "INTERVIEW_INVITE"
  else if any_in REJECTION_WORDS t then "REJECTION"
  else if any_in STRONG_SUBJECT t then "JOB_OPENING"
  else "OTHER_JOB_EMAIL".

End InboxAgent.

(* ===================================================================== *)
(** ** Code/auto_train_job_email_model.py: the weak-supervision rule      *)
(* ===================================================================== *)

Module AutoTrain.
Import Text.

Definition JOB_DOMAINS : list string :=
  [ "indeed"; "linkedin"; "handshake"; "joinhandshake"; "ziprecruiter";
    "glassdoor"; "workday"; "myworkday"; "greenhouse"; "bamboohr"; "icims";
    "smartrecruiters"; "lever.co"; "jazzhr"; "monster"; "careerbuilder";
    "workable"; "eightfold"; "nexxt"; "lensa"; "jobfalcon"; "careerpi"; "aptena" ].

Definition NEGATIVE_DOMAINS : list string :=
  [ "sofi"; "bankofamerica"; "bofa"; "chase"; "wellsfargo"; "capitalone";
    "americanexpress"; "amex"; "starbucks"; "ubereats"; "doordash"; "grubhub";
    "mcdonalds"; "burgerking"; "dominos"; "netflix"; "spotify"; "apple.com";
    "appleid"; "primevideo"; "hulu"; "disneyplus"; "amazon"; "amzn" ].

Definition is_probably_job_sender (sender : string) : bool :=
  any_in JOB_DOMAINS (lower sender).

Definition is_negative_sender (sender : string) : bool :=
  any_in NEGATIVE_DOMAINS (lower sender).

Definition STRONG_SUBJECT : list string :=
  [ "your application"; "application received"; "application update";
    "application submitted"; "thank you for applying";
    "we received your application"; "we have received your application";
    "interview"; "interview invitation"; "virtual interview"; "onsite interview";
    "next steps"; "offer letter"; "job offer"; "role:"; "position:";
    "position -"; "position " ].

Definition STRONG_BODY : list string :=
  [ "your application has been received"; "we have received your application";
    "this is to confirm your application"; "thank you for applying";
    "we regret to inform you"; "we have decided not to move forward";
    "schedule an interview"; "interview invitation"; "invitation to interview" ].

Definition is_job_email_rule (subject body sender : string) : Z :=
  let sender_lower := lower sender in
  let subj := lower subject in
  let text := lower (subject +:+ " [SEP] " +:+ body) in
  if is_negative_sender sender_lower then 0
  else if any_in STRONG_SUBJECT subj then 1
  else if any_in STRONG_BODY text then 1
  else if is_probably_job_sender sender_lower then 1
  else 0.

End AutoTrain.

(* ===================================================================== *)
(** ** Code/rag.py: vector-store synchronisation and the query graph      *)
(* ===================================================================== *)

Module Rag.
Import Text.

(** A row of the parsed sheet; the text columns are taken after
    [astype(str)], [mail_link] before [fillna("")] ([None] is NaN). *)
Record ParsedRow := {
  mailcontent : string;
  company_name : string;
  position_applied : string;
  application_date : string;
  status : string;
  mail_link : option string;
}.

Record Metadata := {
  m_company_name : string;
  m_position_applied : string;
  m_application_date : string;
  m_status : string;
  m_mail_link : string;
}.

Definition Embedding : Type := list Q.

(** One record of the Chroma collection. *)
Record Entry := {
  e_id : string;
  e_document : string;
  e_metadata : Metadata;
  e_embedding : Embedding;
}.

(** Modelled from the spec: the vector store is the collaborator of §3
    ("append-only under normal operation (no updates, no deletes)"); it is
    the list of its records in insertion order, and [collection_add]
    appends the batch it is given.  Keeping one record per id is then
    entirely the business of the synchronisation code below.  (The store
    itself refuses a batch that repeats an id; what is said below about
    the records stored is said for batches of pairwise distinct ids.) *)
Definition Collection : Type := list Entry.

(** The [limit] of [collection.get(limit=1000000)]. *)
Definition GET_LIMIT : N := 1000000.

Fixpoint first_n {A} (n : N) (l : list A) : list A :=
  match l with
  | [] => []
  | x :: l' => if (n =? 0)%N then [] else x :: first_n (N.pred n) l'
  end.

(** [collection.get(limit=limit)["ids"]] *)
Definition collection_get_ids (limit : N) (collection : Collection) : list string :=
  map e_id (first_n limit collection).

(** Lines 54-61: [doc_id] is the mail link, or ["row_<index>"] when the
    link is empty. *)
Definition link_of (r : ParsedRow) : string := default "" (mail_link r).

Definition doc_id_at (i : nat) (r : ParsedRow) : string :=
  if String.eqb (link_of r) "" then "row_" +:+ pretty i else link_of r.

(** The DataFrame with its index and its [doc_id] column. *)
Definition with_doc_id (df : list ParsedRow) : list (nat * string * ParsedRow) :=
  imap (fun i r => (i, doc_id_at i r, r)) df.

Definition doc_ids (df : list ParsedRow) : list string :=
  map (fun x => x.1.2) (with_doc_id df).

Definition metadata_of (r : ParsedRow) : Metadata :=
  {| m_company_name := company_name r;
     m_position_applied := position_applied r;
     m_application_date := application_date r;
     m_status := status r;
     m_mail_link := link_of r |}.

Inductive SyncEvent : Type :=
| Encode (documents : list string)
| CollectionAdd (ids : list string) (documents : list string)
                (metadatas : list Metadata) (embeddings : list Embedding).

(** [zip] of the four parallel lists handed to [collection.add]. *)
Fixpoint entries (ids documents : list string) (metadatas : list Metadata)
    (embeddings : list Embedding) : list Entry :=
  match ids, documents, metadatas, embeddings with
  | i :: ids', d :: documents', m :: metadatas', e :: embeddings' =>
      {| e_id := i; e_document := d; e_metadata := m; e_embedding := e |}
      :: entries ids' documents' metadatas' embeddings'
  | _, _, _, _ => []
  end.

Definition collection_add (collection : Collection) (ids documents : list string)
    (metadatas : list Metadata) (embeddings : list Embedding) : Collection :=
  collection ++ entries ids documents metadatas embeddings.

(** [df[~df["doc_id"].isin(existing_ids)]] *)
Definition df_new_of (existing_ids : list string) (df : list ParsedRow)
    : list (nat * string * ParsedRow) :=
  filter (fun x => x.1.2 ∉ existing_ids) (with_doc_id df).

(** Lines 79-112: one run of the incremental add.  [encode] is the
    embedding collaborator; the result is the collection afterwards. *)
Definition sync (encode : list string -> list Embedding) (df : list ParsedRow)
    (collection : Collection) : list SyncEvent * Collection :=
  let existing_ids := collection_get_ids GET_LIMIT collection in
  let df_new := df_new_of existing_ids df in
  match df_new with
  | [] => ([], collection)
  | _ =>
      let ids := map (fun x => x.1.2) df_new in
      let documents := map (fun x => mailcontent x.2) df_new in
      let metadatas := map (fun x => metadata_of x.2) df_new in
      let embeddings := encode documents in
      ([Encode documents; CollectionAdd ids documents metadatas embeddings],
       collection_add collection ids documents metadatas embeddings)
  end.

(** Successive runs of the script, each on the sheet it finds. *)
Fixpoint sync_runs (encode : list string -> list Embedding)
    (sheets : list (list ParsedRow)) (collection : Collection) : Collection :=
  match sheets with
  | [] => collection
  | df :: later => sync_runs encode later (sync encode df collection).2
  end.

(** *** The query graph *)

Record Document := {
  page_content : string;
  metadata : string;          (* the metadata dict as Python prints it *)
}.

Record RAGState := {
  question : string;
  retrieved_docs : list Document;
  answer : string;
}.

(** What [llm.invoke] hands back: a string, or an object with its
    [content] attribute (when it has one) and its [str()]. *)
Inductive LLMOutput : Type :=
| OutStr (s : string)
| OutObject (content : option string) (str : string).

Inductive QueryEvent : Type :=
| RetrieverInvoke (question : string)
| LlmInvoke (prompt : string).

Definition nl : string := String (ascii_of_nat 10) EmptyString.

Definition prompt_format (question context : string) : string :=
  nl +:+ "You are an assistant specializing in understanding job application emails."
  +:+ nl +:+ nl +:+ "Use ONLY the context given. Do NOT guess or hallucinate."
  +:+ nl +:+ nl +:+ "QUESTION:" +:+ nl +:+ question
  +:+ nl +:+ nl +:+ "CONTEXT FROM EMAILS:" +:+ nl +:+ context
  +:+ nl +:+ nl +:+ "Provide a concise, accurate status update:" +:+ nl.

Definition NO_MATCH_ANSWER : string :=
  "I couldn't find any matching job application emails for this question.".

Definition set_answer (state : RAGState) (a : string) : RAGState :=
  {| question := question state; retrieved_docs := retrieved_docs state; answer := a |}.

Definition retrieve_node (retriever : string -> list Document) (state : RAGState)
    : script QueryEvent RAGState :=
  emit (RetrieverInvoke (question state));;
  mret {| question := question state;
          retrieved_docs := retriever (question state);
          answer := answer state |}.

Definition llm_node (llm : string -> LLMOutput) (state : RAGState)
    : script QueryEvent RAGState :=
  match retrieved_docs state with
  | [] => mret (set_answer state NO_MATCH_ANSWER)
  | docs =>
      let context :=
        join (nl +:+ nl)
          (map (fun doc => "EMAIL:" +:+ nl +:+ page_content doc +:+ nl
                           +:+ "METADATA: " +:+ metadata doc) docs) in
      let final_prompt := prompt_format (question state) context in
      emit (LlmInvoke final_prompt);;
      match llm final_prompt with
      | OutStr s => mret (set_answer state (strip s))
      | OutObject (Some c) _ => mret (set_answer state (strip c))
      | OutObject None s => mret (set_answer state (strip s))
      end
  end.

(** [ask]: the compiled graph retrieve -> generate, started on the
    question with no documents and an empty answer. *)
Definition ask (retriever : string -> list Document) (llm : string -> LLMOutput)
    (q : string) : script QueryEvent string :=
  let initial_state := {| question := q; retrieved_docs := []; answer := "" |} in
  state ← retrieve_node retriever initial_state;
  final_state ← llm_node llm state;
  mret (answer final_state).

Definition llm_prompts (t : list QueryEvent) : list string :=
  omap (fun e => match e with LlmInvoke p => Some p | _ => None end) t.

End Rag.

(* ===================================================================== *)
(** ** Code/app.py and the loop of Code/gmail_read.py: one fetch cycle    *)
(* ===================================================================== *)

Module App.

(** A row of the Gmail export as the sheet holds it: the "id" cell and
    the other six cells; [None] is a missing cell. *)
Record MasterRow := {
  m_id : option string;
  m_cells : list (option string);
}.

Record MasterTable := {
  master_has_id : bool;        (* "id" in master_df.columns *)
  master_rows : list MasterRow;
}.

(** A freshly fetched row, as a row of the DataFrame. *)
Definition of_details (d : GmailRead.Details) : MasterRow :=
  {| m_id := Some (GmailRead.id d);
     m_cells := [ Some (GmailRead.sender_name d); Some (GmailRead.sender_email d);
                  Some (GmailRead.subject d); Some (GmailRead.body d);
                  Some (GmailRead.date_received d); Some (GmailRead.gmail_link d) ] |}.

(** [astype(str)] of a cell: a missing cell prints as "nan". *)
Definition cell_str (c : option string) : string := default "nan" c.

(** [set(master_df["id"].astype(str).tolist())], or the empty set when
    the sheet has no "id" column. *)
Definition seen_ids_of (master_df : MasterTable) : gset string :=
  if master_has_id master_df
  then list_to_set (map (fun r => cell_str (m_id r)) (master_rows master_df))
  else ∅.

(** [pd.concat([master_df, df_new], ignore_index=True)] for a non-empty
    [df_new]: the result has an "id" column, empty in the old rows when
    they had none. *)
Definition concat (master_df : MasterTable) (df_new : list GmailRead.Details)
    : MasterTable :=
  {| master_has_id := true;
     master_rows :=
       map (fun r => if master_has_id master_df then r
                     else {| m_id := None; m_cells := m_cells r |})
           (master_rows master_df)
       ++ map of_details df_new |}.

Inductive Event : Type :=
| StWrite (msg : string)
| StInfo (msg : string)
| StSuccess (msg : string)
| StDataframe (df : list GmailRead.Details)
| ToExcel (path : string) (df : MasterTable).

(** [fetch_new_emails_once]; the reader is the one it builds, [QUERY] and
    [OUTPUT_EXCEL] the constants of gmail_read.py, [output_excel] what is
    found at that path.  The result is the DataFrame returned. *)
Definition fetch_new_emails_once (reader : GmailRead.GmailLiveReader)
    (QUERY OUTPUT_EXCEL : string) (output_excel : Predict.file MasterTable)
    : script Event MasterTable :=
  emit (StWrite "Starting one-time Gmail fetch using GmailLiveReader...");;
  master_df ←
    match output_excel with
    | Predict.Readable master_df =>
        emit (StWrite ("Loaded " +:+ pretty (length (master_rows master_df))
                       +:+ " rows from " +:+ OUTPUT_EXCEL));;
        mret master_df
    | Predict.Unreadable => raise
    | Predict.Missing =>
        emit (StWrite ("No existing Excel found. Will create " +:+ OUTPUT_EXCEL));;
        mret {| master_has_id := true; master_rows := [] |}
    end;
  let seen_ids := seen_ids_of master_df in
  match (GmailRead.fetch_new_as_dataframe reader QUERY seen_ids).1 with
  | Returned [] =>
      emit (StInfo "No new emails found for this query.");;
      mret master_df
  | Returned df_new =>
      let master_df := concat master_df df_new in
      emit (ToExcel OUTPUT_EXCEL master_df);;
      emit (StSuccess ("Appended " +:+ pretty (length df_new) +:+ " new email(s) to "
                       +:+ OUTPUT_EXCEL));;
      emit (StDataframe df_new);;
      mret master_df
  | SysExit code => sys_exit code
  | Raised => raise
  end.

(** The sheet written, if any. *)
Definition written (t : list Event) : option MasterTable :=
  last (omap (fun e => match e with ToExcel _ df => Some df | _ => None end) t).

(** What is found at [OUTPUT_EXCEL] after a cycle. *)
Definition file_after (output_excel : Predict.file MasterTable) (t : list Event)
    : Predict.file MasterTable :=
  match written t with
  | Some df => Predict.Readable df
  | None => output_excel
  end.

(** Successive cycles (one per press of the button, or per turn of the
    live loop), each against the mailbox as the reader of that cycle
    finds it and the export as the previous cycle left it. *)
Fixpoint cycles (readers : list GmailRead.GmailLiveReader) (QUERY OUTPUT_EXCEL : string)
    (output_excel : Predict.file MasterTable) : Predict.file MasterTable :=
  match readers with
  | [] => output_excel
  | reader :: later =>
      cycles later QUERY OUTPUT_EXCEL
        (file_after output_excel
           (events (fetch_new_emails_once reader QUERY OUTPUT_EXCEL output_excel)))
  end.

(** A sheet with an "id" column whose values are pairwise distinct. *)
Definition sound_sheet (df : MasterTable) : Prop :=
  master_has_id df = true /\
  NoDup (map (fun r => cell_str (m_id r)) (master_rows df)).

End App.

(* ===================================================================== *)
(** ** Code/main.py: the full export                                      *)
(* ===================================================================== *)

Module Main.

(** The characters [clean_for_excel] keeps: newline, tab and everything
    from the blank upwards (DEL, code 127, among them). *)
Definition kept (ch : ascii) : bool :=
  let code := nat_of_ascii ch in
  (code =? 10)%nat || (code =? 9)%nat || (32 <=? code)%nat.

Fixpoint filter_chars (p : ascii -> bool) (s : string) : string :=
  match s with
  | EmptyString => EmptyString
  | String c s' => if p c then String c (filter_chars p s') else filter_chars p s'
  end.

(** [text.startswith(("=", "+", "-", "@"))] *)
Definition starts_formula (s : string) : bool :=
  match s with
  | String c _ =>
      let code := nat_of_ascii c in
      (code =? 61)%nat || (code =? 43)%nat || (code =? 45)%nat || (code =? 64)%nat
  | EmptyString => false
  end.

(** [text[:n]] *)
Fixpoint take_chars (n : nat) (s : string) : string :=
  match n, s with
  | S n', String c s' => String c (take_chars n' s')
  | _, _ => EmptyString
  end.

(** [text[:stop]]: the first [stop] characters, or all but the last
    [-stop] of them when [stop] is negative. *)
Definition slice_to (stop : Z) (s : string) : string :=
  if (stop <? 0)%Z
  then take_chars (Z.to_nat (Z.of_nat (String.length s) + stop)) s
  else take_chars (Z.to_nat stop) s.

(** [clean_for_excel] on a string, for any integer [max_len].  A text is
    the sequence of its characters, one [ascii] per character (the code
    points below 256), so [len] and the slice count characters.  [None]
    and the values that are not strings, which the code turns into
    strings first, are the caller's business. *)
Definition clean_for_excel (text : string) (max_len : Z) : string :=
  let text := filter_chars kept text in
  let text := if starts_formula text then "'" +:+ text else text in
  if (max_len <? Z.of_nat (String.length text))%Z then slice_to max_len text else text.

(** What [messages().list(...).execute()] answers. *)
Record ListResponse := {
  messages : list string;               (* the ids of response.get("messages", []) *)
  nextPageToken : option string;
}.

(** The listing call for a fixed query, by [maxResults] and [pageToken];
    [None] is a raised exception. *)
Definition ListApi : Type := Z -> option string -> option ListResponse.

(** [if not page_token] *)
Definition more_pages (page_token : option string) : bool :=
  match page_token with
  | Some (String _ _) => true
  | _ => false
  end.

(** The [while True] loop of [list_all_message_ids]; each turn of the
    loop spends one unit of [fuel], and [None] means the loop was still
    running when the fuel ran out. *)
Fixpoint list_loop (fuel : nat) (api : ListApi) (max_results : option Z)
    (all_ids : list string) (page_token : option string) : option (outcome (list string)) :=
  match fuel with
  | O => None
  | S fuel' =>
      let turn (page_size : Z) :=
        match api page_size page_token with
        | None => Some Raised
        | Some response =>
            let all_ids := all_ids ++ messages response in
            let page_token := nextPageToken response in
            if more_pages page_token
            then list_loop fuel' api max_results all_ids page_token
            else Some (Returned all_ids)
        end in
      match max_results with
      | None => turn 500%Z
      | Some limit =>
          let remaining := (limit - Z.of_nat (length all_ids))%Z in
          if (remaining <=? 0)%Z then Some (Returned all_ids)
          else turn (Z.min 500 remaining)
      end
  end.

Definition list_all_message_ids (fuel : nat) (api : ListApi) (max_results : option Z)
    : option (outcome (list string)) :=
  list_loop fuel api max_results [] None.

End Main.

(* ===================================================================== *)
(** ** Sample inputs used by the examples below                           *)
(* ===================================================================== *)

Module Samples.

(** *** Fetch *)

Definition demo_service : GmailRead.Service :=
  {| GmailRead.messages_list := fun _ => Some ["m1"; "m2"; "m3"];
     GmailRead.messages_get := fun mid =>
       Some {| GmailRead.p_sender_name := "HR";
               GmailRead.p_sender_email := "hr@acme.com";
               GmailRead.p_subject := mid;
               GmailRead.p_body := "";
               GmailRead.p_date_received := "" |} |}.

Definition demo_reader : GmailRead.GmailLiveReader :=
  {| GmailRead.service := demo_service; GmailRead.gmail_account_index := 0 |}.

(** *** Classification *)

Definition demo_self : Predict.EmailJobClassifier :=
  {| Predict.excel_path := "Data/gmail_subject_body_date.xlsx";
     Predict.model_path := "Code/job_classifier_baseline.pkl";
     Predict.output_path := "Data/mail_classified.xlsx" |}.

Definition demo_src : Predict.SrcTable :=
  {| Predict.src_has_required := true;
     Predict.src_has_id := true;
     Predict.src_rows :=
       [ {| Predict.s_id := "m1"; Predict.s_subject := Some "Application received";
            Predict.s_body := None; Predict.s_job_label := None;
            Predict.s_prob_job := None; Predict.s_rest := "hr@acme.com" |};
         {| Predict.s_id := "m2"; Predict.s_subject := Some "Lunch?";
            Predict.s_body := Some "noon"; Predict.s_job_label := None;
            Predict.s_prob_job := None; Predict.s_rest := "bob@example.org" |} ] |}.

(** The previous run labelled m1 as 0 with probability 1/4; it also
    holds a row m0 that has since left the export. *)
Definition demo_old : Predict.OldTable :=
  {| Predict.old_has_id := true;
     Predict.old_rows :=
       [ {| Predict.o_id := "m0"; Predict.o_job_label := Some 1%Z;
            Predict.o_prob_job := Some (4 # 5) |};
         {| Predict.o_id := "m1"; Predict.o_job_label := Some 0%Z;
            Predict.o_prob_job := Some (1 # 4) |} ] |}.

(** A model that today would call everything a job e-mail. *)
Definition demo_model : Predict.Model :=
  {| Predict.predict := map (fun _ => 1%Z);
     Predict.predict_proba := map (fun _ => 9 # 10) |}.

Definition demo_disk : Predict.Disk :=
  {| Predict.excel_file := Predict.Readable demo_src;
     Predict.model_file := Predict.Readable demo_model;
     Predict.output_file := Predict.Readable demo_old |}.



Definition demo_out : Predict.Table :=
  {| Predict.has_id := true;
     Predict.rows :=
       [ {| Predict.id := "m1"; Predict.subject := "Application received";
            Predict.body := ""; Predict.text := "Application received ";
            Predict.job_label := Some 0%Z; Predict.prob_job := Some (1 # 4);
            Predict.rest := "hr@acme.com" |};
         {| Predict.id := "m2"; Predict.subject := "Lunch?";
            Predict.body := "noon"; Predict.text := "Lunch? noon";
            Predict.job_label := Some 1%Z; Predict.prob_job := Some (9 # 10);
            Predict.rest := "bob@example.org" |} ] |}.

(** *** Hybrid decision *)

(** Threshold 0.2, as in run_inbox_agent_ml_v2.py; a model that scores
    every text 0.05. *)
Definition demo_agent : InboxAgentV2.InboxAgentGmailML :=
  {| InboxAgentV2.prob_threshold := 1 # 5;
     InboxAgentV2.predict_proba := map (fun _ => 1 # 20) |}.

Definition demo_platform_email : InboxAgentV2.SimpleEmail :=
  {| InboxAgentV2.email_id := "m7";
     InboxAgentV2.date := "Fri, 05 Dec 2025 15:42:18 +0000";
     InboxAgentV2.sender := "LinkedIn <jobs-noreply@linkedin.com>";
     InboxAgentV2.subject := "Your weekly digest";
     InboxAgentV2.body := "See what is new." |}.

Definition demo_bank_email : InboxAgentV2.SimpleEmail :=
  {| InboxAgentV2.email_id := "m8";
     InboxAgentV2.date := "Fri, 05 Dec 2025 16:00:00 +0000";
     InboxAgentV2.sender := "Chase <alerts@chase.com>";
     InboxAgentV2.subject := "Your statement is ready";
     InboxAgentV2.body := "Log in to view it." |}.

Definition demo_opening_text : string :=
  "New job opening: data analyst [SEP] We are hiring in Austin.".

(** *** Index and query *)

Definition demo_row (content link : string) : Rag.ParsedRow :=
  {| Rag.mailcontent := content;
     Rag.company_name := "Acme";
     Rag.position_applied := "Analyst";
     Rag.application_date := "2025-12-05";
     Rag.status := "applied";
     Rag.mail_link := if String.eqb link "" then None else Some link |}.

Definition demo_sheet : list Rag.ParsedRow :=
  [ demo_row "Thank you for applying to Acme." "link1";
    demo_row "Interview invitation from Beta." "link2";
    demo_row "No link on this one." "" ].

Definition demo_collection : Rag.Collection :=
  [ {| Rag.e_id := "link1";
       Rag.e_document := "Thank you for applying to Acme.";
       Rag.e_metadata := Rag.metadata_of (demo_row "Thank you for applying to Acme." "link1");
       Rag.e_embedding := [1 # 2; 1 # 3] |} ].

Definition demo_encode (documents : list string) : list Rag.Embedding :=
  map (fun d => [Z.of_nat (String.length d) # 1]) documents.

Definition demo_retriever (q : string) : list Rag.Document := [].

Definition demo_llm (prompt : string) : Rag.LLMOutput := Rag.OutStr "made up".

(** *** Further samples *)

(** The same mailbox, where the details of m2 cannot be fetched. *)
Definition demo_flaky_service : GmailRead.Service :=
  {| GmailRead.messages_list := fun _ => Some ["m1"; "m2"; "m3"];
     GmailRead.messages_get := fun mid =>
       if String.eqb mid "m2" then None
       else Some {| GmailRead.p_sender_name := "HR";
                    GmailRead.p_sender_email := "hr@acme.com";
                    GmailRead.p_subject := mid;
                    GmailRead.p_body := "";
                    GmailRead.p_date_received := "" |} |}.

Definition demo_flaky_reader : GmailRead.GmailLiveReader :=
  {| GmailRead.service := demo_flaky_service; GmailRead.gmail_account_index := 0 |}.

(** An export that holds m2 already. *)
Definition demo_master : App.MasterTable :=
  {| App.master_has_id := true;
     App.master_rows :=
       [ {| App.m_id := Some "m2";
            App.m_cells := [Some "HR"; Some "hr@acme.com"; Some "m2"; None; None; None] |} ] |}.

Definition demo_disk_no_model : Predict.Disk :=
  {| Predict.excel_file := Predict.Readable demo_src;
     Predict.model_file := Predict.Missing;
     Predict.output_file := Predict.Missing |}.

(** A model that answers with no prediction at all. *)
Definition demo_model_short : Predict.Model :=
  {| Predict.predict := fun _ => [];
     Predict.predict_proba := fun _ => [] |}.

Definition demo_disk_short : Predict.Disk :=
  {| Predict.excel_file := Predict.Readable demo_src;
     Predict.model_file := Predict.Readable demo_model_short;
     Predict.output_file := Predict.Readable demo_old |}.

(** The export without its "id" column. *)
Definition demo_src_no_id : Predict.SrcTable :=
  {| Predict.src_has_required := true;
     Predict.src_has_id := false;
     Predict.src_rows := Predict.src_rows demo_src |}.

Definition demo_disk_no_id : Predict.Disk :=
  {| Predict.excel_file := Predict.Readable demo_src_no_id;
     Predict.model_file := Predict.Readable demo_model;
     Predict.output_file := Predict.Readable demo_old |}.

(** Everything is classified already and the model file is damaged. *)
Definition demo_disk_done : Predict.Disk :=
  {| Predict.excel_file := Predict.Readable demo_src;
     Predict.model_file := Predict.Unreadable;
     Predict.output_file := Predict.Readable (Predict.reload demo_out) |}.

(** A master CSV that holds an older row of m7 and a row of m1. *)
Definition demo_master_rows : list InboxAgentV2.Row :=
  [ {| InboxAgentV2.r_email_id := "m7"; InboxAgentV2.r_date := "";
       InboxAgentV2.r_sender := "LinkedIn <jobs-noreply@linkedin.com>";
       InboxAgentV2.r_company := "linkedin"; InboxAgentV2.r_subject := "Old digest";
       InboxAgentV2.r_body := ""; InboxAgentV2.r_job_prob := 1 # 2;
       InboxAgentV2.r_job_status := "OTHER_JOB_EMAIL"; InboxAgentV2.r_applied := 0 |};
    {| InboxAgentV2.r_email_id := "m1"; InboxAgentV2.r_date := "";
       InboxAgentV2.r_sender := "hr@acme.com";
       InboxAgentV2.r_company := "acme"; InboxAgentV2.r_subject := "Application received";
       InboxAgentV2.r_body := ""; InboxAgentV2.r_job_prob := 9 # 10;
       InboxAgentV2.r_job_status := "APPLICATION_CONFIRMATION";
       InboxAgentV2.r_applied := 1 |} ].

(** A message whose Gmail id happens to hold no letter, and a master
    CSV whose only row is an older row for it. *)
Definition demo_digits_email : InboxAgentV2.SimpleEmail :=
  {| InboxAgentV2.email_id := "1934567890123456";
     InboxAgentV2.date := "Fri, 05 Dec 2025 15:42:18 +0000";
     InboxAgentV2.sender := "LinkedIn <jobs-noreply@linkedin.com>";
     InboxAgentV2.subject := "Your weekly digest";
     InboxAgentV2.body := "See what is new." |}.

Definition demo_master_digits : list InboxAgentV2.Row :=
  [ {| InboxAgentV2.r_email_id := "1934567890123456"; InboxAgentV2.r_date := "";
       InboxAgentV2.r_sender := "LinkedIn <jobs-noreply@linkedin.com>";
       InboxAgentV2.r_company := "linkedin"; InboxAgentV2.r_subject := "Old digest";
       InboxAgentV2.r_body := ""; InboxAgentV2.r_job_prob := 1 # 2;
       InboxAgentV2.r_job_status := "OTHER_JOB_EMAIL"; InboxAgentV2.r_applied := 0 |} ].


(** A link written in capitals in front of an interview phrase. *)
Definition demo_shouting_email : InboxAgentV2.SimpleEmail :=
  {| InboxAgentV2.email_id := "m10";
     InboxAgentV2.date := "Fri, 05 Dec 2025 18:00:00 +0000";
     InboxAgentV2.sender := "Dana <dana@example.org>";
     InboxAgentV2.subject := "Next round";
     InboxAgentV2.body := "Book at HTTP://JOBS.EXAMPLE.ORG/phone interview slots." |}.

Definition demo_headers : list InboxAgentV2.Header :=
  [ {| InboxAgentV2.h_name := "From"; InboxAgentV2.h_value := "hr@acme.com" |};
    {| InboxAgentV2.h_name := "SUBJECT"; InboxAgentV2.h_value := "Hello" |};
    {| InboxAgentV2.h_name := "Subject"; InboxAgentV2.h_value := "Second" |} ].

(** An HTML part first, the plain text after it. *)
Definition demo_payload : InboxAgentV2.Payload :=
  {| InboxAgentV2.headers := demo_headers;
     InboxAgentV2.parts :=
       Some [ {| InboxAgentV2.mimeType := Some "text/html";
                 InboxAgentV2.part_data := Some "PGI+SGk8L2I+" |};
              {| InboxAgentV2.mimeType := Some "text/plain";
                 InboxAgentV2.part_data := Some "SGk" |} ];
     InboxAgentV2.body_data := None |}.

(** An attachment and a nested multipart, and data on the payload itself. *)
Definition demo_payload_nested : InboxAgentV2.Payload :=
  {| InboxAgentV2.headers := demo_headers;
     InboxAgentV2.parts :=
       Some [ {| InboxAgentV2.mimeType := Some "multipart/alternative";
                 InboxAgentV2.part_data := None |};
              {| InboxAgentV2.mimeType := Some "application/pdf";
                 InboxAgentV2.part_data := Some "JVBERi0" |};
              {| InboxAgentV2.mimeType := Some "text/plain";
                 InboxAgentV2.part_data := Some "" |} ];
     InboxAgentV2.body_data := Some "SGk" |}.

Definition demo_decode (data : string) : string := "decoded " +:+ data.

Definition demo_get_text (html : string) : string := "text of " +:+ html.

Definition demo_retriever_hit (q : string) : list Rag.Document :=
  [ {| Rag.page_content := "Thank you for applying to Acme.";
       Rag.metadata := "{'company_name': 'Acme'}" |} ].

(** Two pages: a, b, c and then d. *)
Definition demo_list_api : Main.ListApi :=
  fun page_size page_token =>
    match page_token with
    | None =>
        Some {| Main.messages := take (Z.to_nat page_size) ["a"; "b"; "c"];
                Main.nextPageToken := Some "page2" |}
    | Some _ =>
        Some {| Main.messages := take (Z.to_nat page_size) ["d"];
                Main.nextPageToken := None |}
    end.

End Samples.

(* ===================================================================== *)
(** * Properties                                                          *)
(* ===================================================================== *)

(** ** Substrings and lower-casing *)

Section TextFacts.
Import Text.

Lemma app_nil_s (b : string) : "" +:+ b = b.
Proof. reflexivity. Qed.

Lemma app_cons_s (c : ascii) (a b : string) :
  String c a +:+ b = String c (a +:+ b).
Proof. reflexivity. Qed.

Lemma prefix_app (p s : string) : String.prefix p (p +:+ s) = true.
Proof.
  induction p as [|c p IH]; rewrite ?app_nil_s, ?app_cons_s; simpl.
  - by destruct s.
  - destruct (ascii_dec c c); [exact IH | congruence].
Qed.

Lemma prefix_split (p s : string) :
  String.prefix p s = true -> exists r, s = p +:+ r.
Proof.
  revert s. induction p as [|c p IH]; intros s H.
  - exists s. reflexivity.
  - destruct s as [|d s]; simpl in H; [discriminate|].
    destruct (ascii_dec c d) as [->|]; [|discriminate].
    destruct (IH _ H) as [r ->]. by exists r.
Qed.

Lemma app_assoc_s (a b c : string) : (a +:+ b) +:+ c = a +:+ (b +:+ c).
Proof.
  induction a as [|x a IH]; rewrite ?app_nil_s, ?app_cons_s; [done | by rewrite IH].
Qed.

(** [str_in] is exactly "occurs somewhere inside". *)
Lemma str_in_spec (kw t : string) :
  str_in kw t = true <-> exists a b, t = a +:+ kw +:+ b.
Proof.
  split.
  - induction t as [|c t IH]; cbn [str_in]; intros H.
    + apply orb_prop in H as [H|H]; [|discriminate].
      destruct (prefix_split _ _ H) as [r Hr]. by exists "", r.
    + apply orb_prop in H as [H|H].
      * destruct (prefix_split _ _ H) as [r Hr]. by exists "", r.
      * destruct (IH H) as (a & b & ->). by exists (String c a), b.
  - intros (a & b & ->). induction a as [|c a IH].
    + rewrite app_nil_s.
      destruct (kw +:+ b) eqn:E; cbn [str_in]; rewrite <- E, prefix_app; reflexivity.
    + rewrite app_cons_s. cbn [str_in]. rewrite IH. apply orb_true_r.
Qed.

Lemma str_in_app_r (kw a t : string) :
  str_in kw t = true -> str_in kw (a +:+ t) = true.
Proof.
  rewrite !str_in_spec. intros (x & y & ->).
  exists (a +:+ x), y. by rewrite app_assoc_s.
Qed.

Lemma str_in_app_l (kw t b : string) :
  str_in kw t = true -> str_in kw (t +:+ b) = true.
Proof.
  rewrite !str_in_spec. intros (x & y & ->).
  exists x, (y +:+ b). by rewrite !app_assoc_s.
Qed.

Lemma lower_app (a b : string) : lower (a +:+ b) = lower a +:+ lower b.
Proof.
  induction a as [|c a IH]; simpl; rewrite ?app_nil_s, ?app_cons_s; simpl;
    [done | by rewrite IH].
Qed.

Lemma lower_ascii_idem (c : ascii) : lower_ascii (lower_ascii c) = lower_ascii c.
Proof.
  unfold lower_ascii.
  destruct ((65 <=? nat_of_ascii c)%nat && (nat_of_ascii c <=? 90)%nat) eqn:E.
  - apply andb_prop in E as [E1 E2].
    apply Nat.leb_le in E1. apply Nat.leb_le in E2.
    rewrite nat_ascii_embedding by lia.
    replace ((nat_of_ascii c + 32 <=? 90)%nat) with false
      by (symmetry; apply Nat.leb_gt; lia).
    by rewrite andb_false_r.
  - by rewrite E.
Qed.

Lemma lower_idem (s : string) : lower (lower s) = lower s.
Proof.
  induction s as [|c s IH]; simpl; [done|].
  by rewrite lower_ascii_idem, IH.
Qed.

Lemma any_in_exists (kws : list string) (t : string) :
  any_in kws t = true <-> exists kw, In kw kws /\ str_in kw t = true.
Proof. unfold any_in. apply existsb_exists. Qed.



End TextFacts.

(* ===================================================================== *)
(** ** Fetch stage: the delta of a fetch                                  *)
(* ===================================================================== *)

Section GmailReadFacts.
Import GmailRead.

Lemma fetch_rows_returned self new_ids : forall rows seen out seen',
  fetch_rows self new_ids rows seen = (Returned out, seen') ->
  map id out = map id rows ++ new_ids /\
  seen' = list_to_set new_ids ∪ seen /\
  Forall (fun mid => is_Some (messages_get (service self) mid)) new_ids.
Proof.
  induction new_ids as [|mid rest IH]; intros rows seen out seen' H; simpl in H.
  - inversion H; subst. rewrite app_nil_r. split; [done|]. split; [set_solver | constructor].
  - unfold get_details in H.
    destruct (messages_get (service self) mid) as [p|] eqn:E; [|discriminate].
    apply IH in H as (Hids & Hseen & Hall).
    rewrite map_app in Hids. simpl in Hids. rewrite <- app_assoc in Hids. simpl in Hids.
    split; [exact Hids|]. split.
    + rewrite Hseen. set_solver.
    + constructor; [by rewrite E | exact Hall].
Qed.

Lemma fetch_rows_total self new_ids : forall rows seen,
  Forall (fun mid => is_Some (messages_get (service self) mid)) new_ids ->
  exists out seen', fetch_rows self new_ids rows seen = (Returned out, seen').
Proof.
  induction new_ids as [|mid rest IH]; intros rows seen Hall; simpl.
  - eauto.
  - inversion Hall as [|? ? [p Hp] Hrest]; subst.
    unfold get_details. rewrite Hp. apply IH, Hrest.
Qed.

Lemma filter_split_length (seen : gset string) (l : list string) :
  length (filter (fun mid => mid ∉ seen) l)
  = length l - length (filter (fun mid => mid ∈ seen) l).
Proof.
  induction l as [|x l IH]; [done|].
  rewrite !filter_cons. pose proof (length_filter (fun mid => mid ∈ seen) l).
  destruct (decide (x ∈ seen)); destruct (decide (x ∉ seen)); simpl; try tauto; lia.
Qed.

Lemma filter_none_seen (seen : gset string) (l : list string) :
  seen = ∅ -> filter (fun mid => mid ∉ seen) l = l.
Proof.
  intros Hseen. induction l as [|x l IH]; [done|].
  rewrite filter_cons, IH. destruct (decide (x ∉ seen)); [done | set_solver].
Qed.

(** C4.  A call of [fetch_new_as_dataframe] whose upstream listing is
    [all_ids]: whenever it returns, the ids of the returned rows are, in
    order, exactly the listed ids that are not in [seen_ids]; their number
    is the number of listed ids minus the number of listed ids that are in
    [seen_ids]; and [seen_ids] has grown by exactly those ids.  The call
    does return as soon as the detail fetch of every new id succeeds.  With
    an empty [seen_ids] every listed id is new, and with an empty listing
    the empty table is returned, no detail being fetched. *)
Theorem fetch_new_is_the_delta
    (self : GmailLiveReader) (query : string) (seen_ids : gset string)
    (all_ids : list string)
    (Hlist : list_ids self query = Some all_ids) :
  let new_ids := filter (fun mid => mid ∉ seen_ids) all_ids in
  (forall rows seen',
     fetch_new_as_dataframe self query seen_ids = (Returned rows, seen') ->
     map id rows = new_ids /\
     length rows = length all_ids - length (filter (fun mid => mid ∈ seen_ids) all_ids) /\
     seen' = list_to_set new_ids ∪ seen_ids) /\
  (Forall (fun mid => is_Some (messages_get (service self) mid)) new_ids ->
   exists rows seen',
     fetch_new_as_dataframe self query seen_ids = (Returned rows, seen')) /\
  (seen_ids = ∅ -> new_ids = all_ids) /\
  (all_ids = [] -> fetch_new_as_dataframe self query seen_ids = (Returned [], seen_ids)).
Proof.
  intros new_ids. unfold fetch_new_as_dataframe. rewrite Hlist. fold new_ids.
  split; [|split; [|split]].
  - intros rows seen' H.
    assert (map id rows = new_ids /\ seen' = list_to_set new_ids ∪ seen_ids) as [Hids Hseen].
    { destruct new_ids as [|mid rest] eqn:E.
      - inversion H; subst. split; [done | set_solver].
      - apply fetch_rows_returned in H as (Hids & Hseen & _). by split. }
    split; [exact Hids|]. split; [|exact Hseen].
    rewrite <- (length_map id rows), Hids. apply filter_split_length.
  - intros Hall. destruct new_ids as [|mid rest] eqn:E; [eauto|].
    by apply fetch_rows_total.
  - intros Hempty. subst new_ids. by apply filter_none_seen.
  - intros ->. reflexivity.
Qed.

Lemma fetch_new_is_the_delta_witness :
  list_ids Samples.demo_reader "after:2025/12/05" = Some ["m1"; "m2"; "m3"] /\
  exists rows seen',
    fetch_new_as_dataframe Samples.demo_reader "after:2025/12/05" {["m2"]}
    = (Returned rows, seen')
    /\ map id rows = ["m1"; "m3"].
Proof.
  split; [reflexivity|].
  destruct (fetch_new_is_the_delta Samples.demo_reader "after:2025/12/05" {["m2"]}
              ["m1"; "m2"; "m3"] eq_refl) as (Hret & Htot & _ & _).
  destruct Htot as (rows & seen' & Hrun).
  - repeat constructor; by eexists.
  - exists rows, seen'. split; [exact Hrun|].
    apply Hret in Hrun as (Hids & _ & _). exact Hids.
Defined.

End GmailReadFacts.

(* ===================================================================== *)
(** ** Classification stage: the incremental merge                        *)
(* ===================================================================== *)

Section PredictFacts.
Import Predict.

(** *** [drop_duplicates] and the left merge *)


Lemma find_id_cons (i : string) (o : OldRow) (df : list OldRow) :
  find_id i (o :: df) = if decide (o_id o = i) then Some o else find_id i df.
Proof. unfold find_id. simpl. by case_bool_decide; case_decide. Qed.

Lemma drop_duplicates_from_ids (seen : list string) (df : list OldRow) :
  NoDup (map o_id (drop_duplicates_from seen df)) /\
  (forall i, i ∈ map o_id (drop_duplicates_from seen df) -> i ∉ seen) /\
  (forall i, find_id i (drop_duplicates_from seen df)
             = if decide (i ∈ seen) then None else find_id i df).
Proof.
  revert seen. induction df as [|o rest IH]; intros seen; cbn [drop_duplicates_from].
  - split; [constructor|]. split; [intros i Hi; inversion Hi|].
    intros i. by destruct (decide (i ∈ seen)).
  - destruct (decide (o_id o ∈ seen)) as [Hin|Hnin].
    + destruct (IH seen) as (Hnd & Hdisj & Hfind).
      split; [done|]. split; [done|]. intros i. rewrite Hfind, find_id_cons.
      destruct (decide (i ∈ seen)) as [Hi|Hi]; [done|].
      destruct (decide (o_id o = i)); [congruence | done].
    + destruct (IH (o_id o :: seen)) as (Hnd & Hdisj & Hfind).
      split; [|split].
      * simpl. constructor; [|done]. intros Hin. apply Hdisj in Hin. set_solver.
      * simpl. intros i Hi. apply elem_of_cons in Hi as [->|Hi]; [done|].
        apply Hdisj in Hi. set_solver.
      * intros i. rewrite !find_id_cons, Hfind.
        destruct (decide (o_id o = i)) as [<-|Hne].
        -- by rewrite decide_False.
        -- destruct (decide (i ∈ seen)) as [Hi|Hi].
           ++ rewrite decide_True; [done | set_solver].
           ++ rewrite decide_False; [done | set_solver].
Qed.

Lemma find_id_None (i : string) (df : list OldRow) :
  i ∉ map o_id df -> find_id i df = None.
Proof.
  induction df as [|o rest IH]; intros Hnin; [done|].
  rewrite find_id_cons. simpl in Hnin.
  rewrite decide_False by set_solver. apply IH. set_solver.
Qed.

Lemma filter_id_nil (i : string) (df : list OldRow) :
  i ∉ map o_id df -> filter (fun o => o_id o = i) df = [].
Proof.
  induction df as [|o rest IH]; intros Hnin; [done|].
  simpl in Hnin. rewrite filter_cons, decide_False by set_solver. apply IH. set_solver.
Qed.

Lemma filter_unique_id (i : string) (df : list OldRow) :
  NoDup (map o_id df) ->
  filter (fun o => o_id o = i) df = option_list (find_id i df).
Proof.
  induction df as [|o rest IH]; intros Hnd; [done|].
  simpl in Hnd. apply NoDup_cons in Hnd as [Hnin Hnd].
  rewrite filter_cons, find_id_cons.
  destruct (decide (o_id o = i)) as [<-|Hne].
  - simpl. f_equal. by apply filter_id_nil.
  - by apply IH.
Qed.

Lemma find_id_drop_duplicates (i : string) (df_old : OldTable) :
  find_id i (drop_duplicates (old_rows df_old)) = old_row_of i df_old.
Proof.
  unfold drop_duplicates.
  destruct (drop_duplicates_from_ids [] (old_rows df_old)) as (_ & _ & Hfind).
  rewrite Hfind. rewrite decide_False by set_solver. reflexivity.
Qed.

(** After [drop_duplicates] the left merge is row by row: every source
    row appears once, next to the first old row of its id. *)
Lemma merge_old_rowwise (df : list SrcRow) (df_old : OldTable) :
  merge_old df df_old
  = map (fun r => fill_from_old (r, old_row_of (s_id r) df_old)) df.
Proof.
  unfold merge_old, merge_left.
  destruct (drop_duplicates_from_ids [] (old_rows df_old)) as (Hnd & _ & _).
  fold (drop_duplicates (old_rows df_old)) in Hnd.
  induction df as [|r rest IH]; [done|].
  cbn [flat_map]. rewrite map_app, IH. cbn [map]. f_equal.
  rewrite (filter_unique_id (s_id r) _ Hnd), find_id_drop_duplicates.
  by destruct (old_row_of (s_id r) df_old).
Qed.


(** *** Masked selection and assignment *)


Lemma loc_assign_Some {A} (set : Row -> A -> Row) (mask : list bool) :
  forall (df : list Row) (values : list A) (out : list Row),
  length mask = length df ->
  loc_assign set mask df values = Some out ->
  length out = length df /\
  length values = mask_sum mask /\
  (forall k r, df !! k = Some r -> mask !! k = Some false -> out !! k = Some r) /\
  (forall k r, df !! k = Some r -> mask !! k = Some true ->
     exists v, out !! k = Some (set r v)).
Proof.
  induction mask as [|m mask IH]; intros df values out Hlen H.
  - destruct df; [|discriminate]. simpl in H. destruct values; [|discriminate].
    inversion H; subst. repeat split; intros k r Hk; by destruct k.
  - destruct df as [|r0 df]; [discriminate|]. simpl in Hlen.
    injection Hlen as Hlen. simpl in H. destruct m.
    + destruct values as [|v values]; [discriminate|].
      destruct (loc_assign set mask df values) as [t|] eqn:E; [|discriminate].
      inversion H; subst. destruct (IH _ _ _ Hlen E) as (H1 & H2 & H3 & H4).
      unfold mask_sum in *. rewrite filter_cons. simpl.
      repeat split; [lia | lia | |].
      * intros [|k] r Hk Hm; [discriminate|]. simpl in *. eauto.
      * intros [|k] r Hk Hm; simpl in *; [|eauto].
        inversion Hk; subst. eauto.
    + destruct (loc_assign set mask df values) as [t|] eqn:E; [|discriminate].
      inversion H; subst. destruct (IH _ _ _ Hlen E) as (H1 & H2 & H3 & H4).
      unfold mask_sum in *. rewrite filter_cons. simpl.
      repeat split; [lia | lia | |].
      * intros [|k] r Hk Hm; simpl in *; [congruence | eauto].
      * intros [|k] r Hk Hm; simpl in *; [discriminate | eauto].
Qed.

Lemma loc_assign_total {A} (set : Row -> A -> Row) (mask : list bool) :
  forall (df : list Row) (values : list A),
  length mask = length df ->
  length values = mask_sum mask ->
  is_Some (loc_assign set mask df values).
Proof.
  induction mask as [|m mask IH]; intros df values Hlen Hv.
  - destruct df; [|discriminate]. destruct values; [|discriminate]. by eexists.
  - destruct df as [|r0 df]; [discriminate|]. injection Hlen as Hlen.
    unfold mask_sum in Hv. rewrite filter_cons in Hv. simpl. destruct m; simpl in Hv.
    + destruct values as [|v values]; [discriminate|]. injection Hv as Hv.
      destruct (IH df values Hlen Hv) as [t Ht]. rewrite Ht. by eexists.
    + destruct (IH df values Hlen Hv) as [t Ht]. rewrite Ht. by eexists.
Qed.

Lemma loc_text_elem (mask : list bool) : forall (i : nat) (df : list Row) j txt,
  (j, txt) ∈ loc_text i mask df ->
  exists r, i <= j /\ df !! (j - i) = Some r /\ mask !! (j - i) = Some true /\ text r = txt.
Proof.
  induction mask as [|m mask IH]; intros i df j txt H; simpl in H.
  - inversion H.
  - destruct df as [|r0 df]; [inversion H|].
    assert ((j, txt) ∈ loc_text (S i) mask df ->
            exists r, i <= j /\ (r0 :: df) !! (j - i) = Some r /\
                      (m :: mask) !! (j - i) = Some true /\ text r = txt) as Hrest.
    { intros H'. destruct (IH _ _ _ _ H') as (r & Hle & Hr & Hm & Ht).
      exists r. replace (j - i) with (S (j - S i)) by lia. repeat split; [lia|done..]. }
    destruct m; [|auto].
    apply elem_of_cons in H as [H|H]; [|auto].
    inversion H; subst. exists r0. rewrite Nat.sub_diag. repeat split; [lia|done..].
Qed.

Lemma loc_text_length (mask : list bool) : forall (i : nat) (df : list Row),
  length mask = length df -> length (loc_text i mask df) = mask_sum mask.
Proof.
  induction mask as [|m mask IH]; intros i df Hlen; [done|].
  destruct df as [|r0 df]; [discriminate|]. injection Hlen as Hlen.
  unfold mask_sum. rewrite filter_cons. simpl.
  destruct m; simpl; rewrite (IH _ _ Hlen); reflexivity.
Qed.

Lemma mask_new_length (df : list Row) : length (mask_new df) = length df.
Proof. unfold mask_new. by rewrite length_map. Qed.

Lemma lookup_map {A B} (f : A -> B) (l : list A) (k : nat) :
  map f l !! k = f <$> l !! k.
Proof. revert k. induction l as [|x l IH]; intros [|k]; simpl; auto. Qed.

Lemma mask_new_lookup (df : list Row) (k : nat) (r : Row) :
  df !! k = Some r -> mask_new df !! k = Some (isna (job_label r)).
Proof. intros H. unfold mask_new. by rewrite lookup_map, H. Qed.

Lemma mask_sum_0 (mask : list bool) :
  mask_sum mask = 0 -> forall k, mask !! k = Some true -> False.
Proof.
  unfold mask_sum. induction mask as [|m mask IH]; intros H k Hk; [by destruct k|].
  rewrite filter_cons in H. destruct m; simpl in H; [discriminate|].
  destruct k; [discriminate|]. eauto.
Qed.

(** *** What a run that saves has done *)


Local Opaque merged mask_new mask_sum loc_text loc_assign pretty String.append.

Lemma classify_saved_inv (self : EmailJobClassifier) (disk : Disk) (out : Table) :
  saved (events (classify self disk)) = Some out ->
  exists df_src,
    excel_file disk = Readable df_src /\
    src_has_required df_src = true /\
    path_exists (model_file disk) = true /\
    output_file disk <> Unreadable /\
    ending (classify self disk) = Returned out /\
    has_id out = src_has_id df_src /\
    let df := merged df_src (old_of disk) in
    let texts_new := loc_text 0 (mask_new df) df in
    (mask_sum (mask_new df) = 0 /\ rows out = df /\
     model_calls (events (classify self disk)) = [])
    \/
    (mask_sum (mask_new df) <> 0 /\
     model_calls (events (classify self disk)) = [texts_new; texts_new] /\
     exists model df1,
       model_file disk = Readable model /\
       loc_assign set_job_label (mask_new df) df (predict model (map snd texts_new)) = Some df1 /\
       loc_assign set_prob_job (mask_new df) df1 (predict_proba model (map snd texts_new))
       = Some (rows out)).
Proof.
  unfold classify, old_of. intros H.
  destruct (excel_file disk) as [| |df_src] eqn:Hex;
    destruct (model_file disk) as [| |model] eqn:Hmod;
    try (cbn in H; discriminate).
  all: destruct (output_file disk) as [| |old] eqn:Hout.
  all: cbn in H |- *.
  all: destruct (src_has_required df_src) eqn:Hreq; [|cbn in H; discriminate].
  all: destruct (src_has_id df_src) eqn:Hid.
  all: cbn in H |- *.
  all: try discriminate.
  all: exists df_src; split; [reflexivity|]; split; [assumption|]; split; [reflexivity|];
    split; [discriminate|].
  all: match goal with |- context [merged ?d ?o] => set (df := merged d o) in * end.
  all: destruct (Nat.eqb_spec (mask_sum (mask_new df)) 0) as [Hc|Hc].
  all: cbn in H |- *.
  all: try discriminate.
  all: try (injection H as <-; rewrite ?Hid; split; [reflexivity|]; split; [reflexivity|];
            left; by repeat split).
  all: destruct (loc_assign set_job_label (mask_new df) df _) as [df1|] eqn:E1;
         [|cbn in H; discriminate].
  all: cbn in H |- *.
  all: destruct (loc_assign set_prob_job (mask_new df) df1 _) as [df2|] eqn:E2; 
         [|cbn in H; discriminate].
  all: cbn in H |- *.
  all: injection H as <-; rewrite ?Hid; split; [reflexivity|]; split; [reflexivity|].
  all: right; split; [assumption|]; split; [reflexivity|].
  all: exists model, df1; by repeat split.
Qed.

Local Transparent merged mask_new mask_sum loc_text loc_assign pretty String.append.


(** The row of the merged table at a given position. *)
Lemma merged_lookup (df_src : SrcTable) (df_old : option OldTable) (k : nat) (r : SrcRow) :
  src_rows df_src !! k = Some r ->
  merged df_src df_old !! k
  = Some (prepare_text
            match df_old with
            | Some old =>
                if src_has_id df_src && old_has_id old
                then fill_from_old (r, old_row_of (s_id r) old) else r
            | None => r
            end).
Proof.
  intros Hk. unfold merged. rewrite lookup_map.
  destruct df_old as [old|]; [|by rewrite Hk].
  destruct (src_has_id df_src && old_has_id old); [|by rewrite Hk].
  by rewrite merge_old_rowwise, lookup_map, Hk.
Qed.

Lemma merged_length (df_src : SrcTable) (df_old : option OldTable) :
  length (merged df_src df_old) = length (src_rows df_src).
Proof.
  unfold merged. rewrite length_map.
  destruct df_old as [old|]; [|done].
  destruct (src_has_id df_src && old_has_id old); [|done].
  by rewrite merge_old_rowwise, length_map.
Qed.


(** The saved table against the merged one: same height, same raw fields
    row by row, and a row that came out of the merge with a label is
    saved as it is. *)
Lemma saved_rows_vs_merged (self : EmailJobClassifier) (disk : Disk) (out : Table) :
  saved (events (classify self disk)) = Some out ->
  exists df_src,
    excel_file disk = Readable df_src /\
    has_id out = src_has_id df_src /\
    let df := merged df_src (old_of disk) in
    length (rows out) = length df /\
    forall k r, df !! k = Some r ->
      exists row, rows out !! k = Some row /\ same_raw row r /\
        (job_label r <> None -> row = r) /\
        (job_label r = None -> job_label row <> None /\ prob_job row <> None).
Proof.
  intros H. destruct (classify_saved_inv _ _ _ H)
    as (df_src & Hex & _ & _ & _ & _ & Hid & Hcases).
  exists df_src. split; [done|]. split; [done|]. cbv zeta in *.
  set (df := merged df_src (old_of disk)) in *.
  destruct Hcases as [(Hc & Hrows & _) | (Hc & _ & model & df1 & _ & E1 & E2)].
  - rewrite Hrows. split; [done|]. intros k r Hk. exists r.
    split; [done|]. split; [by repeat split|]. split; [done|].
    intros Hnone. exfalso. apply (mask_sum_0 _ Hc k).
    by rewrite (mask_new_lookup _ _ _ Hk), Hnone.
  - pose proof (mask_new_length df) as Hlen.
    destruct (loc_assign_Some _ _ _ _ _ Hlen E1) as (L1 & _ & F1 & T1).
    assert (length (mask_new df) = length df1) as Hlen1 by lia.
    destruct (loc_assign_Some _ _ _ _ _ Hlen1 E2) as (L2 & _ & F2 & T2).
    split; [lia|]. intros k r Hk.
    pose proof (mask_new_lookup _ _ _ Hk) as Hm.
    destruct (job_label r) as [l|] eqn:Hl; simpl in Hm.
    + exists r. split; [eauto|]. split; [by repeat split|]. split; [done|]. done.
    + destruct (T1 _ _ Hk Hm) as [v Hv]. destruct (T2 _ _ Hv Hm) as [v' Hv'].
      eexists. split; [exact Hv'|]. split; [by repeat split|]. split; [done|].
      intros _. by split.
Qed.


Local Opaque merged mask_new mask_sum loc_text loc_assign pretty String.append.


(** When the merge leaves no label missing the table is saved as merged
    and the model is not even loaded. *)
Lemma classify_nothing_new (self : EmailJobClassifier) (disk : Disk) (df_src : SrcTable) :
  excel_file disk = Readable df_src ->
  src_has_required df_src = true ->
  path_exists (model_file disk) = true ->
  output_file disk <> Unreadable ->
  mask_sum (mask_new (merged df_src (old_of disk))) = 0 ->
  let out := {| has_id := src_has_id df_src; rows := merged df_src (old_of disk) |} in
  ending (classify self disk) = Returned out /\
  saved (events (classify self disk)) = Some out /\
  model_calls (events (classify self disk)) = [].
Proof.
  intros Hex Hreq Hmod Hout Hc. unfold classify, old_of in *. rewrite Hex, Hmod.
  cbn [negb]. cbn. rewrite Hreq. cbn.
  destruct (output_file disk) as [| |old]; [|done|]; destruct (src_has_id df_src); cbn;
    rewrite Hc; cbn; done.
Qed.

(** A run on sound inputs returns and saves: the sheet is readable and
    has its columns, the model loads and answers with one prediction per
    text, and the previous file is absent or readable. *)
Lemma classify_returns (self : EmailJobClassifier) (disk : Disk)
    (df_src : SrcTable) (model : Model) :
  excel_file disk = Readable df_src ->
  src_has_required df_src = true ->
  model_file disk = Readable model ->
  output_file disk <> Unreadable ->
  (forall texts, length (predict model texts) = length texts /\
                 length (predict_proba model texts) = length texts) ->
  exists out,
    ending (classify self disk) = Returned out /\
    saved (events (classify self disk)) = Some out.
Proof.
  intros Hex Hreq Hmod Hout Hmodel.
  destruct (decide (mask_sum (mask_new (merged df_src (old_of disk))) = 0)) as [Hc|Hc].
  { destruct (classify_nothing_new self disk df_src) as (He & Hs & _); try done.
    - by rewrite Hmod.
    - eauto. }
  set (df := merged df_src (old_of disk)) in *.
  set (texts := map snd (loc_text 0 (mask_new df) df)).
  destruct (Hmodel texts) as [Hp Hq].
  assert (length texts = mask_sum (mask_new df)) as Ht.
  { unfold texts. rewrite length_map. apply loc_text_length, mask_new_length. }
  destruct (loc_assign_total set_job_label (mask_new df) df (predict model texts))
    as [df1 E1]; [apply mask_new_length | lia |].
  destruct (loc_assign_Some _ _ _ _ _ (mask_new_length df) E1) as (L1 & _).
  destruct (loc_assign_total set_prob_job (mask_new df) df1 (predict_proba model texts))
    as [df2 E2]; [rewrite mask_new_length; lia | lia |].
  exists {| has_id := src_has_id df_src; rows := df2 |}.
  unfold classify, old_of in *. rewrite Hex, Hmod. cbn. rewrite Hreq. cbn.
  destruct (output_file disk) as [| |old]; [|done|]; destruct (src_has_id df_src); cbn;
    fold df; (destruct (Nat.eqb_spec (mask_sum (mask_new df)) 0); [done|]); cbn;
    fold texts; rewrite E1; cbn; rewrite E2; cbn; done.
Qed.

Local Transparent merged mask_new mask_sum loc_text loc_assign pretty String.append.


(** The raw fields of a merged row are those of the source row. *)
Lemma merged_raw (df_src : SrcTable) (df_old : option OldTable) (k : nat) (r : SrcRow) :
  src_rows df_src !! k = Some r ->
  exists r', merged df_src df_old !! k = Some r' /\
    id r' = s_id r /\
    subject r' = default "" (s_subject r) /\
    body r' = default "" (s_body r) /\
    text r' = default "" (s_subject r) +:+ " " +:+ default "" (s_body r) /\
    rest r' = s_rest r.
Proof.
  intros Hk. eexists. split; [by apply merged_lookup|].
  destruct df_old as [old|]; [|done].
  by destruct (src_has_id df_src && old_has_id old).
Qed.

Lemma find_id_lookup (df : list OldRow) (k : nat) (o : OldRow) :
  NoDup (map o_id df) -> df !! k = Some o -> find_id (o_id o) df = Some o.
Proof.
  revert k. induction df as [|o' df IH]; intros k Hnd Hk; [by destruct k|].
  simpl in Hnd. apply NoDup_cons in Hnd as [Hnin Hnd]. rewrite find_id_cons.
  destruct k as [|k]; simpl in Hk.
  - injection Hk as ->. by rewrite decide_True.
  - rewrite decide_False; [by eapply IH|].
    intros Heq. apply Hnin. rewrite Heq.
    apply list_elem_of_fmap. exists o. split; [done|]. by eapply list_elem_of_lookup_2.
Qed.

Lemma mask_sum_labelled (df : list Row) :
  (forall k r, df !! k = Some r -> job_label r <> None) ->
  mask_sum (mask_new df) = 0.
Proof.
  unfold mask_sum, mask_new. induction df as [|r df IH]; intros H; [done|].
  cbn [map]. rewrite filter_cons.
  pose proof (H 0 r eq_refl) as Hr. destruct (job_label r); [|done]. simpl.
  apply IH. intros k r' Hk. by apply (H (S k)).
Qed.


(** C1.  A run of [classify] that saves a table, on an export with an
    ["id"] column and no label column of its own, next to a previous
    classified file that has an ["id"] column.  Let [o] be the row the
    previous file holds for the id [i] (the one [drop_duplicates] keeps)
    and let its label [l] be non-null.  Then every saved row of id [i]
    carries exactly [l] and exactly the previous probability, and its
    position occurs in no batch handed to the model.  Moreover every
    batch handed to the model is the texts of exactly the rows whose
    label is still missing after the merge. *)
Theorem classify_keeps_previous_labels
    (self : EmailJobClassifier) (disk : Disk)
    (df_src : SrcTable) (df_old : OldTable) (out : Table)
    (i : string) (o : OldRow) (l : label)
    (Hsrc : excel_file disk = Readable df_src)
    (Hold : output_file disk = Readable df_old)
    (Hid : src_has_id df_src = true /\ old_has_id df_old = true)
    (Hraw : unlabelled df_src)
    (Hrow : old_row_of i df_old = Some o)
    (Hlabel : o_job_label o = Some l)
    (Hsaved : saved (events (classify self disk)) = Some out) :
  let df := merged df_src (Some df_old) in
  (forall k row, rows out !! k = Some row -> id row = i ->
     job_label row = Some l /\
     prob_job row = o_prob_job o /\
     forall batch, batch ∈ model_calls (events (classify self disk)) ->
       k ∉ map fst batch) /\
  (forall batch, batch ∈ model_calls (events (classify self disk)) ->
     batch = loc_text 0 (mask_new df) df /\
     forall k txt, (k, txt) ∈ batch ->
       exists r, df !! k = Some r /\ job_label r = None /\ text r = txt).
Proof.
  intros df. destruct Hid as [Hid1 Hid2].
  destruct (classify_saved_inv _ _ _ Hsaved)
    as (df_src' & Hex & _ & _ & _ & _ & _ & Hcases).
  rewrite Hsrc in Hex. injection Hex as <-.
  unfold old_of in Hcases. rewrite Hold in Hcases. cbv zeta in Hcases. fold df in Hcases.
  assert (forall batch, batch ∈ model_calls (events (classify self disk)) ->
            batch = loc_text 0 (mask_new df) df) as Hbatch.
  { intros batch Hb.
    destruct Hcases as [(_ & _ & Hcalls) | (_ & Hcalls & _)]; rewrite Hcalls in Hb.
    - inversion Hb.
    - set_solver. }
  assert (forall batch k txt, batch ∈ model_calls (events (classify self disk)) ->
            (k, txt) ∈ batch ->
            exists r, df !! k = Some r /\ job_label r = None /\ text r = txt) as Hnull.
  { intros batch k txt Hb Hk. rewrite (Hbatch _ Hb) in Hk.
    destruct (loc_text_elem _ _ _ _ _ Hk) as (r & _ & Hr & Hm & Ht).
    rewrite Nat.sub_0_r in Hr, Hm. exists r. split; [done|]. split; [|done].
    rewrite (mask_new_lookup _ _ _ Hr) in Hm. injection Hm as Hm.
    by destruct (job_label r). }
  split; [|by eauto].
  intros k row Hk Hidrow.
  destruct (saved_rows_vs_merged _ _ _ Hsaved) as (df_src' & Hex & _ & Hlen & Hrows).
  rewrite Hsrc in Hex. injection Hex as <-.
  unfold old_of in Hlen, Hrows. rewrite Hold in Hlen, Hrows. cbv zeta in Hlen, Hrows.
  fold df in Hlen, Hrows.
  assert (is_Some (src_rows df_src !! k)) as [r Hr].
  { apply lookup_lt_is_Some. rewrite <- (merged_length df_src (Some df_old)).
    fold df. rewrite <- Hlen. by apply lookup_lt_Some in Hk. }
  pose proof (merged_lookup df_src (Some df_old) k r Hr) as Hm. fold df in Hm.
  rewrite Hid1, Hid2 in Hm. cbn [andb] in Hm.
  destruct (Hrows _ _ Hm) as (row' & Hk' & Hsame & Heq & _).
  rewrite Hk in Hk'. injection Hk' as <-.
  destruct Hsame as (Hsid & _). simpl in Hsid. rewrite Hidrow in Hsid.
  rewrite Hsid in Hrow. clear Hsid Hidrow.
  unfold unlabelled in Hraw. rewrite Forall_forall in Hraw.
  destruct (Hraw r) as [Hl Hp]; [by eapply list_elem_of_lookup_2|].
  rewrite Heq; simpl; rewrite Hrow, ?Hl, ?Hp; simpl; rewrite ?Hlabel; try done.
  split; [done|]. split; [done|].
  intros batch Hb Hin. apply list_elem_of_fmap in Hin as ([k' txt] & Hkk & Hin).
  simpl in Hkk. subst k'.
  destruct (Hnull _ _ _ Hb Hin) as (r' & Hr' & Hnone & _). simpl in Hr'.
  rewrite Hm in Hr'. injection Hr' as <-. simpl in Hnone.
  rewrite Hrow, Hl in Hnone. simpl in Hnone. congruence.
Qed.

(** The sample run: m1 was labelled 0 with probability 1/4 by an earlier
    run; today's model would answer 1, yet the saved row of m1 still
    carries 0 and 1/4, and row 0 is in no batch handed to the model. *)
Lemma classify_keeps_previous_labels_witness :
  saved (events (classify Samples.demo_self Samples.demo_disk)) = Some Samples.demo_out /\
  old_row_of "m1" Samples.demo_old
  = Some {| o_id := "m1"; o_job_label := Some 0%Z; o_prob_job := Some (1 # 4) |} /\
  predict Samples.demo_model ["Application received "] = [1%Z] /\
  exists row,
    rows Samples.demo_out !! 0 = Some row /\ id row = "m1" /\
    job_label row = Some 0%Z /\ prob_job row = Some (1 # 4) /\
    forall batch,
      batch ∈ model_calls (events (classify Samples.demo_self Samples.demo_disk)) ->
      0 ∉ map fst batch.
Proof.
  assert (saved (events (classify Samples.demo_self Samples.demo_disk))
          = Some Samples.demo_out) as Hsaved by reflexivity.
  assert (unlabelled Samples.demo_src) as Hraw by (repeat constructor).
  split; [exact Hsaved|]. split; [reflexivity|]. split; [reflexivity|].
  destruct (classify_keeps_previous_labels Samples.demo_self Samples.demo_disk
              Samples.demo_src Samples.demo_old Samples.demo_out "m1"
              {| o_id := "m1"; o_job_label := Some 0%Z; o_prob_job := Some (1 # 4) |} 0%Z
              eq_refl eq_refl (conj eq_refl eq_refl) Hraw eq_refl eq_refl Hsaved)
    as [Hkeep _].
  eexists. split; [reflexivity|]. split; [reflexivity|].
  exact (Hkeep 0 _ eq_refl eq_refl).
Defined.


(** The saved table, row for row, against the export. *)
Lemma saved_table_vs_source
    (self : EmailJobClassifier) (disk : Disk) (out : Table) :
  saved (events (classify self disk)) = Some out ->
  exists df_src,
    excel_file disk = Readable df_src /\
    length (rows out) = length (src_rows df_src) /\
    (forall k r, src_rows df_src !! k = Some r ->
       exists row, rows out !! k = Some row /\
         id row = s_id r /\
         subject row = default "" (s_subject r) /\
         body row = default "" (s_body r) /\
         rest row = s_rest r) /\
    map id (rows out) = map s_id (src_rows df_src).
Proof.
  intros Hsaved.
  destruct (saved_rows_vs_merged _ _ _ Hsaved) as (df_src & Hex & _ & Hlen & Hrows).
  cbv zeta in Hlen, Hrows. rewrite merged_length in Hlen.
  assert (forall k r, src_rows df_src !! k = Some r ->
            exists row, rows out !! k = Some row /\
              id row = s_id r /\
              subject row = default "" (s_subject r) /\
              body row = default "" (s_body r) /\
              rest row = s_rest r) as Hpoint.
  { intros k r Hk.
    destruct (merged_raw df_src (old_of disk) k r Hk) as (r' & Hr' & H1 & H2 & H3 & _ & H5).
    destruct (Hrows _ _ Hr') as (row & Hrow & (S1 & S2 & S3 & _ & S5) & _).
    exists row. split; [done|]. repeat split; congruence. }
  exists df_src. split; [done|]. split; [done|]. split; [done|].
  apply list_eq. intros k. rewrite !lookup_map.
  destruct (src_rows df_src !! k) as [r|] eqn:Hk.
  - destruct (Hpoint _ _ Hk) as (row & Hrow & Hidr & _). rewrite Hrow. simpl.
    by rewrite Hidr.
  - apply lookup_ge_None in Hk. rewrite (proj2 (lookup_ge_None _ _)); [done | lia].
Qed.



(** Running the classifier again on an unchanged export: the table
    saved by the first run is saved again, unchanged, and the model is
    not called. *)
Lemma classify_again_is_noop
    (self : EmailJobClassifier) (disk : Disk) (df_src : SrcTable) (out : Table) :
  excel_file disk = Readable df_src ->
  src_has_id df_src = true ->
  NoDup (map s_id (src_rows df_src)) ->
  unlabelled df_src ->
  saved (events (classify self disk)) = Some out ->
  let disk' := disk_after disk (events (classify self disk)) in
  ending (classify self disk') = Returned out /\
  saved (events (classify self disk')) = Some out /\
  model_calls (events (classify self disk')) = [].
Proof.
  intros Hex Hid Hnd Hraw Hsaved disk'.
  destruct (classify_saved_inv _ _ _ Hsaved)
    as (df_src' & Hex' & Hreq & Hmod & _ & _ & Hhas & _).
  rewrite Hex in Hex'. injection Hex' as <-.
  destruct (saved_table_vs_source _ _ _ Hsaved)
    as (df_src' & Hex' & Hlen & Hpoint & Hids).
  rewrite Hex in Hex'. injection Hex' as <-.
  destruct (saved_rows_vs_merged _ _ _ Hsaved) as (df_src' & Hex' & _ & _ & Hrows).
  rewrite Hex in Hex'. injection Hex' as <-. cbv zeta in Hrows.
  assert (disk' = {| excel_file := excel_file disk; model_file := model_file disk;
                     output_file := Readable (reload out) |}) as Hdisk.
  { unfold disk', disk_after. by rewrite Hsaved. }
  assert (merged df_src (old_of disk') = rows out) as Hmerged.
  { rewrite Hdisk. unfold old_of. cbn [output_file].
    apply list_eq. intros k.
    destruct (src_rows df_src !! k) as [r|] eqn:Hk.
    - rewrite (merged_lookup _ _ _ _ Hk). cbn [reload old_has_id]. rewrite Hhas, Hid. 
      cbn [andb].
      destruct (Hpoint _ _ Hk) as (row & Hrow & H1 & H2 & H3 & H5).
      destruct (merged_raw df_src (old_of disk) k r Hk) as (r' & Hr' & _ & _ & _ & H4' & _).
      destruct (Hrows _ _ Hr') as (row' & Hrow' & (_ & _ & _ & S4 & _) & _).
      rewrite Hrow in Hrow'. injection Hrow' as <-.
      assert (old_row_of (s_id r) (reload out) = Some (as_old_row row)) as ->.
      { unfold old_row_of, reload. cbn [old_rows]. rewrite <- H1.
        change (id row) with (o_id (as_old_row row)).
        apply (find_id_lookup _ k).
        - rewrite map_map. change (NoDup (map id (rows out))). by rewrite Hids.
        - by rewrite lookup_map, Hrow. }
      unfold unlabelled in Hraw. rewrite Forall_forall in Hraw.
      destruct (Hraw r) as [Hl Hp]; [by eapply list_elem_of_lookup_2|].
      rewrite Hrow. f_equal. unfold prepare_text, fill_from_old.
      cbn. rewrite Hl, Hp. cbn. destruct row; cbn in *. congruence.
    - apply lookup_ge_None in Hk. 
      rewrite !(proj2 (lookup_ge_None _ _)); [done | lia | rewrite merged_length; lia]. }
  destruct (classify_nothing_new self disk' df_src) as (He & Hs & Hc).
  - by rewrite Hdisk.
  - done.
  - by rewrite Hdisk.
  - by rewrite Hdisk.
  - rewrite Hmerged. apply mask_sum_labelled. intros k row Hrow.
    assert (is_Some (merged df_src (old_of disk) !! k)) as [r' Hr'].
    { apply lookup_lt_is_Some. rewrite merged_length, <- Hlen. by eapply lookup_lt_Some. }
    destruct (Hrows _ _ Hr') as (row' & Hrow' & _ & Heq & Hnew).
    rewrite Hrow in Hrow'. injection Hrow' as <-.
    destruct (job_label r') eqn:E; [rewrite Heq; congruence | by apply Hnew].
  - rewrite Hmerged, <- Hhas in He, Hs. by destruct out.
Qed.

End PredictFacts.

(* ===================================================================== *)
(** ** Hybrid decision layer: rules and model *)
(* ===================================================================== *)

Section InboxAgentFacts.
Import Text InboxAgentV2.

Lemma accepted_iff (self : InboxAgentGmailML) (email : SimpleEmail) (p_job : Q) :
  accepted self email p_job
  = has_strong_job_signal (subject email) (body email) (sender email)
    || Qle_bool (prob_threshold self) p_job.
Proof.
  unfold accepted, skipped.
  by destruct (has_strong_job_signal _ _ _), (Qle_bool _ _).
Qed.






(** C2, as amended.  For a sender that matches the hard-negative domain
    list [NEGATIVE_DOMAINS]: the weak-supervision labelling rule answers 0
    whatever the subject and the body, the hard-negative test coming
    first; the decision taken at inference time does not look at that
    list, it accepts exactly when there is a strong job signal or the
    model probability reaches the threshold, so a probability at or above
    the threshold is accepted. *)
Theorem hard_negative_rule_is_training_only
    (self : InboxAgentGmailML) (email : SimpleEmail) (p_job : Q)
    (Hneg : AutoTrain.is_negative_sender (sender email) = true) :
  AutoTrain.is_job_email_rule (subject email) (body email) (sender email) = 0%Z /\
  accepted self email p_job
  = has_strong_job_signal (subject email) (body email) (sender email)
    || Qle_bool (prob_threshold self) p_job /\
  (Qle_bool (prob_threshold self) p_job = true -> accepted self email p_job = true).
Proof.
  split; [|split].
  - unfold AutoTrain.is_job_email_rule.
    unfold AutoTrain.is_negative_sender in *. by rewrite lower_idem, Hneg.
  - apply accepted_iff.
  - intros Hp. rewrite accepted_iff, Hp. apply orb_true_r.
Qed.

Lemma hard_negative_rule_is_training_only_witness :
  AutoTrain.is_negative_sender (sender Samples.demo_bank_email) = true /\
  AutoTrain.is_job_email_rule (subject Samples.demo_bank_email)
    (body Samples.demo_bank_email) (sender Samples.demo_bank_email) = 0%Z /\
  accepted Samples.demo_agent Samples.demo_bank_email (9 # 10) = true.
Proof.
  split; [reflexivity|].
  destruct (hard_negative_rule_is_training_only Samples.demo_agent
              Samples.demo_bank_email (9 # 10) eq_refl) as (Hrule & _ & Hmodel).
  split; [exact Hrule|]. apply Hmodel. reflexivity.
Defined.

(** The claim as stated fails: a sender of the hard-negative list, no
    strong signal, a model score of 0.9 against a threshold of 0.2; the
    item is accepted and gets its row. *)
Lemma hard_negative_sender_is_accepted :
  AutoTrain.is_negative_sender (sender Samples.demo_bank_email) = true /\
  has_strong_job_signal (subject Samples.demo_bank_email)
    (body Samples.demo_bank_email) (sender Samples.demo_bank_email) = false /\
  accepted Samples.demo_agent Samples.demo_bank_email (9 # 10) = true /\
  collect_rows Samples.demo_agent [Samples.demo_bank_email] [9 # 10]
  = [make_row Samples.demo_bank_email (9 # 10)].
Proof. repeat split; reflexivity. Qed.

(** C7, as amended.  [infer_job_status] of the hybrid agent is first
    match wins in this order: an application-confirmation phrase gives
    APPLICATION_CONFIRMATION; else an interview phrase gives
    INTERVIEW_INVITE; else a rejection phrase gives REJECTION; else the
    status is OTHER_JOB_EMAIL, and JOB_OPENING is never the answer.  The
    opening step exists in the rule-only agent alone, whose
    [infer_job_status] answers JOB_OPENING exactly when none of its three
    earlier lists matches and a phrase of its [STRONG_SUBJECT] does. *)
Theorem status_first_match_wins (text : string) :
  let t := lower text in
  (any_in APPLICATION_CONFIRM_WORDS t = true ->
     infer_job_status text = "APPLICATION_CONFIRMATION") /\
  (any_in APPLICATION_CONFIRM_WORDS t = false ->
   any_in INTERVIEW_WORDS t = true ->
     infer_job_status text = "INTERVIEW_INVITE") /\
  (any_in APPLICATION_CONFIRM_WORDS t = false ->
   any_in INTERVIEW_WORDS t = false ->
   any_in REJECTION_WORDS t = true ->
     infer_job_status text = "REJECTION") /\
  (any_in APPLICATION_CONFIRM_WORDS t = false ->
   any_in INTERVIEW_WORDS t = false ->
   any_in REJECTION_WORDS t = false ->
     infer_job_status text = "OTHER_JOB_EMAIL") /\
  infer_job_status text <> "JOB_OPENING" /\
  (forall (email : SimpleEmail) (p_job : Q),
     r_job_status (make_row email p_job)
     = infer_job_status (clean_text (subject email) +:+ " [SEP] "
                         +:+ clean_text (body email))) /\
  (InboxAgent.infer_job_status text = "JOB_OPENING" <->
     any_in InboxAgent.APPLICATION_CONFIRM_WORDS t = false /\
     any_in InboxAgent.INTERVIEW_WORDS t = false /\
     any_in InboxAgent.REJECTION_WORDS t = false /\
     any_in InboxAgent.STRONG_SUBJECT t = true).
Proof.
  intros t. unfold infer_job_status, InboxAgent.infer_job_status. fold t.
  repeat split.
  - by intros ->.
  - by intros -> ->.
  - by intros -> -> ->.
  - by intros -> -> ->.
  - by destruct (any_in APPLICATION_CONFIRM_WORDS t), (any_in INTERVIEW_WORDS t),
      (any_in REJECTION_WORDS t).
  - by destruct (any_in InboxAgent.APPLICATION_CONFIRM_WORDS t).
  - by destruct (any_in InboxAgent.APPLICATION_CONFIRM_WORDS t),
      (any_in InboxAgent.INTERVIEW_WORDS t).
  - by destruct (any_in InboxAgent.APPLICATION_CONFIRM_WORDS t),
      (any_in InboxAgent.INTERVIEW_WORDS t), (any_in InboxAgent.REJECTION_WORDS t).
  - by destruct (any_in InboxAgent.APPLICATION_CONFIRM_WORDS t),
      (any_in InboxAgent.INTERVIEW_WORDS t), (any_in InboxAgent.REJECTION_WORDS t),
      (any_in InboxAgent.STRONG_SUBJECT t).
  - by intros (-> & -> & -> & ->).
Qed.

(** The claim as stated fails: a text with an opening phrase ("job
    opening", "we are hiring") and none of the earlier phrases is given
    OTHER_JOB_EMAIL by the hybrid agent; only the rule-only agent says
    JOB_OPENING. *)
Lemma job_opening_is_not_derived :
  any_in APPLICATION_CONFIRM_WORDS (lower Samples.demo_opening_text) = false /\
  any_in INTERVIEW_WORDS (lower Samples.demo_opening_text) = false /\
  any_in REJECTION_WORDS (lower Samples.demo_opening_text) = false /\
  any_in InboxAgent.STRONG_SUBJECT (lower Samples.demo_opening_text) = true /\
  infer_job_status Samples.demo_opening_text = "OTHER_JOB_EMAIL" /\
  InboxAgent.infer_job_status Samples.demo_opening_text = "JOB_OPENING".
Proof. repeat split; reflexivity. Qed.

(** When the ids of the master are strings, the typed comparison of the
    merge is the comparison of the id texts. *)
Lemma drop_duplicates_last_typed_text (old_df new_df : list Row) :
  drop_duplicates_last_typed (concat_typed false old_df new_df)
  = drop_duplicates_last (old_df ++ new_df).
Proof.
  unfold concat_typed. rewrite <- map_app. generalize (old_df ++ new_df). clear.
  intros df. induction df as [|r df IH]; [done|]. cbn [map drop_duplicates_last_typed
    drop_duplicates_last]. rewrite IH.
  replace (existsb (fun x : id_cell * Row => bool_decide (x.1 = (false, r_email_id r)))
             (map (fun r0 => (false, r_email_id r0, r0)) df))
    with (existsb (fun r' => String.eqb (r_email_id r') (r_email_id r)) df); [done|].
  clear IH. induction df as [|r' df IH]; [done|]. cbn [map existsb fst]. rewrite IH.
  f_equal. destruct (String.eqb_spec (r_email_id r') (r_email_id r)) as [->|Hne].
  - by rewrite bool_decide_true.
  - rewrite bool_decide_false; [done|]. by intros [= ?].
Qed.

Local Opaque pretty String.append collect_rows combine_fields.
Local Opaque drop_duplicates_last_typed concat_typed.



Local Transparent pretty String.append collect_rows combine_fields.
Local Transparent drop_duplicates_last_typed concat_typed.

End InboxAgentFacts.

(* ===================================================================== *)
(** ** Index stage and query layer *)
(* ===================================================================== *)

Section RagFacts.
Import Text Rag.

Lemma first_n_all {A} (n : N) (l : list A) :
  (N.of_nat (length l) <= n)%N -> first_n n l = l.
Proof.
  revert n. induction l as [|x l IH]; intros n Hn; [done|].
  cbn [first_n]. simpl length in Hn.
  destruct (N.eqb_spec n 0) as [->|Hne]; [lia|].
  f_equal. apply IH. lia.
Qed.

Lemma existing_ids_all (collection : Collection) :
  (N.of_nat (length collection) <= GET_LIMIT)%N ->
  collection_get_ids GET_LIMIT collection = map e_id collection.
Proof. intros H. unfold collection_get_ids. by rewrite first_n_all. Qed.

(** The ids of the records built from the four lists are a leading part
    of the ids handed over, and all of them when the lists are aligned. *)
Lemma entries_ids (ids documents : list string) (metadatas : list Metadata)
    (embeddings : list Embedding) :
  map e_id (entries ids documents metadatas embeddings) `sublist_of` ids.
Proof.
  revert documents metadatas embeddings.
  induction ids as [|i ids IH]; intros [|d ds] [|m ms] [|e es]; simpl;
    try apply sublist_nil_l.
  apply sublist_skip, IH.
Qed.

Lemma entries_ids_aligned (ids documents : list string) (metadatas : list Metadata)
    (embeddings : list Embedding) :
  length documents = length ids -> length metadatas = length ids ->
  length embeddings = length ids ->
  map e_id (entries ids documents metadatas embeddings) = ids.
Proof.
  revert documents metadatas embeddings.
  induction ids as [|i ids IH]; intros [|d ds] [|m ms] [|e es] H1 H2 H3;
    simpl in *; try done.
  f_equal. apply IH; lia.
Qed.

Lemma entries_length (ids documents : list string) (metadatas : list Metadata)
    (embeddings : list Embedding) :
  length (entries ids documents metadatas embeddings) <= length ids.
Proof.
  rewrite <- (length_map e_id). apply sublist_length, entries_ids.
Qed.

Lemma doc_ids_length (df : list ParsedRow) : length (with_doc_id df) = length df.
Proof. unfold with_doc_id. apply length_imap. Qed.

Lemma df_new_ids (existing_ids : list string) (df : list ParsedRow) :
  map (fun x => x.1.2) (df_new_of existing_ids df) `sublist_of` doc_ids df /\
  (forall d, d ∈ map (fun x => x.1.2) (df_new_of existing_ids df) -> d ∉ existing_ids) /\
  length (df_new_of existing_ids df) <= length df.
Proof.
  unfold df_new_of, doc_ids. split; [|split].
  - apply (fmap_sublist (fun x : nat * string * ParsedRow => x.1.2)), sublist_filter.
  - intros d Hd. apply list_elem_of_fmap in Hd as (x & -> & Hx).
    by apply list_elem_of_filter in Hx as [Hx _].
  - rewrite <- doc_ids_length. apply sublist_length, sublist_filter.
Qed.

(** One run: what is added comes from the new rows only. *)
Lemma sync_adds (encode : list string -> list Embedding) (df : list ParsedRow)
    (collection : Collection) :
  exists added,
    (sync encode df collection).2 = collection ++ added /\
    map e_id added `sublist_of`
      map (fun x => x.1.2) (df_new_of (collection_get_ids GET_LIMIT collection) df).
Proof.
  unfold sync. destruct (df_new_of _ df) as [|x rest] eqn:E.
  - exists []. split; [by rewrite app_nil_r | done].
  - eexists. split; [reflexivity|]. apply entries_ids.
Qed.

Lemma sync_length (encode : list string -> list Embedding) (df : list ParsedRow)
    (collection : Collection) :
  length (sync encode df collection).2 <= length collection + length df.
Proof.
  destruct (sync_adds encode df collection) as (added & -> & Hsub).
  rewrite length_app. apply sublist_length in Hsub. rewrite !length_map in Hsub.
  pose proof (df_new_ids (collection_get_ids GET_LIMIT collection) df) as (_ & _ & H).
  lia.
Qed.

Lemma sync_NoDup (encode : list string -> list Embedding) (df : list ParsedRow)
    (collection : Collection) :
  NoDup (map e_id collection) ->
  NoDup (doc_ids df) ->
  (N.of_nat (length collection) <= GET_LIMIT)%N ->
  NoDup (map e_id (sync encode df collection).2).
Proof.
  intros Hc Hdf Hlim.
  destruct (sync_adds encode df collection) as (added & -> & Hsub).
  rewrite existing_ids_all in Hsub by done.
  destruct (df_new_ids (map e_id collection) df) as (Hsub' & Hfresh & _).
  rewrite map_app. apply NoDup_app. split; [done|]. split.
  - intros d Hd Hd'. apply (Hfresh d); [|done]. by eapply elem_of_sublist.
  - eapply sublist_NoDup; [exact Hdf|]. by etrans.
Qed.

Lemma sync_runs_NoDup (encode : list string -> list Embedding)
    (sheets : list (list ParsedRow)) :
  forall collection : Collection,
  NoDup (map e_id collection) ->
  Forall (fun df => NoDup (doc_ids df)) sheets ->
  (N.of_nat (length collection + sum_list (map length sheets)) <= GET_LIMIT)%N ->
  NoDup (map e_id (sync_runs encode sheets collection)).
Proof.
  induction sheets as [|df later IH]; intros collection Hc Hsheets Hlim; [done|].
  inversion Hsheets as [|? ? Hdf Hlater]; subst. cbn [sync_runs].
  simpl in Hlim. pose proof (sync_length encode df collection).
  apply IH; [|done|lia]. apply sync_NoDup; [done..|lia].
Qed.

(** A row whose id the collection already holds is not a new row. *)
Lemma known_id_not_new (df : list ParsedRow) (collection : Collection)
    (x : nat * string * ParsedRow) :
  (N.of_nat (length collection) <= GET_LIMIT)%N ->
  x.1.2 ∈ map e_id collection ->
  x ∉ df_new_of (collection_get_ids GET_LIMIT collection) df.
Proof.
  intros Hlim Hin Hx. rewrite existing_ids_all in Hx by done.
  by apply list_elem_of_filter in Hx as [Hx _].
Qed.

Lemma filter_none {A} (P : A -> Prop) `{forall x, Decision (P x)} (l : list A) :
  (forall x, x ∈ l -> ~ P x) -> filter P l = [].
Proof.
  induction l as [|x l IH]; intros Hl; [done|].
  rewrite filter_cons, decide_False by (apply Hl; by left).
  apply IH. intros y Hy. apply Hl. by right.
Qed.

(** Running the index stage again on the same sheet changes nothing and
    embeds nothing. *)
Lemma sync_again_is_noop (encode : list string -> list Embedding) (df : list ParsedRow)
    (collection : Collection) :
  (forall documents, length (encode documents) = length documents) ->
  (N.of_nat (length collection + length df) <= GET_LIMIT)%N ->
  sync encode df (sync encode df collection).2 = ([], (sync encode df collection).2).
Proof.
  intros Halign Hlim.
  pose proof (sync_length encode df collection) as Hlen.
  set (collection' := (sync encode df collection).2) in *.
  assert (forall x, x ∈ with_doc_id df -> x.1.2 ∈ map e_id collection') as Hall.
  { intros x Hx. subst collection'. unfold sync.
    rewrite existing_ids_all by lia.
    destruct (decide (x.1.2 ∈ map e_id collection)) as [Hin|Hnin].
    - destruct (df_new_of _ df); cbn [snd]; [done|].
      unfold collection_add. rewrite map_app. apply elem_of_app. by left.
    - assert (x ∈ df_new_of (map e_id collection) df) as Hnew
        by (by apply list_elem_of_filter).
      destruct (df_new_of (map e_id collection) df) as [|y rest] eqn:E; [inversion Hnew|].
      cbn [snd]. unfold collection_add. rewrite map_app. apply elem_of_app. right.
      rewrite entries_ids_aligned by (by rewrite ?Halign, !length_map).
      apply list_elem_of_fmap. by exists x. }
  unfold sync at 1. rewrite existing_ids_all by lia.
  unfold df_new_of. rewrite filter_none; [done|].
  intros x Hx Hnin. apply Hnin. by apply Hall.
Qed.

(** C3.  Successive runs of the index synchronisation, starting from a
    collection with one record per id, on sheets whose derived [doc_id]s
    are pairwise distinct within each sheet, the collection staying within
    the limit of [collection.get]: after all the runs the collection still
    has at most one record per id.  In each run the ids read from the
    collection are all its ids; a row whose [doc_id] is among them is not
    in the delta, so it is neither embedded nor added; the embedder is
    called at most once, on the documents of the delta; the collection
    afterwards is the old one followed by records under ids it did not
    hold; and with an empty delta nothing is embedded and nothing added. *)
Theorem index_sync_never_duplicates
    (encode : list string -> list Embedding)
    (df : list ParsedRow) (later : list (list ParsedRow)) (collection : Collection)
    (Hunique : NoDup (map e_id collection))
    (Hsheets : Forall (fun df => NoDup (doc_ids df)) (df :: later))
    (Hlimit : (N.of_nat (length collection + sum_list (map length (df :: later)))
               <= GET_LIMIT)%N) :
  let existing_ids := collection_get_ids GET_LIMIT collection in
  let df_new := df_new_of existing_ids df in
  let documents := map (fun x => mailcontent x.2) df_new in
  NoDup (map e_id (sync_runs encode (df :: later) collection)) /\
  existing_ids = map e_id collection /\
  (forall x, x ∈ with_doc_id df -> x.1.2 ∈ map e_id collection -> x ∉ df_new) /\
  ((sync encode df collection).1 = [] \/
   exists ids metadatas embeddings,
     (sync encode df collection).1
     = [Encode documents; CollectionAdd ids documents metadatas embeddings]) /\
  (exists added,
     (sync encode df collection).2 = collection ++ added /\
     forall e, e ∈ added -> e_id e ∉ map e_id collection) /\
  (df_new = [] -> sync encode df collection = ([], collection)).
Proof.
  intros existing_ids df_new documents.
  assert ((N.of_nat (length collection) <= GET_LIMIT)%N) as Hlim by lia.
  split; [by apply sync_runs_NoDup|].
  split; [by apply existing_ids_all|].
  split; [intros x _ Hx; by apply known_id_not_new|].
  split; [|split].
  - unfold sync. fold existing_ids. fold df_new. fold documents.
    destruct df_new as [|x rest] eqn:E; [by left|]. right. by eexists _, _, _.
  - destruct (sync_adds encode df collection) as (added & Hadd & Hsub).
    exists added. split; [done|]. intros e He.
    destruct (df_new_ids existing_ids df) as (_ & Hfresh & _).
    unfold existing_ids in Hfresh at 2. rewrite existing_ids_all in Hfresh by done.
    apply Hfresh. eapply elem_of_sublist; [|exact Hsub].
    apply list_elem_of_fmap. by exists e.
  - intros Hnone. unfold sync. fold existing_ids. fold df_new. by rewrite Hnone.
Qed.

(** The sample run: link1 is in the collection already; two runs on the
    same sheet add link2 and row_2 once, and link1 is not embedded. *)
Lemma index_sync_never_duplicates_witness :
  NoDup (map e_id Samples.demo_collection) /\
  doc_ids Samples.demo_sheet = ["link1"; "link2"; "row_2"] /\
  NoDup (map e_id (sync_runs Samples.demo_encode
                     [Samples.demo_sheet; Samples.demo_sheet] Samples.demo_collection)) /\
  map e_id (sync_runs Samples.demo_encode
              [Samples.demo_sheet; Samples.demo_sheet] Samples.demo_collection)
  = ["link1"; "link2"; "row_2"] /\
  exists ids metadatas embeddings,
    (sync Samples.demo_encode Samples.demo_sheet Samples.demo_collection).1
    = [Encode ["Interview invitation from Beta."; "No link on this one."];
       CollectionAdd ids ["Interview invitation from Beta."; "No link on this one."]
         metadatas embeddings].
Proof.
  assert (NoDup (map e_id Samples.demo_collection)) as Hunique
    by (repeat constructor; set_solver).
  assert (NoDup ["link1"; "link2"; "row_2"]) as Hnd.
  { repeat constructor; rewrite ?elem_of_cons, ?elem_of_nil; intros H;
      repeat (destruct H as [H|H]; try discriminate H); done. }
  assert (Forall (fun df => NoDup (doc_ids df)) [Samples.demo_sheet; Samples.demo_sheet])
    as Hsheets by (constructor; [exact Hnd|]; constructor; [exact Hnd|]; constructor).
  split; [exact Hunique|]. split; [reflexivity|].
  destruct (index_sync_never_duplicates Samples.demo_encode Samples.demo_sheet
              [Samples.demo_sheet] Samples.demo_collection Hunique Hsheets)
    as (Hall & _ & _ & _ & _ & _).
  { vm_compute. discriminate. }
  split; [exact Hall|]. split; [reflexivity|].
  eexists _, _, _. reflexivity.
Defined.

(** C9.  When retrieval returns no document for a question, [ask]
    returns the fixed "no matching" answer, the only collaborator called
    is the retriever, and no prompt is sent to the LLM; more generally
    [llm_node] on a state without documents sets that answer and performs
    no call. *)
Theorem no_documents_no_generation
    (retriever : string -> list Document) (llm : string -> LLMOutput) (q : string)
    (Hnone : retriever q = []) :
  ending (ask retriever llm q) = Returned NO_MATCH_ANSWER /\
  llm_prompts (events (ask retriever llm q)) = [] /\
  events (ask retriever llm q) = [RetrieverInvoke q] /\
  forall state, retrieved_docs state = [] ->
    llm_node llm state = ([], Returned (set_answer state NO_MATCH_ANSWER)).
Proof.
  assert (forall state, retrieved_docs state = [] ->
            llm_node llm state = ([], Returned (set_answer state NO_MATCH_ANSWER))) as Hnode.
  { intros state Hs. unfold llm_node. by rewrite Hs. }
  unfold ask, retrieve_node. cbn. rewrite Hnone.
  rewrite Hnode by done. cbn. done.
Qed.

Lemma no_documents_no_generation_witness :
  Samples.demo_retriever "Did Acme reply?" = [] /\
  ask Samples.demo_retriever Samples.demo_llm "Did Acme reply?"
  = ([RetrieverInvoke "Did Acme reply?"],
     Returned "I couldn't find any matching job application emails for this question.").
Proof.
  split; [reflexivity|].
  destruct (no_documents_no_generation Samples.demo_retriever Samples.demo_llm
              "Did Acme reply?" eq_refl) as (Hend & _ & Hev & _).
  destruct (ask Samples.demo_retriever Samples.demo_llm "Did Acme reply?") as [t r].
  simpl in Hend, Hev. by rewrite Hend, Hev.
Defined.

End RagFacts.

(* ===================================================================== *)
(** ** The whole chain, run twice *)
(* ===================================================================== *)

Section PipelineFacts.

Lemma fetch_nothing_new (reader : GmailRead.GmailLiveReader) (query : string)
    (seen_ids : gset string) (all_ids : list string) :
  GmailRead.list_ids reader query = Some all_ids ->
  Forall (fun mid => mid ∈ seen_ids) all_ids ->
  GmailRead.fetch_new_as_dataframe reader query seen_ids = (Returned [], seen_ids).
Proof.
  intros Hlist Hseen. unfold GmailRead.fetch_new_as_dataframe. rewrite Hlist.
  rewrite filter_none; [done|].
  intros mid Hmid Hnew. rewrite Forall_forall in Hseen. by apply Hnew, Hseen.
Qed.

(** C6.  A second run with no new upstream item.  The fetch finds every
    listed id among the seen ones; the export is unchanged, it has an
    ["id"] column whose values are pairwise distinct and no label column
    of its own, and the first classification run saved [out]; the parsed
    sheet handed to the index stage is unchanged, the embedder answers
    with one vector per document and the collection stays within the
    limit of [collection.get].  Then the fetch returns no row and leaves
    the seen ids alone; the second classification run saves [out] again,
    leaves the classified file as it was and calls no model; and the second
    index run embeds nothing, adds nothing and leaves the collection as
    the first run left it. *)
Theorem second_run_changes_nothing
    (reader : GmailRead.GmailLiveReader) (query : string)
    (seen_ids : gset string) (all_ids : list string)
    (self : Predict.EmailJobClassifier) (disk : Predict.Disk)
    (df_src : Predict.SrcTable) (out : Predict.Table)
    (encode : list string -> list Rag.Embedding)
    (df : list Rag.ParsedRow) (collection : Rag.Collection)
    (Hlisted : GmailRead.list_ids reader query = Some all_ids)
    (Hno_new : Forall (fun mid => mid ∈ seen_ids) all_ids)
    (Hsrc : Predict.excel_file disk = Predict.Readable df_src)
    (Hid : Predict.src_has_id df_src = true)
    (Hkeys : NoDup (map Predict.s_id (Predict.src_rows df_src)))
    (Hraw : Predict.unlabelled df_src)
    (Hfirst : Predict.saved (events (Predict.classify self disk)) = Some out)
    (Haligned : forall documents, length (encode documents) = length documents)
    (Hlimit : (N.of_nat (length collection + length df) <= Rag.GET_LIMIT)%N) :
  let disk' := Predict.disk_after disk (events (Predict.classify self disk)) in
  let collection' := (Rag.sync encode df collection).2 in
  GmailRead.fetch_new_as_dataframe reader query seen_ids = (Returned [], seen_ids) /\
  (ending (Predict.classify self disk') = Returned out /\
   Predict.saved (events (Predict.classify self disk')) = Some out /\
   Predict.model_calls (events (Predict.classify self disk')) = [] /\
   Predict.disk_after disk' (events (Predict.classify self disk')) = disk') /\
  Rag.sync encode df collection' = ([], collection').
Proof.
  intros disk' collection'.
  split; [by eapply fetch_nothing_new|]. split; [|by apply sync_again_is_noop].
  destruct (classify_again_is_noop self disk df_src out Hsrc Hid Hkeys Hraw Hfirst)
    as (Hend & Hsaved & Hcalls).
  fold disk' in Hend, Hsaved, Hcalls.
  split; [exact Hend|]. split; [exact Hsaved|]. split; [exact Hcalls|].
  unfold Predict.disk_after at 1. rewrite Hsaved.
  unfold disk', Predict.disk_after. by rewrite Hfirst.
Qed.

(** The sample chain: all three stages on their second run. *)
Lemma second_run_changes_nothing_witness :
  Predict.saved (events (Predict.classify Samples.demo_self Samples.demo_disk))
  = Some Samples.demo_out /\
  Predict.model_calls (events (Predict.classify Samples.demo_self Samples.demo_disk))
  = [[(1, "Lunch? noon")]; [(1, "Lunch? noon")]] /\
  GmailRead.fetch_new_as_dataframe Samples.demo_reader "after:2025/12/05"
    {["m1"; "m2"; "m3"]}
  = (Returned [], {["m1"; "m2"; "m3"]}) /\
  Predict.model_calls
    (events (Predict.classify Samples.demo_self
               (Predict.disk_after Samples.demo_disk
                  (events (Predict.classify Samples.demo_self Samples.demo_disk)))))
  = [] /\
  Rag.sync Samples.demo_encode Samples.demo_sheet
    (Rag.sync Samples.demo_encode Samples.demo_sheet Samples.demo_collection).2
  = ([], (Rag.sync Samples.demo_encode Samples.demo_sheet Samples.demo_collection).2).
Proof.
  assert (Predict.saved (events (Predict.classify Samples.demo_self Samples.demo_disk))
          = Some Samples.demo_out) as Hfirst by reflexivity.
  assert (NoDup (map Predict.s_id (Predict.src_rows Samples.demo_src))) as Hkeys.
  { repeat constructor; rewrite ?elem_of_cons, ?elem_of_nil; intros H;
      repeat (destruct H as [H|H]; try discriminate H); done. }
  assert (Predict.unlabelled Samples.demo_src) as Hraw by (repeat constructor).
  assert (forall documents : list string,
            length (Samples.demo_encode documents) = length documents) as Haligned
    by (intros documents; apply length_map).
  assert (Forall (fun mid : string => mid ∈ ({["m1"; "m2"; "m3"]} : gset string))
            ["m1"; "m2"; "m3"]) as Hno_new
    by (repeat constructor; set_solver).
  split; [exact Hfirst|]. split; [reflexivity|].
  destruct (second_run_changes_nothing Samples.demo_reader "after:2025/12/05"
              {["m1"; "m2"; "m3"]} ["m1"; "m2"; "m3"]
              Samples.demo_self Samples.demo_disk Samples.demo_src Samples.demo_out
              Samples.demo_encode Samples.demo_sheet Samples.demo_collection
              eq_refl Hno_new eq_refl eq_refl Hkeys Hraw Hfirst Haligned)
    as (Hfetch & (_ & _ & Hcalls & _) & Hsync).
  { vm_compute. discriminate. }
  split; [exact Hfetch|]. split; [exact Hcalls | exact Hsync].
Defined.

End PipelineFacts.

(* ===================================================================== *)
(** ** More on the text helpers                                           *)
(* ===================================================================== *)

Section TextMore.
Import Text.

Lemma app_nil_r_s (s : string) : s +:+ "" = s.
Proof.
  induction s as [|c s IH]; [done|]. by rewrite app_cons_s, IH.
Qed.

Lemma str_in_refl (s : string) : str_in s s = true.
Proof. apply str_in_spec. exists "", "". by rewrite app_nil_s, app_nil_r_s. Qed.

Lemma str_in_join (sep : string) (parts : list string) (p kw : string) :
  p ∈ parts -> str_in kw p = true -> str_in kw (join sep parts) = true.
Proof.
  intros Hin Hkw. induction parts as [|q parts IH]; [inversion Hin|].
  apply elem_of_cons in Hin as [<-|Hin].
  - destruct parts as [|q' parts]; [done|]. cbn [join]. by apply str_in_app_l.
  - destruct parts as [|q' parts]; [inversion Hin|].
    change (join sep (q :: q' :: parts)) with (q +:+ sep +:+ join sep (q' :: parts)).
    apply str_in_app_r, str_in_app_r. by apply IH.
Qed.


(** What [rstrip] keeps is copied from the front of its argument. *)
Lemma rstrip_copy (s : string) (c : ascii) (r : string) :
  rstrip s = String c r -> exists s', s = String c s' /\ r = rstrip s'.
Proof.
  intros H. destruct s as [|c0 s']; [discriminate|]. cbn [rstrip] in H.
  destruct (rstrip s') as [|c1 r1] eqn:E.
  - destruct (is_space c0); [discriminate|]. injection H as <- <-. by exists s'.
  - injection H as <- <-. by exists s'.
Qed.

Lemma starts_blank_lstrip (s : string) : starts_blank (lstrip s) = false.
Proof.
  induction s as [|c s IH]; [done|]. cbn [lstrip].
  destruct (is_space c) eqn:Hc; [done|]. by simpl.
Qed.

Lemma starts_blank_rstrip (s : string) :
  starts_blank s = false -> starts_blank (rstrip s) = false.
Proof.
  intros H. destruct (rstrip s) as [|c r] eqn:E; [done|].
  destruct (rstrip_copy _ _ _ E) as (s' & -> & _). exact H.
Qed.

Lemma ends_blank_rstrip (s : string) : ends_blank (rstrip s) = false.
Proof.
  induction s as [|c s IH]; [done|]. cbn [rstrip].
  destruct (rstrip s) as [|c1 r1] eqn:E.
  - destruct (is_space c) eqn:Hc; [done|]. by simpl.
  - exact IH.
Qed.

Lemma starts_blank_strip (s : string) : starts_blank (strip s) = false.
Proof. apply starts_blank_rstrip, starts_blank_lstrip. Qed.

Lemma ends_blank_strip (s : string) : ends_blank (strip s) = false.
Proof. apply ends_blank_rstrip. Qed.

Lemma any_in_incl (kws kws' : list string) (t : string) :
  (forall kw, In kw kws -> In kw kws') ->
  any_in kws t = true -> any_in kws' t = true.
Proof.
  intros Hincl. rewrite !any_in_exists. intros (kw & Hin & H). exists kw. auto.
Qed.

End TextMore.

(* ===================================================================== *)
(** ** Fetch stage: failures, repeated calls, what is never asked for     *)
(* ===================================================================== *)

Section FetchMore.
Import GmailRead.

Lemma fetch_rows_raised self (pre : list string) (mid : string) (post : list string) :
  forall rows seen,
  Forall (fun m => is_Some (messages_get (service self) m)) pre ->
  messages_get (service self) mid = None ->
  fetch_rows self (pre ++ mid :: post) rows seen = (Raised, list_to_set pre ∪ seen).
Proof.
  induction pre as [|m pre IH]; intros rows seen Hpre Hmid; simpl.
  - unfold get_details. rewrite Hmid. f_equal. set_solver.
  - inversion Hpre as [|? ? [p Hp] Hrest]; subst. unfold get_details at 1. rewrite Hp.
    rewrite IH by done. f_equal. set_solver.
Qed.

Lemma fetch_rows_ext self1 self2 (new_ids : list string) :
  gmail_account_index self1 = gmail_account_index self2 ->
  (forall m, m ∈ new_ids -> messages_get (service self1) m = messages_get (service self2) m) ->
  forall rows seen, fetch_rows self1 new_ids rows seen = fetch_rows self2 new_ids rows seen.
Proof.
  intros Hidx. induction new_ids as [|m rest IH]; intros Hget rows seen; [done|].
  simpl. unfold get_details, gmail_web_base. rewrite Hidx, (Hget m) by (by left).
  destruct (messages_get (service self2) m); [|done].
  apply IH. intros m' Hm'. apply Hget. by right.
Qed.

(** A fetch whose detail calls all succeed returns the rows of the new
    ids, in order. *)
Lemma fetch_new_returns (reader : GmailRead.GmailLiveReader) (query : string)
    (seen_ids : gset string) (all_ids : list string) :
  GmailRead.list_ids reader query = Some all_ids ->
  Forall (fun m => is_Some (GmailRead.messages_get (GmailRead.service reader) m))
    (filter (fun m => m ∉ seen_ids) all_ids) ->
  exists rows seen',
    GmailRead.fetch_new_as_dataframe reader query seen_ids = (Returned rows, seen') /\
    map GmailRead.id rows = filter (fun m => m ∉ seen_ids) all_ids.
Proof.
  intros Hlist Hall. unfold GmailRead.fetch_new_as_dataframe. rewrite Hlist.
  destruct (filter _ all_ids) as [|x rest] eqn:E; [by exists [], seen_ids|].
  destruct (fetch_rows_total reader (x :: rest) [] seen_ids Hall) as (rows & seen' & Hrun).
  exists rows, seen'. split; [done|].
  by apply fetch_rows_returned in Hrun as (Hids & _ & _).
Qed.

(** X1.  When the detail fetch of one new id raises in the middle of
    [fetch_new_as_dataframe], the exception propagates and no row is
    returned, but the caller's [seen_ids] has already grown by the new ids
    that came before the failing one.  A later call with that set, on the
    same listing, never returns a row for any of those ids: their rows are
    lost to the caller. *)
Theorem failed_detail_fetch_marks_earlier_ids_seen
    (self : GmailLiveReader) (query : string) (seen_ids : gset string)
    (all_ids pre post : list string) (mid : string)
    (Hlist : list_ids self query = Some all_ids)
    (Hnew : filter (fun m => m ∉ seen_ids) all_ids = pre ++ mid :: post)
    (Hpre : Forall (fun m => is_Some (messages_get (service self) m)) pre)
    (Hmid : messages_get (service self) mid = None) :
  fetch_new_as_dataframe self query seen_ids = (Raised, list_to_set pre ∪ seen_ids) /\
  forall (self' : GmailLiveReader) rows seen',
    list_ids self' query = Some all_ids ->
    fetch_new_as_dataframe self' query (list_to_set pre ∪ seen_ids) = (Returned rows, seen') ->
    forall m, m ∈ pre -> m ∉ map id rows.
Proof.
  split.
  - unfold fetch_new_as_dataframe. rewrite Hlist, Hnew.
    destruct (pre ++ mid :: post) as [|x rest] eqn:E; [by destruct pre|].
    rewrite <- E. by apply fetch_rows_raised.
  - intros self' rows seen' Hlist' Hret m Hm Hin.
    unfold fetch_new_as_dataframe in Hret. rewrite Hlist' in Hret.
    set (new' := filter (fun m => m ∉ list_to_set pre ∪ seen_ids) all_ids) in *.
    assert (map id rows = new') as Hids.
    { destruct new' as [|x rest] eqn:E.
      - by inversion Hret.
      - by apply fetch_rows_returned in Hret as (Hids & _ & _). }
    rewrite Hids in Hin. apply list_elem_of_filter in Hin as [Hnot _].
    apply Hnot. set_solver.
Qed.

(** The sample mailbox with m2 unreadable: the call raises after m1 has
    been marked as seen. *)
Lemma failed_detail_fetch_marks_earlier_ids_seen_witness :
  messages_get (service Samples.demo_flaky_reader) "m2" = None /\
  fetch_new_as_dataframe Samples.demo_flaky_reader "after:2025/12/05" ∅
  = (Raised, list_to_set ["m1"] ∪ ∅).
Proof.
  split; [reflexivity|].
  assert (Forall (fun m => is_Some (messages_get (service Samples.demo_flaky_reader) m))
            ["m1"]) as Hpre by (repeat constructor; by eexists).
  destruct (failed_detail_fetch_marks_earlier_ids_seen Samples.demo_flaky_reader
              "after:2025/12/05" ∅ ["m1"; "m2"; "m3"] ["m1"] ["m3"] "m2"
              eq_refl (filter_none_seen ∅ _ eq_refl) Hpre eq_refl) as [Hraised _].
  exact Hraised.
Defined.

(** X2.  After a call of [fetch_new_as_dataframe] that returned, every
    listed id is in the [seen_ids] it hands back, nothing has left that
    set, and a second call on the same listing returns the empty table and
    leaves the set alone (it fetches no details). *)
Theorem fetch_again_returns_nothing
    (self : GmailLiveReader) (query : string) (seen_ids seen' : gset string)
    (all_ids : list string) (rows : list Details)
    (Hlist : list_ids self query = Some all_ids)
    (Hfirst : fetch_new_as_dataframe self query seen_ids = (Returned rows, seen')) :
  (forall m, m ∈ all_ids -> m ∈ seen') /\
  seen_ids ⊆ seen' /\
  fetch_new_as_dataframe self query seen' = (Returned [], seen').
Proof.
  assert (seen' = list_to_set (filter (fun m => m ∉ seen_ids) all_ids) ∪ seen_ids) as Hseen.
  { unfold fetch_new_as_dataframe in Hfirst. rewrite Hlist in Hfirst.
    destruct (filter _ all_ids) as [|x rest] eqn:E.
    - inversion Hfirst; subst. set_solver.
    - by apply fetch_rows_returned in Hfirst as (_ & Hseen & _). }
  assert (forall m, m ∈ all_ids -> m ∈ seen') as Hall.
  { intros m Hm. rewrite Hseen. destruct (decide (m ∈ seen_ids)); [set_solver|].
    apply elem_of_union_l, elem_of_list_to_set, list_elem_of_filter. by split. }
  split; [done|]. split; [set_solver|].
  apply (fetch_nothing_new self query seen' all_ids Hlist).
  by apply Forall_forall.
Qed.

(** The sample mailbox: a first call that knows m2, then a second one. *)
Lemma fetch_again_returns_nothing_witness :
  exists rows seen',
    fetch_new_as_dataframe Samples.demo_reader "after:2025/12/05" {["m2"]}
    = (Returned rows, seen') /\
    map id rows = ["m1"; "m3"] /\
    fetch_new_as_dataframe Samples.demo_reader "after:2025/12/05" seen'
    = (Returned [], seen').
Proof.
  destruct (fetch_new_returns Samples.demo_reader "after:2025/12/05" {["m2"]}
              ["m1"; "m2"; "m3"] eq_refl) as (rows & seen' & Hfirst & Hids).
  { repeat constructor; by eexists. }
  exists rows, seen'. split; [exact Hfirst|]. split; [exact Hids|].
  destruct (fetch_again_returns_nothing Samples.demo_reader "after:2025/12/05"
              {["m2"]} seen' ["m1"; "m2"; "m3"] rows eq_refl Hfirst) as (_ & _ & Hagain).
  exact Hagain.
Defined.

(** X3.  [fetch_new_as_dataframe] never looks at the details of an id
    that is in [seen_ids]: two readers with the same listing and the same
    account index, whose detail fetches agree on every id outside
    [seen_ids], give the same result, rows and new set alike. *)
Theorem fetch_ignores_details_of_seen_ids
    (self1 self2 : GmailLiveReader) (query : string) (seen_ids : gset string)
    (Hindex : gmail_account_index self1 = gmail_account_index self2)
    (Hlist : list_ids self1 query = list_ids self2 query)
    (Hget : forall m, m ∉ seen_ids ->
              messages_get (service self1) m = messages_get (service self2) m) :
  fetch_new_as_dataframe self1 query seen_ids
  = fetch_new_as_dataframe self2 query seen_ids.
Proof.
  unfold fetch_new_as_dataframe. rewrite Hlist.
  destruct (list_ids self2 query) as [all_ids|]; [|done].
  destruct (filter _ all_ids) as [|x rest] eqn:E; [done|].
  apply fetch_rows_ext; [done|]. intros m Hm. apply Hget.
  rewrite <- E in Hm. by apply list_elem_of_filter in Hm as [Hm _].
Qed.

(** With m2 among the seen ids, the mailbox where m2 cannot be fetched
    behaves as the sound one. *)
Lemma fetch_ignores_details_of_seen_ids_witness :
  messages_get (service Samples.demo_flaky_reader) "m2" = None /\
  fetch_new_as_dataframe Samples.demo_reader "after:2025/12/05" {["m2"]}
  = fetch_new_as_dataframe Samples.demo_flaky_reader "after:2025/12/05" {["m2"]}.
Proof.
  split; [reflexivity|].
  apply (fetch_ignores_details_of_seen_ids Samples.demo_reader Samples.demo_flaky_reader
           "after:2025/12/05" {["m2"]} eq_refl eq_refl).
  intros m Hm. simpl. destruct (String.eqb_spec m "m2") as [->|Hne]; [|reflexivity].
  exfalso. apply Hm. set_solver.
Defined.

End FetchMore.

(* ===================================================================== *)
(** ** One fetch cycle of the application                                  *)
(* ===================================================================== *)

Section AppFacts.
Import App.

Lemma of_details_ids (df_new : list GmailRead.Details) :
  map (fun r => cell_str (m_id r)) (map of_details df_new) = map GmailRead.id df_new.
Proof. rewrite map_map. by apply map_ext. Qed.

Local Opaque pretty String.append.

(** X4.  One cycle of [fetch_new_emails_once] (the steps the live loop
    of gmail_read.py repeats) on an export that is absent, or readable with an
    "id" column whose values are pairwise distinct, against a listing
    without repeated ids whose new messages can all be fetched: the cycle
    returns; the sheet it returns is the old one followed by one row per
    listed id that the old sheet did not hold, in listing order; its ids
    are still pairwise distinct; and the file is written exactly when
    there is at least one such id. *)
Theorem fetch_cycle_appends_new_ids_only
    (reader : GmailRead.GmailLiveReader) (QUERY OUTPUT_EXCEL : string)
    (output_excel : Predict.file MasterTable) (master_df : MasterTable)
    (all_ids : list string)
    (Hfile : output_excel = Predict.Readable master_df \/
             (output_excel = Predict.Missing /\
              master_df = {| master_has_id := true; master_rows := [] |}))
    (Hcol : master_has_id master_df = true)
    (Hmaster : NoDup (map (fun r => cell_str (m_id r)) (master_rows master_df)))
    (Hlist : GmailRead.list_ids reader QUERY = Some all_ids)
    (Hlisting : NoDup all_ids)
    (Hdetails : Forall (fun m => is_Some (GmailRead.messages_get (GmailRead.service reader) m))
                  (filter (fun m => m ∉ seen_ids_of master_df) all_ids)) :
  let run := fetch_new_emails_once reader QUERY OUTPUT_EXCEL output_excel in
  let new_ids := filter (fun m => m ∉ seen_ids_of master_df) all_ids in
  exists out added,
    ending run = Returned out /\
    master_has_id out = true /\
    master_rows out = master_rows master_df ++ added /\
    map (fun r => cell_str (m_id r)) added = new_ids /\
    NoDup (map (fun r => cell_str (m_id r)) (master_rows out)) /\
    written (events run) = (if bool_decide (new_ids = []) then None else Some out).
Proof.
  intros run new_ids.
  destruct (fetch_new_returns reader QUERY (seen_ids_of master_df) all_ids Hlist Hdetails)
    as (rows & seen' & Hrun & Hids). fold new_ids in Hids.
  assert (NoDup (map (fun r => cell_str (m_id r))
                   (master_rows master_df ++ map of_details rows))) as Hnd.
  { rewrite map_app, of_details_ids, Hids. apply NoDup_app. split; [done|]. split.
    - intros x Hx Hx'. apply list_elem_of_filter in Hx' as [Hnot _]. apply Hnot.
      unfold seen_ids_of. rewrite Hcol. by apply elem_of_list_to_set.
    - by apply NoDup_filter. }
  assert (map (fun r => if master_has_id master_df then r
                        else {| m_id := None; m_cells := m_cells r |})
              (master_rows master_df) = master_rows master_df) as Hkeep.
  { rewrite Hcol. apply map_id. }
  set (run' := fetch_new_emails_once reader QUERY OUTPUT_EXCEL (Predict.Readable master_df)).
  assert (run = run' \/
          exists t, run = (StWrite "Starting one-time Gmail fetch using GmailLiveReader..."
                            :: StWrite ("No existing Excel found. Will create "
                                        +:+ OUTPUT_EXCEL) :: t,
                           ending run')
                    /\ written (events run) = written (events run')) as Hsame.
  { destruct Hfile as [->|[-> ->]]; [by left|]. right. subst run run'.
    unfold fetch_new_emails_once. cbn.
    destruct (GmailRead.fetch_new_as_dataframe _ _ _).1 as [[|d rows']| |]; cbn; eauto. }
  assert (exists out added,
            ending run' = Returned out /\
            master_has_id out = true /\
            master_rows out = master_rows master_df ++ added /\
            map (fun r => cell_str (m_id r)) added = new_ids /\
            NoDup (map (fun r => cell_str (m_id r)) (master_rows out)) /\
            written (events run')
            = (if bool_decide (new_ids = []) then None else Some out)) as Hgoal.
  { subst run'. unfold fetch_new_emails_once. cbn. rewrite Hrun. cbn.
    destruct rows as [|d rows'].
    - exists master_df, []. cbn. rewrite <- Hids. cbn.
      rewrite app_nil_r in *. by repeat split.
    - exists (concat master_df (d :: rows')), (map of_details (d :: rows')). cbn.
      rewrite <- Hids. unfold concat. cbn [master_rows master_has_id]. rewrite Hkeep.
      split; [done|]. split; [done|]. split; [done|].
      split; [by rewrite of_details_ids|]. split; [exact Hnd|]. done. }
  destruct Hgoal as (out & added & He & H1 & H2 & H3 & H4 & H5).
  exists out, added.
  destruct Hsame as [->|(t & -> & Hw)]; [done|]. rewrite Hw. by repeat split.
Qed.

Local Transparent pretty String.append.

(** The sample mailbox against an export that holds m2: m1 and m3 are
    appended. *)
Lemma fetch_cycle_appends_new_ids_only_witness :
  seen_ids_of Samples.demo_master = list_to_set ["m2"] /\
  exists out added,
    ending (fetch_new_emails_once Samples.demo_reader "after:2025/12/05"
              "Data/gmail_subject_body_date.xlsx"
              (Predict.Readable Samples.demo_master)) = Returned out /\
    master_rows out = master_rows Samples.demo_master ++ added /\
    map (fun r => cell_str (m_id r)) added = ["m1"; "m3"].
Proof.
  split; [reflexivity|].
  assert (NoDup (map (fun r => cell_str (m_id r)) (master_rows Samples.demo_master)))
    as Hmaster by (repeat constructor; set_solver).
  assert (NoDup ["m1"; "m2"; "m3"]) as Hlisting.
  { repeat constructor; rewrite ?elem_of_cons, ?elem_of_nil; intros H;
      repeat (destruct H as [H|H]; try discriminate H); done. }
  assert (Forall (fun m => is_Some (GmailRead.messages_get
                                      (GmailRead.service Samples.demo_reader) m))
            (filter (fun m => m ∉ seen_ids_of Samples.demo_master) ["m1"; "m2"; "m3"]))
    as Hdetails by (apply Forall_forall; intros m _; by eexists).
  destruct (fetch_cycle_appends_new_ids_only Samples.demo_reader "after:2025/12/05"
              "Data/gmail_subject_body_date.xlsx"
              (Predict.Readable Samples.demo_master) Samples.demo_master
              ["m1"; "m2"; "m3"] (or_introl eq_refl) eq_refl Hmaster eq_refl
              Hlisting Hdetails) as (out & added & Hend & _ & Hrows & Hids & _).
  exists out, added. split; [exact Hend|]. split; [exact Hrows | exact Hids].
Defined.

Local Opaque pretty String.append.

(** Whatever happens in a cycle (the listing or a detail fetch may
    raise), the export is either left as it was or replaced by a sound
    sheet that extends it. *)
Lemma fetch_cycle_step (reader : GmailRead.GmailLiveReader) (QUERY OUTPUT_EXCEL : string)
    (master_df : MasterTable) :
  sound_sheet master_df ->
  (forall all_ids, GmailRead.list_ids reader QUERY = Some all_ids -> NoDup all_ids) ->
  let run := fetch_new_emails_once reader QUERY OUTPUT_EXCEL (Predict.Readable master_df) in
  written (events run) = None \/
  exists out added,
    written (events run) = Some out /\ sound_sheet out /\
    master_rows out = master_rows master_df ++ added.
Proof.
  intros [Hcol Hmaster] Hlisting run. subst run.
  unfold fetch_new_emails_once. cbn.
  unfold GmailRead.fetch_new_as_dataframe.
  destruct (GmailRead.list_ids reader QUERY) as [all_ids|] eqn:Hlist; [|by left].
  specialize (Hlisting all_ids eq_refl).
  set (new_ids := filter (fun mid => mid ∉ seen_ids_of master_df) all_ids).
  assert (forall rows seen',
            GmailRead.fetch_rows reader new_ids [] (seen_ids_of master_df)
            = (Returned rows, seen') ->
            sound_sheet (concat master_df rows) /\
            master_rows (concat master_df rows) = master_rows master_df ++ map of_details rows)
    as Hsound.
  { intros rows seen' Hrun. apply fetch_rows_returned in Hrun as (Hids & _ & _).
    simpl in Hids. unfold concat, sound_sheet. cbn [master_rows master_has_id].
    rewrite Hcol, map_id. split; [|done]. split; [done|].
    rewrite map_app, of_details_ids, Hids. apply NoDup_app. split; [done|]. split.
    - intros x Hx Hx'. apply list_elem_of_filter in Hx' as [Hnot _]. apply Hnot.
      unfold seen_ids_of. rewrite Hcol. by apply elem_of_list_to_set.
    - by apply NoDup_filter. }
  destruct new_ids as [|mid rest] eqn:E; [by left|]. rewrite <- E in *.
  destruct (GmailRead.fetch_rows reader new_ids [] (seen_ids_of master_df))
    as [[[|d rows]| |] seen'] eqn:Hrun; cbn; try by left.
  right. destruct (Hsound _ _ eq_refl) as [Hs Hrows]. by eexists _, _.
Qed.

Lemma fetch_cycle_from_nothing (reader : GmailRead.GmailLiveReader)
    (QUERY OUTPUT_EXCEL : string) :
  written (events (fetch_new_emails_once reader QUERY OUTPUT_EXCEL Predict.Missing))
  = written (events (fetch_new_emails_once reader QUERY OUTPUT_EXCEL
                       (Predict.Readable {| master_has_id := true; master_rows := [] |}))).
Proof.
  unfold fetch_new_emails_once. cbn.
  by destruct (GmailRead.fetch_new_as_dataframe _ _ _).1 as [[|d rows']| |].
Qed.

Local Transparent pretty String.append.

Lemma cycles_sound (readers : list GmailRead.GmailLiveReader) (QUERY OUTPUT_EXCEL : string) :
  Forall (fun reader => forall all_ids,
            GmailRead.list_ids reader QUERY = Some all_ids -> NoDup all_ids) readers ->
  forall master_df, sound_sheet master_df ->
  exists out added,
    cycles readers QUERY OUTPUT_EXCEL (Predict.Readable master_df) = Predict.Readable out /\
    sound_sheet out /\
    master_rows out = master_rows master_df ++ added.
Proof.
  induction 1 as [|reader later Hreader _ IH]; intros master_df Hsound.
  - exists master_df, []. by rewrite app_nil_r.
  - cbn [cycles]. unfold file_after.
    destruct (fetch_cycle_step reader QUERY OUTPUT_EXCEL master_df Hsound Hreader)
      as [->|(out & added & -> & Hout & Hrows)].
    + by apply IH.
    + destruct (IH out Hout) as (out' & added' & Hrun & Hout' & Hrows').
      exists out', (added ++ added'). split; [done|]. split; [done|].
      by rewrite Hrows', Hrows, app_assoc.
Qed.

(** X28.  However many fetch cycles run one after the other, each
    against a listing without repeated ids, and whether or not some of
    them fail on the listing or on a detail fetch: an export that had an
    "id" column with pairwise distinct values still has one, its old rows
    are still there in front, in order, and it never holds an id twice.
    Started without an export, the cycles leave no file or such a
    sheet. *)
Theorem fetch_cycles_keep_ids_distinct
    (readers : list GmailRead.GmailLiveReader) (QUERY OUTPUT_EXCEL : string)
    (master_df : MasterTable)
    (Hsound : sound_sheet master_df)
    (Hlistings : Forall (fun reader => forall all_ids,
                           GmailRead.list_ids reader QUERY = Some all_ids -> NoDup all_ids)
                   readers) :
  (exists out added,
     cycles readers QUERY OUTPUT_EXCEL (Predict.Readable master_df) = Predict.Readable out /\
     sound_sheet out /\
     master_rows out = master_rows master_df ++ added) /\
  (cycles readers QUERY OUTPUT_EXCEL Predict.Missing = Predict.Missing \/
   exists out,
     cycles readers QUERY OUTPUT_EXCEL Predict.Missing = Predict.Readable out /\
     sound_sheet out).
Proof.
  split; [by apply cycles_sound|]. clear master_df Hsound.
  induction Hlistings as [|reader later Hreader Hlater IH]; [by left|].
  cbn [cycles]. unfold file_after. rewrite fetch_cycle_from_nothing.
  destruct (fetch_cycle_step reader QUERY OUTPUT_EXCEL
              {| master_has_id := true; master_rows := [] |})
    as [->|(out & added & -> & Hout & _)]; [by split; [|constructor] | done | exact IH |].
  right. destruct (cycles_sound later QUERY OUTPUT_EXCEL Hlater out Hout)
    as (out' & _ & Hrun & Hout' & _). by exists out'.
Qed.

(** Two cycles on an empty export: the first fails on the details of m2
    and writes nothing, the second appends the three messages. *)
Lemma fetch_cycles_keep_ids_distinct_witness :
  written (events (fetch_new_emails_once Samples.demo_flaky_reader "after:2025/12/05"
                     "Data/gmail_subject_body_date.xlsx"
                     (Predict.Readable {| master_has_id := true; master_rows := [] |})))
  = None /\
  exists out,
    cycles [Samples.demo_flaky_reader; Samples.demo_reader]
      "after:2025/12/05" "Data/gmail_subject_body_date.xlsx"
      (Predict.Readable {| master_has_id := true; master_rows := [] |})
    = Predict.Readable out /\
    sound_sheet out /\
    map (fun r => cell_str (m_id r)) (master_rows out) = ["m1"; "m2"; "m3"].
Proof.
  split; [reflexivity|].
  assert (sound_sheet {| master_has_id := true; master_rows := [] |}) as Hsound
    by (split; [reflexivity | constructor]).
  assert (NoDup ["m1"; "m2"; "m3"]) as Hnd.
  { repeat constructor; rewrite ?elem_of_cons, ?elem_of_nil; intros H;
      repeat (destruct H as [H|H]; try discriminate H); done. }
  destruct (fetch_cycles_keep_ids_distinct
              [Samples.demo_flaky_reader; Samples.demo_reader]
              "after:2025/12/05" "Data/gmail_subject_body_date.xlsx"
              {| master_has_id := true; master_rows := [] |} Hsound)
    as [(out & added & Hrun & Hout & _) _].
  { repeat constructor; intros all_ids [= <-]; exact Hnd. }
  exists out. split; [exact Hrun|]. split; [exact Hout|].
  assert (Predict.Readable out
          = cycles [Samples.demo_flaky_reader; Samples.demo_reader]
              "after:2025/12/05" "Data/gmail_subject_body_date.xlsx"
              (Predict.Readable {| master_has_id := true; master_rows := [] |})) as Heq
    by (by rewrite Hrun).
  vm_compute in Heq. injection Heq as ->. reflexivity.
Defined.

End AppFacts.

(* ===================================================================== *)
(** ** Classification stage: fatal inputs, the model, positions           *)
(* ===================================================================== *)

Section PredictMore.
Import Predict.

Lemma loc_assign_misaligned {A} (set : Row -> A -> Row) (mask : list bool)
    (df : list Row) (values : list A) :
  length mask = length df -> length values <> mask_sum mask ->
  loc_assign set mask df values = None.
Proof.
  intros Hlen Hne. destruct (loc_assign set mask df values) as [out|] eqn:E; [|done].
  destruct (loc_assign_Some _ _ _ _ _ Hlen E) as (_ & Hv & _). contradiction.
Qed.

(** The [j]-th selected row receives the [j]-th value. *)
Lemma loc_assign_positional {A} (set : Row -> A -> Row) (mask : list bool) :
  forall (i : nat) (df : list Row) (values : list A) (out : list Row),
  length mask = length df ->
  loc_assign set mask df values = Some out ->
  forall j k txt, loc_text i mask df !! j = Some (k, txt) ->
    exists r v, i <= k /\ df !! (k - i) = Some r /\ values !! j = Some v /\
                out !! (k - i) = Some (set r v).
Proof.
  induction mask as [|m mask IH]; intros i df values out Hlen H j k txt Hj.
  - by destruct df.
  - destruct df as [|r0 df]; [discriminate|]. injection Hlen as Hlen.
    simpl in H, Hj. destruct m.
    + destruct values as [|v values]; [discriminate|].
      destruct (loc_assign set mask df values) as [t|] eqn:E; [|discriminate].
      injection H as <-. destruct j as [|j]; simpl in Hj.
      * injection Hj as <- <-. exists r0, v. rewrite Nat.sub_diag. by repeat split.
      * destruct (IH (S i) _ _ _ Hlen E _ _ _ Hj) as (r & v' & Hle & Hr & Hv & Ho).
        exists r, v'. replace (k - i) with (S (k - S i)) by lia.
        repeat split; [lia|done..].
    + destruct (loc_assign set mask df values) as [t|] eqn:E; [|discriminate].
      injection H as <-.
      destruct (IH (S i) _ _ _ Hlen E _ _ _ Hj) as (r & v' & Hle & Hr & Hv & Ho).
      exists r, v'. replace (k - i) with (S (k - S i)) by lia.
      repeat split; [lia|done..].
Qed.

Lemma loc_text_same_mask (mask : list bool) : forall (i : nat) (df df' : list Row),
  length df = length df' ->
  (forall k r r', df !! k = Some r -> df' !! k = Some r' -> text r = text r') ->
  loc_text i mask df = loc_text i mask df'.
Proof.
  induction mask as [|m mask IH]; intros i df df' Hlen Htext; [done|].
  destruct df as [|r df], df' as [|r' df']; try discriminate; [done|].
  injection Hlen as Hlen. simpl.
  rewrite (IH (S i) df df' Hlen) by (intros k; apply (Htext (S k))).
  by rewrite (Htext 0 r r' eq_refl eq_refl).
Qed.

(** Without an "id" column in the export the previous table is not
    merged in. *)
Lemma merged_without_id (df_src : SrcTable) (df_old : option OldTable) :
  src_has_id df_src = false -> merged df_src df_old = merged df_src None.
Proof. intros Hnoid. unfold merged. rewrite Hnoid. by destruct df_old. Qed.

(** X5.  A run of [classify] on sound inputs (a readable export with its
    "subject" and "body" columns, a model that loads and answers with one
    prediction per text, a previous file that is absent or readable)
    returns and saves a table with one row per row of the export, and
    every row of it carries a label: none is left unclassified. *)
Theorem classify_sound_run_labels_every_row
    (self : EmailJobClassifier) (disk : Disk) (df_src : SrcTable) (model : Model)
    (Hsrc : excel_file disk = Readable df_src)
    (Hcols : src_has_required df_src = true)
    (Hmodel : model_file disk = Readable model)
    (Hold : output_file disk <> Unreadable)
    (Haligned : forall texts, length (predict model texts) = length texts /\
                              length (predict_proba model texts) = length texts) :
  exists out,
    ending (classify self disk) = Returned out /\
    saved (events (classify self disk)) = Some out /\
    length (rows out) = length (src_rows df_src) /\
    forall row, row ∈ rows out -> job_label row <> None.
Proof.
  destruct (classify_returns self disk df_src model Hsrc Hcols Hmodel Hold Haligned)
    as (out & Hend & Hsaved).
  exists out. split; [done|]. split; [done|].
  destruct (saved_rows_vs_merged _ _ _ Hsaved) as (df_src' & Hex & _ & Hlen & Hrows).
  rewrite Hsrc in Hex. injection Hex as <-. cbv zeta in Hlen, Hrows.
  split; [by rewrite Hlen, merged_length|].
  intros row Hrow. apply list_elem_of_lookup in Hrow as [k Hk].
  assert (is_Some (merged df_src (old_of disk) !! k)) as [r Hr].
  { apply lookup_lt_is_Some. rewrite <- Hlen. by eapply lookup_lt_Some. }
  destruct (Hrows _ _ Hr) as (row' & Hk' & _ & Heq & Hnew).
  rewrite Hk in Hk'. injection Hk' as <-.
  destruct (job_label r) eqn:E; [rewrite Heq; congruence | by apply Hnew].
Qed.

(** The sample run: two rows in, two labelled rows out. *)
Lemma classify_sound_run_labels_every_row_witness :
  exists out,
    ending (classify Samples.demo_self Samples.demo_disk) = Returned out /\
    length (rows out) = 2 /\
    map job_label (rows out) = [Some 0%Z; Some 1%Z].
Proof.
  assert (output_file Samples.demo_disk <> Unreadable) as Hold by discriminate.
  assert (forall texts,
            length (predict Samples.demo_model texts) = length texts /\
            length (predict_proba Samples.demo_model texts) = length texts) as Haligned
    by (intros texts; split; apply length_map).
  destruct (classify_sound_run_labels_every_row Samples.demo_self Samples.demo_disk
              Samples.demo_src Samples.demo_model eq_refl eq_refl eq_refl Hold Haligned)
    as (out & Hend & _ & Hlen & _).
  exists out. split; [exact Hend|]. split; [exact Hlen|].
  assert (Returned out = Returned Samples.demo_out) as Hout
    by (rewrite <- Hend; reflexivity).
  injection Hout as ->. reflexivity.
Defined.

Local Opaque merged mask_new mask_sum loc_text loc_assign pretty String.append.

(** X6.  [classify] ends the process with exit status 1, before any
    model call and without writing the classified file, when the export
    is missing, when the model file is missing, when the export cannot be
    read, or when the export lacks the "subject" or the "body" column. *)
Theorem classify_fatal_inputs_exit
    (self : EmailJobClassifier) (disk : Disk)
    (Hfatal : path_exists (excel_file disk) = false \/
              path_exists (model_file disk) = false \/
              excel_file disk = Unreadable \/
              exists df_src, excel_file disk = Readable df_src /\
                             src_has_required df_src = false) :
  ending (classify self disk) = SysExit 1 /\
  saved (events (classify self disk)) = None /\
  model_calls (events (classify self disk)) = [].
Proof.
  unfold classify.
  destruct Hfatal as [H|[H|[H|(df_src & H & Hreq)]]].
  - by rewrite H.
  - rewrite H. by destruct (path_exists (excel_file disk)).
  - rewrite H. by destruct (path_exists (model_file disk)).
  - rewrite H. destruct (path_exists (model_file disk)); [|done]. cbn. by rewrite Hreq.
Qed.

(** X7.  When rows need classifying and the model answers with a number
    of labels, or of probabilities, other than the number of texts it was
    given, the assignment to the selected rows raises: the run ends in an
    exception after both model calls, nothing is saved and the classified
    file stays as it was. *)
Theorem classify_misaligned_model_raises
    (self : EmailJobClassifier) (disk : Disk) (df_src : SrcTable) (model : Model)
    (Hsrc : excel_file disk = Readable df_src)
    (Hcols : src_has_required df_src = true)
    (Hmodel : model_file disk = Readable model)
    (Hold : output_file disk <> Unreadable) :
  let df := merged df_src (old_of disk) in
  let texts := map snd (loc_text 0 (mask_new df) df) in
  mask_sum (mask_new df) <> 0 ->
  (length (predict model texts) <> length texts \/
   length (predict_proba model texts) <> length texts) ->
  ending (classify self disk) = Raised /\
  saved (events (classify self disk)) = None /\
  disk_after disk (events (classify self disk)) = disk /\
  model_calls (events (classify self disk))
  = [loc_text 0 (mask_new df) df; loc_text 0 (mask_new df) df].
Proof.
  intros df texts Hsome Hbad.
  assert (length texts = mask_sum (mask_new df)) as Ht.
  { unfold texts. rewrite length_map. apply loc_text_length, mask_new_length. }
  assert (ending (classify self disk) = Raised /\
          saved (events (classify self disk)) = None /\
          model_calls (events (classify self disk))
          = [loc_text 0 (mask_new df) df; loc_text 0 (mask_new df) df]) as (He & Hs & Hc).
  { unfold classify, old_of in *. rewrite Hsrc, Hmodel. cbn. rewrite Hcols. cbn.
    destruct (output_file disk) as [| |old]; [|done|]; destruct (src_has_id df_src); cbn;
      fold df; (destruct (Nat.eqb_spec (mask_sum (mask_new df)) 0); [done|]); cbn;
      fold texts;
      (destruct (decide (length (predict model texts) = length texts)) as [Hp|Hp];
       [ destruct (loc_assign_total set_job_label (mask_new df) df (predict model texts))
           as [df1 E1]; [apply mask_new_length | lia |];
         rewrite E1; cbn;
         rewrite (loc_assign_misaligned set_prob_job (mask_new df) df1);
         [done | | destruct Hbad; [done | lia]];
         destruct (loc_assign_Some _ _ _ _ _ (mask_new_length df) E1) as (L1 & _);
         rewrite mask_new_length; lia
       | rewrite (loc_assign_misaligned set_job_label (mask_new df) df);
         [done | apply mask_new_length | lia] ]). }
  split; [done|]. split; [done|]. split; [|done].
  unfold disk_after. by rewrite Hs.
Qed.

(** X8.  When the export has no "id" column, the previous classified
    file is read but never used: a run with a readable previous file
    ends, saves and asks the model exactly as the run without that file
    does, so every row that the export itself leaves unlabelled is
    classified again. *)
Theorem classify_without_id_ignores_previous_file
    (self : EmailJobClassifier) (disk : Disk) (df_src : SrcTable) (df_old : OldTable)
    (Hsrc : excel_file disk = Readable df_src)
    (Hnoid : src_has_id df_src = false)
    (Hold : output_file disk = Readable df_old) :
  let fresh := {| excel_file := excel_file disk; model_file := model_file disk;
                  output_file := Missing |} in
  ending (classify self disk) = ending (classify self fresh) /\
  saved (events (classify self disk)) = saved (events (classify self fresh)) /\
  model_calls (events (classify self disk)) = model_calls (events (classify self fresh)).
Proof.
  intros fresh.
  pose proof (merged_without_id df_src (Some df_old) Hnoid) as Hm.
  unfold classify, fresh. cbn [excel_file model_file output_file]. rewrite Hsrc, Hold.
  destruct (model_file disk) as [| |model]; cbn; [done| |];
    (destruct (src_has_required df_src); cbn; [|done]); rewrite Hnoid; cbn; rewrite Hm;
    set (df := merged df_src None);
    (destruct (Nat.eqb_spec (mask_sum (mask_new df)) 0); cbn; [done|]); [done|].
  destruct (loc_assign set_job_label (mask_new df) df _) as [df1|]; cbn; [|done].
  by destruct (loc_assign set_prob_job (mask_new df) df1 _).
Qed.

(** X9.  In the table a run saves, the [j]-th row that needed
    classifying (row [k] of the table, with text [txt]) carries the
    [j]-th label and the [j]-th probability the model returned for the
    texts of those rows, and its text is still [txt]: predictions are
    assigned by position among the new rows. *)
Theorem classify_assigns_predictions_by_position
    (self : EmailJobClassifier) (disk : Disk) (df_src : SrcTable) (model : Model)
    (out : Table)
    (Hsrc : excel_file disk = Readable df_src)
    (Hmodel : model_file disk = Readable model)
    (Hsaved : saved (events (classify self disk)) = Some out) :
  let df := merged df_src (old_of disk) in
  let texts_new := loc_text 0 (mask_new df) df in
  forall j k txt, texts_new !! j = Some (k, txt) ->
    exists row label proba,
      rows out !! k = Some row /\
      text row = txt /\
      predict model (map snd texts_new) !! j = Some label /\
      predict_proba model (map snd texts_new) !! j = Some proba /\
      job_label row = Some label /\
      prob_job row = Some proba.
Proof.
  intros df texts_new j k txt Hj.
  destruct (classify_saved_inv _ _ _ Hsaved)
    as (df_src' & Hex & _ & _ & _ & _ & _ & Hcases).
  rewrite Hsrc in Hex. injection Hex as <-. cbv zeta in Hcases.
  fold df in Hcases. fold texts_new in Hcases.
  destruct Hcases as [(Hc & _ & _) | (_ & _ & model' & df1 & Hm' & E1 & E2)].
  - exfalso. pose proof (loc_text_length (mask_new df) 0 df (mask_new_length df)) as Hl.
    fold texts_new in Hl. apply lookup_lt_Some in Hj. lia.
  - rewrite Hmodel in Hm'. injection Hm' as <-.
    pose proof (mask_new_length df) as Hlen.
    destruct (loc_assign_Some _ _ _ _ _ Hlen E1) as (L1 & _ & F1 & T1).
    destruct (loc_assign_positional _ _ 0 _ _ _ Hlen E1 _ _ _ Hj)
      as (r & v & _ & Hr & Hv & Ho1).
    rewrite Nat.sub_0_r in Hr, Ho1.
    assert (loc_text 0 (mask_new df) df1 !! j = Some (k, txt)) as Hj1.
    { rewrite <- (loc_text_same_mask (mask_new df) 0 df df1); [done | lia |].
      intros k' a b Ha Hb. destruct (mask_new df !! k') as [[|]|] eqn:Hm.
      - destruct (T1 _ _ Ha Hm) as [v' Hv']. rewrite Hb in Hv'. by injection Hv' as ->.
      - rewrite (F1 _ _ Ha Hm) in Hb. by injection Hb as ->.
      - apply lookup_ge_None in Hm. apply lookup_lt_Some in Ha. lia. }
    assert (length (mask_new df) = length df1) as Hlen1 by lia.
    destruct (loc_assign_positional _ _ 0 _ _ _ Hlen1 E2 _ _ _ Hj1)
      as (r1 & v1 & _ & Hr1 & Hv1 & Ho2).
    rewrite Nat.sub_0_r in Hr1, Ho2. rewrite Ho1 in Hr1. injection Hr1 as <-.
    assert ((k, txt) ∈ loc_text 0 (mask_new df) df) as Hin
      by (eapply list_elem_of_lookup_2; exact Hj).
    destruct (loc_text_elem _ _ _ _ _ Hin) as (r' & _ & Hr' & _ & Ht).
    rewrite Nat.sub_0_r, Hr in Hr'. injection Hr' as <-.
    exists (set_prob_job (set_job_label r v) v1), v, v1.
    split; [exact Ho2|]. by repeat split.
Qed.

(** X10.  The model is loaded only when rows need classifying.  With a
    model file that exists but cannot be loaded: a run in which every row
    already has its label saves the merged table all the same; a run with
    at least one row to classify ends with exit status 1, saves nothing
    and asks no model. *)
Theorem classify_loads_model_only_when_needed
    (self : EmailJobClassifier) (disk : Disk) (df_src : SrcTable)
    (Hsrc : excel_file disk = Readable df_src)
    (Hcols : src_has_required df_src = true)
    (Hmodel : model_file disk = Unreadable)
    (Hold : output_file disk <> Unreadable) :
  let df := merged df_src (old_of disk) in
  (mask_sum (mask_new df) = 0 ->
     ending (classify self disk)
     = Returned {| has_id := src_has_id df_src; rows := df |} /\
     saved (events (classify self disk))
     = Some {| has_id := src_has_id df_src; rows := df |}) /\
  (mask_sum (mask_new df) <> 0 ->
     ending (classify self disk) = SysExit 1 /\
     saved (events (classify self disk)) = None /\
     model_calls (events (classify self disk)) = []).
Proof.
  intros df. split.
  - intros Hc. destruct (classify_nothing_new self disk df_src) as (He & Hs & _); try done.
    by rewrite Hmodel.
  - intros Hc. unfold classify, old_of in *. rewrite Hsrc, Hmodel. cbn. rewrite Hcols. cbn.
    destruct (output_file disk) as [| |old]; [|done|]; destruct (src_has_id df_src); cbn;
      fold df; (destruct (Nat.eqb_spec (mask_sum (mask_new df)) 0); [done|]); cbn; done.
Qed.

Local Transparent merged mask_new mask_sum loc_text loc_assign pretty String.append.

(** No model file: the run exits before reading anything. *)
Lemma classify_fatal_inputs_exit_witness :
  path_exists (model_file Samples.demo_disk_no_model) = false /\
  ending (classify Samples.demo_self Samples.demo_disk_no_model) = SysExit 1 /\
  saved (events (classify Samples.demo_self Samples.demo_disk_no_model)) = None.
Proof.
  split; [reflexivity|].
  destruct (classify_fatal_inputs_exit Samples.demo_self Samples.demo_disk_no_model
              (or_intror (or_introl eq_refl))) as (Hend & Hsaved & _).
  split; [exact Hend | exact Hsaved].
Defined.

(** A model that returns no prediction for the one new text. *)
Lemma classify_misaligned_model_raises_witness :
  length (predict Samples.demo_model_short ["Lunch? noon"]) = 0 /\
  ending (classify Samples.demo_self Samples.demo_disk_short) = Raised /\
  saved (events (classify Samples.demo_self Samples.demo_disk_short)) = None /\
  model_calls (events (classify Samples.demo_self Samples.demo_disk_short))
  = [[(1, "Lunch? noon")]; [(1, "Lunch? noon")]].
Proof.
  split; [reflexivity|].
  assert (output_file Samples.demo_disk_short <> Unreadable) as Hold by discriminate.
  destruct (classify_misaligned_model_raises Samples.demo_self Samples.demo_disk_short
              Samples.demo_src Samples.demo_model_short eq_refl eq_refl eq_refl Hold)
    as (Hend & Hsaved & _ & Hcalls).
  - vm_compute. discriminate.
  - left. vm_compute. discriminate.
  - split; [exact Hend|]. split; [exact Hsaved | exact Hcalls].
Defined.

(** The export without ids: the label 0 that the previous file holds for
    m1 is not taken over, both rows are sent to the model. *)
Lemma classify_without_id_ignores_previous_file_witness :
  src_has_id Samples.demo_src_no_id = false /\
  model_calls (events (classify Samples.demo_self Samples.demo_disk_no_id))
  = model_calls (events (classify Samples.demo_self
                           {| excel_file := Readable Samples.demo_src_no_id;
                              model_file := Readable Samples.demo_model;
                              output_file := Missing |})).
Proof.
  split; [reflexivity|].
  destruct (classify_without_id_ignores_previous_file Samples.demo_self
              Samples.demo_disk_no_id Samples.demo_src_no_id Samples.demo_old
              eq_refl eq_refl eq_refl) as (_ & _ & Hcalls).
  exact Hcalls.
Defined.

(** The one new row of the sample run is row 1, and it gets the model's
    first answer. *)
Lemma classify_assigns_predictions_by_position_witness :
  exists row label proba,
    rows Samples.demo_out !! 1 = Some row /\
    text row = "Lunch? noon" /\
    predict Samples.demo_model ["Lunch? noon"] !! 0 = Some label /\
    predict_proba Samples.demo_model ["Lunch? noon"] !! 0 = Some proba /\
    job_label row = Some label /\
    prob_job row = Some proba.
Proof.
  exact (classify_assigns_predictions_by_position Samples.demo_self Samples.demo_disk
           Samples.demo_src Samples.demo_model Samples.demo_out eq_refl eq_refl eq_refl
           0 1 "Lunch? noon" eq_refl).
Defined.

(** Everything classified, the model file damaged: the run still saves. *)
Lemma classify_loads_model_only_when_needed_witness :
  model_file Samples.demo_disk_done = Unreadable /\
  saved (events (classify Samples.demo_self Samples.demo_disk_done))
  = Some Samples.demo_out.
Proof.
  split; [reflexivity|].
  assert (output_file Samples.demo_disk_done <> Unreadable) as Hold by discriminate.
  destruct (classify_loads_model_only_when_needed Samples.demo_self Samples.demo_disk_done
              Samples.demo_src eq_refl eq_refl eq_refl Hold) as [Hnone _].
  destruct (Hnone eq_refl) as [_ Hsaved]. exact Hsaved.
Defined.

End PredictMore.

(* ===================================================================== *)
(** ** Hybrid agent: cleaned text, company, rows, master CSV, payloads    *)
(* ===================================================================== *)

Section CleanTextFacts.
Import Text InboxAgentV2.

Lemma http_at_inv (s : string) :
  http_at s = true ->
  exists x r, s = String "h" (String "t" (String "t" (String "p" (String x r))))
              /\ is_space x = false.
Proof.
  intros H.
  destruct s as [|c1 s]; [discriminate|].
  assert (c1 = "h"%char) as ->.
  { destruct c1 as [[] [] [] [] [] [] [] []]; try discriminate H; reflexivity. }
  destruct s as [|c2 s]; [discriminate|].
  assert (c2 = "t"%char) as ->.
  { destruct c2 as [[] [] [] [] [] [] [] []]; try discriminate H; reflexivity. }
  destruct s as [|c3 s]; [discriminate|].
  assert (c3 = "t"%char) as ->.
  { destruct c3 as [[] [] [] [] [] [] [] []]; try discriminate H; reflexivity. }
  destruct s as [|c4 s]; [discriminate|].
  assert (c4 = "p"%char) as ->.
  { destruct c4 as [[] [] [] [] [] [] [] []]; try discriminate H; reflexivity. }
  destruct s as [|x s]; [discriminate|].
  exists x, s. split; [done|]. simpl in H. by destruct (is_space x).
Qed.

(** A character that is no blank reaches the output of the substitution
    only by being copied, at a place where no match starts. *)
Lemma sub_http_copy (s : string) (c : ascii) (r : string) :
  sub_http false s = String c r -> is_space c = false ->
  exists s', s = String c s' /\ r = sub_http false s' /\ http_at s = false.
Proof.
  intros H Hc. destruct s as [|c0 s']; [discriminate|].
  cbn [sub_http] in H. destruct (http_at (String c0 s')) eqn:E.
  - injection H as <- _. discriminate.
  - injection H as <- <-. by exists s'.
Qed.

Lemma http_at_sub_http (s : string) : http_at (sub_http false s) = false.
Proof.
  destruct (http_at (sub_http false s)) eqn:E; [|done].
  destruct (http_at_inv _ E) as (x & r & Hs & Hx).
  destruct (sub_http_copy _ _ _ Hs eq_refl) as (s1 & -> & H1 & Hno).
  symmetry in H1. destruct (sub_http_copy _ _ _ H1 eq_refl) as (s2 & -> & H2 & _).
  symmetry in H2. destruct (sub_http_copy _ _ _ H2 eq_refl) as (s3 & -> & H3 & _).
  symmetry in H3. destruct (sub_http_copy _ _ _ H3 eq_refl) as (s4 & -> & H4 & _).
  symmetry in H4. destruct (sub_http_copy _ _ _ H4 Hx) as (s5 & -> & _ & _).
  simpl in Hno. rewrite Hx in Hno. discriminate.
Qed.

Lemma http_at_blank (c : ascii) (r : string) :
  is_space c = true -> http_at (String c r) = false.
Proof.
  intros Hc. destruct (http_at (String c r)) eqn:E; [|done].
  destruct (http_at_inv _ E) as (x & r' & Hs & _). injection Hs as -> _. discriminate.
Qed.

Lemma contains_url_sub_http (s : string) :
  forall in_match, contains_url (sub_http in_match s) = false.
Proof.
  induction s as [|c s IH]; intros b; [by destruct b|].
  destruct b.
  - cbn [sub_http]. destruct (is_space c) eqn:Hc; [|apply IH].
    cbn [contains_url]. by rewrite (http_at_blank _ _ Hc), IH.
  - pose proof (http_at_sub_http (String c s)) as Hh.
    destruct (sub_http false (String c s)) as [|c' r] eqn:E; [done|].
    cbn [contains_url]. rewrite Hh. cbn [sub_http] in E.
    destruct (http_at (String c s)); injection E as _ <-; apply IH.
Qed.

Lemma contains_url_lstrip (s : string) :
  contains_url s = false -> contains_url (lstrip s) = false.
Proof.
  induction s as [|c s IH]; [done|]. intros H. cbn [lstrip].
  destruct (is_space c); [|done]. apply IH. cbn [contains_url] in H.
  by apply orb_false_iff in H as [_ H].
Qed.

Lemma http_at_rstrip (s : string) : http_at (rstrip s) = true -> http_at s = true.
Proof.
  intros E. destruct (http_at_inv _ E) as (x & r & Hs & Hx).
  destruct (rstrip_copy _ _ _ Hs) as (s1 & -> & H1).
  symmetry in H1. destruct (rstrip_copy _ _ _ H1) as (s2 & -> & H2).
  symmetry in H2. destruct (rstrip_copy _ _ _ H2) as (s3 & -> & H3).
  symmetry in H3. destruct (rstrip_copy _ _ _ H3) as (s4 & -> & H4).
  symmetry in H4. destruct (rstrip_copy _ _ _ H4) as (s5 & -> & _).
  simpl. by rewrite Hx.
Qed.

Lemma contains_url_rstrip (s : string) :
  contains_url s = false -> contains_url (rstrip s) = false.
Proof.
  induction s as [|c s IH]; [done|]. intros H.
  destruct (contains_url (rstrip (String c s))) eqn:E; [|done].
  cbn [contains_url] in H. apply orb_false_iff in H as [Hh Hs].
  destruct (rstrip (String c s)) as [|c' r] eqn:Er; [discriminate|].
  destruct (rstrip_copy _ _ _ Er) as (s' & Heq & ->). injection Heq as -> <-.
  cbn [contains_url] in E. apply orb_true_iff in E as [E|E].
  - rewrite <- Er in E. apply http_at_rstrip in E. congruence.
  - rewrite (IH Hs) in E. discriminate.
Qed.

Lemma plain_collapse_ws (s : string) :
  forall in_run, all_chars plain_char (collapse_ws in_run s) = true.
Proof.
  induction s as [|c s IH]; intros b; [done|]. cbn [collapse_ws].
  destruct (is_space c) eqn:Hc.
  - destruct b; [apply IH|]. cbn [all_chars]. by rewrite IH.
  - cbn [all_chars]. unfold plain_char at 1. by rewrite Hc, IH.
Qed.

Lemma plain_sub_http (s : string) :
  all_chars plain_char s = true ->
  forall in_match, all_chars plain_char (sub_http in_match s) = true.
Proof.
  induction s as [|c s IH]; intros H b; [by destruct b|].
  cbn [all_chars] in H. apply andb_true_iff in H as [Hc Hs].
  cbn [sub_http]. destruct b.
  - destruct (is_space c); [|by apply IH]. cbn [all_chars]. by rewrite Hc, IH.
  - destruct (http_at (String c s)); cbn [all_chars]; rewrite IH by done; [done|].
    by rewrite Hc.
Qed.

Lemma plain_lstrip (s : string) :
  all_chars plain_char s = true -> all_chars plain_char (lstrip s) = true.
Proof.
  induction s as [|c s IH]; [done|]. intros H. cbn [lstrip].
  destruct (is_space c); [|done]. apply IH. cbn [all_chars] in H.
  by apply andb_true_iff in H as [_ H].
Qed.

Lemma plain_rstrip (s : string) :
  all_chars plain_char s = true -> all_chars plain_char (rstrip s) = true.
Proof.
  induction s as [|c s IH]; [done|]. intros H. cbn [all_chars] in H.
  apply andb_true_iff in H as [Hc Hs]. cbn [rstrip]. specialize (IH Hs).
  destruct (rstrip s) as [|c1 r1].
  - destruct (is_space c); [done|]. cbn [all_chars]. by rewrite Hc.
  - cbn [all_chars] in *. by rewrite Hc, IH.
Qed.

(** X11.  Whatever the input, the text [clean_text] returns holds no
    URL any more (nothing in it matches [http\S+]), neither begins nor
    ends with a blank, and its only blank character is the space: tabs
    and line breaks are gone. *)
Theorem clean_text_is_trimmed_and_url_free (text : string) :
  contains_url (clean_text text) = false /\
  starts_blank (clean_text text) = false /\
  ends_blank (clean_text text) = false /\
  all_chars plain_char (clean_text text) = true.
Proof.
  unfold clean_text, strip. repeat split.
  - apply contains_url_rstrip, contains_url_lstrip, contains_url_sub_http.
  - apply starts_blank_rstrip, starts_blank_lstrip.
  - apply ends_blank_rstrip.
  - apply plain_rstrip, plain_lstrip, plain_sub_http, plain_collapse_ws.
Qed.

End CleanTextFacts.

Section CompanyFacts.
Import Text InboxAgentV2.







Lemma lower_ascii_at (c : ascii) :
  Ascii.eqb (lower_ascii c) "@" = Ascii.eqb c "@".
Proof. by destruct c as [[] [] [] [] [] [] [] []]. Qed.

Lemma search_domain_None (s : string) :
  str_in "@" s = false -> search_domain (lower s) = None.
Proof.
  induction s as [|c s IH]; [done|]. cbn [str_in lower search_domain].
  intros H. apply orb_false_iff in H as [Hp Hs].
  rewrite lower_ascii_at. destruct (Ascii.eqb_spec c "@") as [->|Hne]; [|by apply IH].
  simpl in Hp. by destruct s.
Qed.

(** X13.  A sender field without any "@" (a bare display name, an empty
    header) gives the empty company. *)
Theorem sender_without_address_has_no_company (sender : string)
    (Hno : str_in "@" sender = false) :
  infer_company_from_sender sender = "".
Proof. unfold infer_company_from_sender. by rewrite search_domain_None. Qed.

Lemma sender_without_address_has_no_company_witness :
  str_in "@" "Mail Delivery Subsystem" = false /\
  infer_company_from_sender "Mail Delivery Subsystem" = "".
Proof.
  split; [reflexivity|].
  apply (sender_without_address_has_no_company "Mail Delivery Subsystem"). reflexivity.
Defined.

End CompanyFacts.

Section AgentMore.
Import Text InboxAgentV2.

Lemma collect_rows_inv (self : InboxAgentGmailML) (emails : list SimpleEmail) :
  forall (probas : list Q) (row : Row),
  row ∈ collect_rows self emails probas ->
  exists k email p_job,
    emails !! k = Some email /\ probas !! k = Some p_job /\
    accepted self email p_job = true /\ row = make_row email p_job.
Proof.
  induction emails as [|e emails IH]; intros probas row H; [inversion H|].
  destruct probas as [|q probas]; [inversion H|]. cbn [collect_rows] in H.
  destruct (skipped self e q) eqn:E.
  - destruct (IH _ _ H) as (k & em & p & ?). by exists (S k), em, p.
  - apply elem_of_cons in H as [->|H].
    + exists 0, e, q. unfold accepted. by rewrite E.
    + destruct (IH _ _ H) as (k & em & p & ?). by exists (S k), em, p.
Qed.

Lemma collect_rows_ids (self : InboxAgentGmailML) (emails : list SimpleEmail) :
  forall probas : list Q,
  email_ids (collect_rows self emails probas) `sublist_of` map email_id emails.
Proof.
  unfold email_ids.
  induction emails as [|e emails IH]; intros probas; [constructor|].
  destruct probas as [|q probas]; [apply sublist_nil_l|]. cbn [collect_rows].
  destruct (skipped self e q); cbn [map].
  - apply sublist_cons, IH.
  - apply sublist_skip, IH.
Qed.

Lemma collect_rows_none (self : InboxAgentGmailML) (emails : list SimpleEmail) :
  forall probas : list Q,
  (forall k email p_job, emails !! k = Some email -> probas !! k = Some p_job ->
     accepted self email p_job = false) ->
  collect_rows self emails probas = [].
Proof.
  induction emails as [|e emails IH]; intros probas H; [done|].
  destruct probas as [|q probas]; [done|]. cbn [collect_rows].
  pose proof (H 0 e q eq_refl eq_refl) as H0. unfold accepted in H0.
  destruct (skipped self e q); [|done]. apply IH. intros k. apply (H (S k)).
Qed.

(** X14.  The rows [process_and_update_csv] collects are sound: every
    one of them is the row of an item of the run, at some position where
    the model gave a probability, and that item was accepted; the rows
    come in the order of the items; and there are never more rows than
    items or than probabilities (an item the model gave no probability
    for gets no row). *)
Theorem collected_rows_come_from_accepted_items
    (self : InboxAgentGmailML) (emails : list SimpleEmail) (probas : list Q) :
  (forall row, row ∈ collect_rows self emails probas ->
     exists k email p_job,
       emails !! k = Some email /\ probas !! k = Some p_job /\
       accepted self email p_job = true /\ row = make_row email p_job) /\
  email_ids (collect_rows self emails probas) `sublist_of` map email_id emails /\
  length (collect_rows self emails probas) <= Nat.min (length emails) (length probas).
Proof.
  split; [apply collect_rows_inv|]. split; [apply collect_rows_ids|].
  revert probas. induction emails as [|e emails IH]; intros [|q probas]; simpl; try lia.
  specialize (IH probas). destruct (skipped self e q); simpl; lia.
Qed.

(** X15.  The "applied" flag of a row is 1 exactly when one of the three
    phrase lists (confirmation, interview, rejection) matches the
    lower-cased cleaned subject and body, and 0 otherwise; so it is 0
    exactly for the rows whose status is OTHER_JOB_EMAIL. *)
Theorem applied_flag_marks_a_recognised_status (email : SimpleEmail) (p_job : Q) :
  let t := lower (clean_text (subject email) +:+ " [SEP] " +:+ clean_text (body email)) in
  r_applied (make_row email p_job)
  = (if any_in APPLICATION_CONFIRM_WORDS t || any_in INTERVIEW_WORDS t
        || any_in REJECTION_WORDS t then 1 else 0)%Z /\
  (r_applied (make_row email p_job) = 0%Z <->
   r_job_status (make_row email p_job) = "OTHER_JOB_EMAIL").
Proof.
  intros t. unfold make_row. cbn [r_applied r_job_status]. unfold infer_job_status. fold t.
  by destruct (any_in APPLICATION_CONFIRM_WORDS t), (any_in INTERVIEW_WORDS t),
    (any_in REJECTION_WORDS t).
Qed.

(** *** The master CSV *)

Lemma existsb_id (i : string) (df : list Row) :
  existsb (fun r' => String.eqb (r_email_id r') i) df = true <-> i ∈ email_ids df.
Proof.
  unfold email_ids. rewrite existsb_exists, list_elem_of_fmap. split.
  - intros (r & Hin & Heq). apply String.eqb_eq in Heq. exists r.
    split; [done|]. by apply list_elem_of_In.
  - intros (r & -> & Hin). exists r. split; [by apply list_elem_of_In|].
    apply String.eqb_refl.
Qed.

Lemma drop_duplicates_last_sublist (df : list Row) :
  drop_duplicates_last df `sublist_of` df.
Proof.
  induction df as [|r df IH]; [constructor|]. cbn [drop_duplicates_last].
  destruct (existsb _ df); [by apply sublist_cons | by apply sublist_skip].
Qed.

Lemma drop_duplicates_last_ids (df : list Row) (i : string) :
  i ∈ email_ids (drop_duplicates_last df) <-> i ∈ email_ids df.
Proof.
  induction df as [|r df IH]; [done|]. cbn [drop_duplicates_last].
  destruct (existsb _ df) eqn:E.
  - rewrite IH. unfold email_ids at 2. cbn [map]. rewrite elem_of_cons. split; [auto|].
    intros [->|H]; [|done]. by apply existsb_id.
  - unfold email_ids in *. cbn [map]. rewrite !elem_of_cons, IH. done.
Qed.

Lemma drop_duplicates_last_NoDup (df : list Row) :
  NoDup (email_ids (drop_duplicates_last df)).
Proof.
  induction df as [|r df IH]; [constructor|]. cbn [drop_duplicates_last].
  destruct (existsb _ df) eqn:E; [done|]. unfold email_ids. cbn [map].
  constructor; [|done].
  intros Hin. apply (proj1 (drop_duplicates_last_ids _ _)) in Hin.
  apply (proj2 (existsb_id _ _)) in Hin. congruence.
Qed.

(** Of two rows with one id the later one stays: a kept row is a row of
    the second table, or a row of the first whose id the second table
    does not hold. *)
Lemma drop_duplicates_last_app (old new : list Row) (r : Row) :
  r ∈ drop_duplicates_last (old ++ new) ->
  r ∈ new \/ (r ∈ old /\ r_email_id r ∉ email_ids new).
Proof.
  induction old as [|o old IH]; simpl.
  - intros H. left. eapply elem_of_sublist; [exact H|]. apply drop_duplicates_last_sublist.
  - destruct (existsb _ (old ++ new)) eqn:E.
    + intros H. destruct (IH H) as [?|[? ?]]; [by left|right]. split; [by right|done].
    + intros H. apply elem_of_cons in H as [->|H].
      * right. split; [by left|]. intros Hin.
        assert (r_email_id o ∈ email_ids (old ++ new)) as Hin'
          by (unfold email_ids in *; rewrite map_app; apply elem_of_app; by right).
        apply existsb_id in Hin'. congruence.
      * destruct (IH H) as [?|[? ?]]; [by left|right]. split; [by right|done].
Qed.

(** When the ids of the master are numbers, no old row meets a row of
    this run: both parts are de-duplicated on their own. *)
Lemma drop_duplicates_last_typed_numeric (old_df new_df : list Row) :
  drop_duplicates_last_typed (concat_typed true old_df new_df)
  = drop_duplicates_last old_df ++ drop_duplicates_last new_df.
Proof.
  induction old_df as [|r old IH].
  - apply (drop_duplicates_last_typed_text [] new_df).
  - unfold concat_typed in *. cbn [map app drop_duplicates_last_typed drop_duplicates_last].
    rewrite IH.
    replace (existsb (fun x : id_cell * Row => bool_decide (x.1 = (true, r_email_id r)))
               (map (fun r0 => (true, r_email_id r0, r0)) old
                ++ map (fun r0 => (false, r_email_id r0, r0)) new_df))
      with (existsb (fun r' => String.eqb (r_email_id r') (r_email_id r)) old);
      [by destruct (existsb _ old)|].
    rewrite existsb_app.
    replace (existsb (fun x : id_cell * Row => bool_decide (x.1 = (true, r_email_id r)))
               (map (fun r0 => (false, r_email_id r0, r0)) new_df)) with false.
    + rewrite orb_false_r. clear IH. induction old as [|r' old IH]; [done|].
      cbn [map existsb fst]. rewrite IH. f_equal.
      destruct (String.eqb_spec (r_email_id r') (r_email_id r)) as [->|Hne].
      * by rewrite bool_decide_true.
      * rewrite bool_decide_false; [done|]. by intros [= ?].
    + clear. induction new_df as [|r' new IH]; [done|]. cbn [map existsb fst].
      rewrite <- IH. by rewrite bool_decide_false.
Qed.

Local Opaque pretty String.append collect_rows combine_fields drop_duplicates_last.
Local Opaque drop_duplicates_last_typed concat_typed.

(** X16.  A run of [process_and_update_csv] that accepted at least one
    item, against a non-empty master CSV that parses: the run returns and
    writes one merged table, taken in order from the old rows followed
    by the new ones, whose ids are exactly those of the old table and of
    the new rows.  When pandas read the "email_id" column of the master
    as strings, the table holds each [email_id] once, and for an id that
    this run produced the row kept is a row of this run, the old row of
    that id being dropped.  When pandas read that column as numbers (a
    master whose ids are all digits), an old row is never dropped in
    favour of a row of this run: the table is the old rows, de-duplicated
    among themselves, followed by the new rows, de-duplicated among
    themselves, so an id that both hold is in the table twice. *)
Theorem master_merge_compares_ids_as_typed
    (self : InboxAgentGmailML) (emails : list SimpleEmail)
    (getsize : nat) (numeric_id : bool) (old_df : list Row)
    (Hsize : 0 < getsize) :
  let texts := map (fun e => combine_fields (subject e) (body e) (sender e)) emails in
  let new_df := collect_rows self emails (predict_proba self texts) in
  let run :=
    process_and_update_csv self emails (Present getsize (Parsed numeric_id old_df)) in
  new_df <> [] ->
  exists merged,
    ending run = Returned merged /\
    written (events run) = Some merged /\
    merged `sublist_of` old_df ++ new_df /\
    (forall i, i ∈ email_ids merged <-> i ∈ email_ids old_df \/ i ∈ email_ids new_df) /\
    (numeric_id = false ->
       NoDup (email_ids merged) /\
       forall r, r ∈ merged ->
         r ∈ new_df \/ (r ∈ old_df /\ r_email_id r ∉ email_ids new_df)) /\
    (numeric_id = true ->
       merged = drop_duplicates_last old_df ++ drop_duplicates_last new_df).
Proof.
  intros texts new_df run Hne. subst run. unfold process_and_update_csv.
  fold texts. fold new_df.
  destruct getsize as [|n]; [lia|]. cbn [exists_nonempty Nat.ltb Nat.leb read_master].
  destruct new_df as [|r0 rest] eqn:E; [done|]. rewrite <- E. clear E.
  exists (drop_duplicates_last_typed (concat_typed numeric_id old_df new_df)). cbn.
  split; [done|]. split; [done|]. destruct numeric_id.
  - rewrite drop_duplicates_last_typed_numeric.
    split; [apply sublist_app; apply drop_duplicates_last_sublist|]. split.
    + intros i. unfold email_ids. rewrite map_app, elem_of_app.
      fold (email_ids (drop_duplicates_last old_df)).
      fold (email_ids (drop_duplicates_last new_df)).
      by rewrite !drop_duplicates_last_ids.
    + split; [done|]. done.
  - rewrite drop_duplicates_last_typed_text.
    split; [apply drop_duplicates_last_sublist|]. split.
    + intros i. rewrite drop_duplicates_last_ids. unfold email_ids. rewrite map_app.
      apply elem_of_app.
    + split; [|done]. intros _. split; [apply drop_duplicates_last_NoDup|].
      apply drop_duplicates_last_app.
Qed.

(** X17.  A run of [process_and_update_csv] in which no item is accepted
    (each item has no strong signal and a probability below the
    threshold), against a non-empty master CSV that parses, however its
    ids were typed: the master table is returned as read and the file is
    not written. *)
Theorem no_accepted_item_leaves_master_untouched
    (self : InboxAgentGmailML) (emails : list SimpleEmail)
    (getsize : nat) (numeric_id : bool) (old_df : list Row)
    (Hsize : 0 < getsize) :
  let texts := map (fun e => combine_fields (subject e) (body e) (sender e)) emails in
  let probas := predict_proba self texts in
  let run :=
    process_and_update_csv self emails (Present getsize (Parsed numeric_id old_df)) in
  (forall k email p_job, emails !! k = Some email -> probas !! k = Some p_job ->
     accepted self email p_job = false) ->
  ending run = Returned old_df /\
  written (events run) = None.
Proof.
  intros texts probas run Hnone. subst run. unfold process_and_update_csv.
  fold texts. fold probas. rewrite (collect_rows_none _ _ _ Hnone).
  destruct getsize as [|n]; [lia|]. by cbn.
Qed.

Local Transparent pretty String.append collect_rows combine_fields drop_duplicates_last.
Local Transparent drop_duplicates_last_typed concat_typed.

(** A master read as strings: the platform item of this run replaces the
    older row of m7 and the row of m1 stays.  A master whose ids are all
    digits, read as numbers: the row of this run does not replace the
    old row of the same id, both are written. *)
Lemma master_merge_compares_ids_as_typed_witness :
  (exists merged,
     ending (process_and_update_csv Samples.demo_agent [Samples.demo_platform_email]
               (Present 512 (Parsed false Samples.demo_master_rows))) = Returned merged /\
     NoDup (email_ids merged) /\
     email_ids merged = ["m1"; "m7"]) /\
  (exists merged,
     ending (process_and_update_csv Samples.demo_agent [Samples.demo_digits_email]
               (Present 512 (Parsed true Samples.demo_master_digits))) = Returned merged /\
     email_ids merged = ["1934567890123456"; "1934567890123456"]).
Proof.
  split.
  - destruct (master_merge_compares_ids_as_typed Samples.demo_agent
                [Samples.demo_platform_email] 512 false Samples.demo_master_rows)
      as (merged & Hend & _ & _ & _ & Htext & _).
    + lia.
    + vm_compute. discriminate.
    + exists merged. split; [exact Hend|]. split; [exact (proj1 (Htext eq_refl))|].
      assert (Returned merged
              = Returned (drop_duplicates_last
                            (Samples.demo_master_rows
                             ++ [make_row Samples.demo_platform_email (1 # 20)]))) as Heq
        by (rewrite <- Hend; reflexivity).
      injection Heq as ->. reflexivity.
  - destruct (master_merge_compares_ids_as_typed Samples.demo_agent
                [Samples.demo_digits_email] 512 true Samples.demo_master_digits)
      as (merged & Hend & _ & _ & _ & _ & Hnumeric).
    + lia.
    + vm_compute. discriminate.
    + exists merged. split; [exact Hend|]. rewrite (Hnumeric eq_refl). reflexivity.
Defined.

(** The bank item is scored 0.05 and has no strong signal. *)
Lemma no_accepted_item_leaves_master_untouched_witness :
  accepted Samples.demo_agent Samples.demo_bank_email (1 # 20) = false /\
  ending (process_and_update_csv Samples.demo_agent [Samples.demo_bank_email]
            (Present 512 (Parsed false Samples.demo_master_rows)))
  = Returned Samples.demo_master_rows /\
  written (events (process_and_update_csv Samples.demo_agent [Samples.demo_bank_email]
                     (Present 512 (Parsed false Samples.demo_master_rows)))) = None.
Proof.
  split; [reflexivity|].
  destruct (no_accepted_item_leaves_master_untouched Samples.demo_agent
              [Samples.demo_bank_email] 512 false Samples.demo_master_rows)
    as (Hend & Hwritten).
  - lia.
  - intros [|k] email p_job Hk Hp; [|done].
    injection Hk as <-. simpl in Hp. injection Hp as <-. reflexivity.
  - split; [exact Hend | exact Hwritten].
Defined.

(** *** Headers and bodies *)

(** X18.  [get_header] answers the value of the first header whose name
    equals the wanted one up to letter case, whatever follows it; it
    answers the empty string when no header matches; and the case of the
    wanted name makes no difference. *)
Theorem get_header_first_match_any_case
    (pre post : list Header) (h : Header) (name : string)
    (Hmatch : lower (h_name h) = lower name)
    (Hpre : Forall (fun h' => lower (h_name h') <> lower name) pre) :
  get_header (pre ++ h :: post) name = h_value h /\
  get_header pre name = "" /\
  get_header (pre ++ h :: post) (lower name) = h_value h.
Proof.
  induction Hpre as [|h' pre Hh' Hpre IH]; cbn [app get_header].
  - rewrite lower_idem, Hmatch, String.eqb_refl. done.
  - rewrite lower_idem. destruct (String.eqb_spec (lower (h_name h')) (lower name)); [done|].
    exact IH.
Qed.

Lemma get_header_first_match_any_case_witness :
  get_header Samples.demo_headers "Subject" = "Hello" /\
  get_header Samples.demo_headers "subject" = "Hello".
Proof.
  destruct (get_header_first_match_any_case
              [ {| h_name := "From"; h_value := "hr@acme.com" |} ]
              [ {| h_name := "Subject"; h_value := "Second" |} ]
              {| h_name := "SUBJECT"; h_value := "Hello" |} "Subject" eq_refl)
    as (Hfirst & _ & Hlower).
  - constructor; [|constructor]. vm_compute. discriminate.
  - split; [exact Hfirst | exact Hlower].
Defined.

Lemma first_data_None (mime : string) (ps : list Part) :
  Forall (fun part => ~ usable mime part) ps -> first_data mime ps = None.
Proof.
  induction 1 as [|part ps Hp _ IH]; [done|]. cbn [first_data].
  case_bool_decide as Hm; [|done].
  destruct (part_data part) as [[|c d]|] eqn:E; cbn [truthy]; try done.
  exfalso. apply Hp. split; [done|]. by exists (String c d).
Qed.

Lemma first_data_Some (mime : string) (pre post : list Part) (part : Part) (data : string) :
  Forall (fun part => ~ usable mime part) pre ->
  mimeType part = Some mime -> part_data part = Some data -> data <> "" ->
  first_data mime (pre ++ part :: post) = Some data.
Proof.
  intros Hpre Hm Hd Hne. induction Hpre as [|p pre Hp _ IH]; cbn [app first_data].
  - rewrite bool_decide_true by done. rewrite Hd. by destruct data.
  - case_bool_decide as Hm'; [|done].
    destruct (part_data p) as [[|c d]|] eqn:E; cbn [truthy]; try done.
    exfalso. apply Hp. split; [done|]. by exists (String c d).
Qed.

(** X19.  For a payload with parts, [extract_body] answers the decoded
    data of the first text/plain part that has data, wherever it stands:
    HTML parts before it, text/plain parts without data before it and
    the payload's own body data make no difference, and the HTML reader
    is not applied. *)
Theorem multipart_body_prefers_plain_text
    (decode get_text : string -> string) (payload : Payload)
    (pre post : list Part) (part : Part) (data : string)
    (Hparts : parts payload = Some (pre ++ part :: post))
    (Hpre : Forall (fun p => ~ usable "text/plain" p) pre)
    (Hmime : mimeType part = Some "text/plain")
    (Hdata : part_data part = Some data)
    (Hne : data <> "") :
  extract_body decode get_text payload = decode data.
Proof.
  unfold extract_body. rewrite Hparts.
  by rewrite (first_data_Some _ _ _ _ _ Hpre Hmime Hdata Hne).
Qed.

Lemma multipart_body_prefers_plain_text_witness :
  extract_body Samples.demo_decode Samples.demo_get_text Samples.demo_payload
  = "decoded SGk".
Proof.
  apply (multipart_body_prefers_plain_text Samples.demo_decode Samples.demo_get_text
           Samples.demo_payload
           [ {| mimeType := Some "text/html"; part_data := Some "PGI+SGk8L2I+" |} ] []
           {| mimeType := Some "text/plain"; part_data := Some "SGk" |} "SGk" eq_refl).
  - constructor; [|constructor]. intros [Hmime _]. discriminate Hmime.
  - reflexivity.
  - reflexivity.
  - discriminate.
Defined.

(** X20.  For a payload with parts of which none is a text/plain or a
    text/html part with data (attachments only, nested multiparts, empty
    text parts), [extract_body] answers the empty string: it never falls
    back on the payload's own body data and it does not look inside a
    part. *)
Theorem multipart_body_never_falls_back
    (decode get_text : string -> string) (payload : Payload) (ps : list Part)
    (Hparts : parts payload = Some ps)
    (Hplain : Forall (fun p => ~ usable "text/plain" p) ps)
    (Hhtml : Forall (fun p => ~ usable "text/html" p) ps) :
  extract_body decode get_text payload = "".
Proof.
  unfold extract_body. rewrite Hparts.
  by rewrite (first_data_None _ _ Hplain), (first_data_None _ _ Hhtml).
Qed.

Lemma multipart_body_never_falls_back_witness :
  body_data Samples.demo_payload_nested = Some "SGk" /\
  extract_body Samples.demo_decode Samples.demo_get_text Samples.demo_payload_nested = "".
Proof.
  split; [reflexivity|].
  apply (multipart_body_never_falls_back Samples.demo_decode Samples.demo_get_text
           Samples.demo_payload_nested _ eq_refl).
  - repeat constructor; intros [Hmime (data & Hdata & Hne)];
      try discriminate Hmime. injection Hdata as <-. by apply Hne.
  - repeat constructor; intros [Hmime _]; discriminate Hmime.
Defined.

(** *** The rules and letter case; training against inference *)

Lemma lower_sep (subject body : string) :
  lower (lower subject +:+ " [SEP] " +:+ lower body)
  = lower (subject +:+ " [SEP] " +:+ body).
Proof. by rewrite !lower_app, !lower_idem. Qed.

(** X21.  The rule functions do not depend on the letter case of their
    arguments: lower-casing the subject, the body and the sender
    beforehand changes neither the strong-signal test, nor the inferred
    company, nor the label of the weak-supervision rule, and lower-casing
    the text it is given changes the status neither agent derives from
    it.  The status of a row is another matter, since the row's text
    goes through [clean_text] first and the URL pattern of [clean_text]
    is case-sensitive: for the sample item, whose body holds a link
    written in capitals in front of "phone interview", the row says
    INTERVIEW_INVITE, while the row of the same item in lower case says
    OTHER_JOB_EMAIL, the phrase having gone with the link. *)
Theorem rules_ignore_letter_case (subject body sender text : string) :
  has_strong_job_signal (lower subject) (lower body) (lower sender)
  = has_strong_job_signal subject body sender /\
  infer_company_from_sender (lower sender) = infer_company_from_sender sender /\
  AutoTrain.is_job_email_rule (lower subject) (lower body) (lower sender)
  = AutoTrain.is_job_email_rule subject body sender /\
  infer_job_status (lower text) = infer_job_status text /\
  InboxAgent.infer_job_status (lower text) = InboxAgent.infer_job_status text /\
  (let email := Samples.demo_shouting_email in
   let lowered :=
     {| email_id := email_id email; date := date email;
        sender := lower (InboxAgentV2.sender email);
        subject := lower (InboxAgentV2.subject email);
        body := lower (InboxAgentV2.body email) |} in
   clean_text (lower (InboxAgentV2.body email))
   = "book at   interview slots." /\
   lower (clean_text (InboxAgentV2.body email))
   = "book at http://jobs.example.org/phone interview slots." /\
   r_job_status (make_row email (1 # 2)) = "INTERVIEW_INVITE" /\
   r_job_status (make_row lowered (1 # 2)) = "OTHER_JOB_EMAIL").
Proof.
  split; [|split; [|split; [|split; [|split]]]].
  - unfold has_strong_job_signal. by rewrite lower_sep, !lower_idem.
  - unfold infer_company_from_sender. by rewrite lower_idem.
  - unfold AutoTrain.is_job_email_rule, AutoTrain.is_negative_sender,
      AutoTrain.is_probably_job_sender. by rewrite lower_sep, !lower_idem.
  - unfold infer_job_status. by rewrite lower_idem.
  - unfold InboxAgent.infer_job_status. by rewrite lower_idem.
  - repeat split; reflexivity.
Qed.

(** X22.  Every platform domain of the inference-time list is in the
    training-time list [JOB_DOMAINS]: a sender that matches
    [JOB_DOMAINS_INFER] and no hard-negative domain is a strong job
    signal at inference time and is labelled 1 by the weak-supervision
    rule, whatever the subject and the body. *)
Theorem platform_sender_is_a_training_positive (subject body sender : string)
    (Hplatform : any_in JOB_DOMAINS_INFER (lower sender) = true)
    (Hnot_negative : AutoTrain.is_negative_sender sender = false) :
  has_strong_job_signal subject body sender = true /\
  AutoTrain.is_job_email_rule subject body sender = 1%Z.
Proof.
  split.
  - unfold has_strong_job_signal. by rewrite Hplatform.
  - unfold AutoTrain.is_job_email_rule, AutoTrain.is_negative_sender,
      AutoTrain.is_probably_job_sender in *.
    rewrite !lower_idem, Hnot_negative.
    assert (any_in AutoTrain.JOB_DOMAINS (lower sender) = true) as ->.
    { eapply any_in_incl; [|exact Hplatform]. intros kw Hin. simpl in Hin |- *.
      repeat (destruct Hin as [<-|Hin]; [tauto|]). done. }
    by destruct (any_in AutoTrain.STRONG_SUBJECT (lower subject)),
      (any_in AutoTrain.STRONG_BODY (lower (subject +:+ " [SEP] " +:+ body))).
Qed.

Lemma platform_sender_is_a_training_positive_witness :
  any_in JOB_DOMAINS_INFER (lower (sender Samples.demo_platform_email)) = true /\
  AutoTrain.is_job_email_rule (subject Samples.demo_platform_email)
    (body Samples.demo_platform_email) (sender Samples.demo_platform_email) = 1%Z.
Proof.
  split; [reflexivity|].
  destruct (platform_sender_is_a_training_positive (subject Samples.demo_platform_email)
              (body Samples.demo_platform_email) (sender Samples.demo_platform_email)
              eq_refl eq_refl) as [_ Hlabel].
  exact Hlabel.
Defined.

End AgentMore.

(* ===================================================================== *)
(** ** Index stage: the derived ids, what is stored; the prompt            *)
(* ===================================================================== *)

Section RagMore.
Import Text Rag.

Lemma doc_ids_lookup (df : list ParsedRow) (i : nat) (d : string) :
  doc_ids df !! i = Some d <-> exists r, df !! i = Some r /\ d = doc_id_at i r.
Proof.
  unfold doc_ids, with_doc_id. rewrite lookup_map, list_lookup_imap.
  destruct (df !! i) as [r|]; simpl; split.
  - intros [= <-]. by exists r.
  - by intros (r' & [= <-] & ->).
  - done.
  - by intros (r' & ? & _).
Qed.

Lemma row_id_prefix (i : nat) : String.prefix "row_" ("row_" +:+ pretty i) = true.
Proof. apply prefix_app. Qed.

Lemma row_id_inj (i j : nat) : "row_" +:+ pretty i = "row_" +:+ pretty j -> i = j.
Proof.
  rewrite !app_cons_s, !app_nil_s. intros [= H]. by apply (inj pretty).
Qed.

(** X23.  The ids the index stage derives for a sheet are never empty
    and are pairwise distinct, as soon as the non-empty mail links of the
    sheet are pairwise distinct and none of them begins with "row_": a
    row with a link is filed under its link, a row without one under
    "row_" followed by its index, and two such fallback ids never meet. *)
Theorem doc_ids_are_distinct_and_never_empty (df : list ParsedRow)
    (Hlinks : forall i j r r', df !! i = Some r -> df !! j = Some r' ->
                link_of r <> "" -> link_of r = link_of r' -> i = j)
    (Hrow : Forall (fun r => String.prefix "row_" (link_of r) = false) df) :
  NoDup (doc_ids df) /\
  ("" ∉ doc_ids df) /\
  length (doc_ids df) = length df /\
  (forall i r, df !! i = Some r -> link_of r <> "" -> doc_ids df !! i = Some (link_of r)) /\
  (forall i r, df !! i = Some r -> link_of r = "" ->
     doc_ids df !! i = Some ("row_" +:+ pretty i)).
Proof.
  rewrite Forall_lookup in Hrow.
  assert (forall i r, df !! i = Some r ->
            (link_of r = "" /\ doc_id_at i r = "row_" +:+ pretty i) \/
            (link_of r <> "" /\ doc_id_at i r = link_of r)) as Hcases.
  { intros i r _. unfold doc_id_at.
    destruct (String.eqb_spec (link_of r) ""); [by left | by right]. }
  split; [|split; [|split; [|split]]].
  - apply NoDup_alt. intros i j d Hi Hj.
    apply doc_ids_lookup in Hi as (r & Hr & ->).
    apply doc_ids_lookup in Hj as (r' & Hr' & Heq).
    destruct (Hcases i r Hr) as [[He Hd]|[Hne Hd]],
             (Hcases j r' Hr') as [[He' Hd']|[Hne' Hd']]; rewrite Hd, Hd' in Heq.
    + by apply row_id_inj.
    + pose proof (Hrow _ _ Hr') as Hp. rewrite <- Heq, row_id_prefix in Hp. discriminate.
    + pose proof (Hrow _ _ Hr) as Hp. rewrite Heq, row_id_prefix in Hp. discriminate.
    + by eapply Hlinks.
  - intros Hin. apply list_elem_of_lookup in Hin as [i Hi].
    apply doc_ids_lookup in Hi as (r & Hr & Heq).
    destruct (Hcases i r Hr) as [[He Hd]|[Hne Hd]]; rewrite Hd in Heq; [|done].
    rewrite app_cons_s in Heq. discriminate.
  - unfold doc_ids. by rewrite length_map, doc_ids_length.
  - intros i r Hr Hne. apply doc_ids_lookup. exists r. split; [done|].
    destruct (Hcases i r Hr) as [[He Hd]|[_ Hd]]; done.
  - intros i r Hr He. apply doc_ids_lookup. exists r. split; [done|].
    destruct (Hcases i r Hr) as [[_ Hd]|[Hne _]]; done.
Qed.

(** The sample sheet: two links and one row without a link. *)
Lemma doc_ids_are_distinct_and_never_empty_witness :
  map link_of Samples.demo_sheet = ["link1"; "link2"; ""] /\
  NoDup (doc_ids Samples.demo_sheet) /\
  doc_ids Samples.demo_sheet = ["link1"; "link2"; "row_2"].
Proof.
  split; [reflexivity|].
  destruct (doc_ids_are_distinct_and_never_empty Samples.demo_sheet) as (Hnd & _).
  - intros [|[|[|i]]] [|[|[|j]]] r r' Hi Hj Hne Heq; try done;
      simpl in Hi, Hj; injection Hi as <-; injection Hj as <-;
      solve [discriminate Heq | by destruct Hne].
  - repeat constructor.
  - split; [exact Hnd | reflexivity].
Defined.

Lemma entries_lookup (ids documents : list string) (metadatas : list Metadata)
    (embeddings : list Embedding) (j : nat) i d m e :
  ids !! j = Some i -> documents !! j = Some d -> metadatas !! j = Some m ->
  embeddings !! j = Some e ->
  entries ids documents metadatas embeddings !! j
  = Some {| e_id := i; e_document := d; e_metadata := m; e_embedding := e |}.
Proof.
  revert ids documents metadatas embeddings.
  induction j as [|j IH]; intros [|? ?] [|? ?] [|? ?] [|? ?]; simpl; try done.
  - by intros [= ->] [= ->] [= ->] [= ->].
  - apply IH.
Qed.

Lemma entries_length_aligned (ids documents : list string) (metadatas : list Metadata)
    (embeddings : list Embedding) :
  length documents = length ids -> length metadatas = length ids ->
  length embeddings = length ids ->
  length (entries ids documents metadatas embeddings) = length ids.
Proof.
  intros H1 H2 H3. rewrite <- (length_map e_id), entries_ids_aligned; done.
Qed.

(** X24.  One run of the index synchronisation on a sheet whose derived
    ids are pairwise distinct, with an embedder that answers with one
    vector per document and a collection within the limit of
    [collection.get]: the batch handed to the store holds pairwise
    distinct ids, none of which the collection holds (a batch that
    repeated an id would be refused by the store as a whole); the
    collection afterwards is the old one followed by exactly one record
    per row of the sheet whose id it did not hold, in sheet order; the
    record of such a row carries the row's id, its mail content as
    document, its five metadata fields and the vector the embedder
    returned at the row's position among the new documents; and
    afterwards every id of the sheet is in the collection. *)
Theorem sync_stores_each_new_row
    (encode : list string -> list Embedding) (df : list ParsedRow)
    (collection : Collection)
    (Hids : NoDup (doc_ids df))
    (Haligned : forall documents, length (encode documents) = length documents)
    (Hlimit : (N.of_nat (length collection) <= GET_LIMIT)%N) :
  let df_new := df_new_of (map e_id collection) df in
  let embeddings := encode (map (fun x => mailcontent x.2) df_new) in
  exists added,
    (sync encode df collection).2 = collection ++ added /\
    NoDup (map e_id added) /\
    (forall e, e ∈ added -> e_id e ∉ map e_id collection) /\
    length added = length df_new /\
    (forall j x, df_new !! j = Some x ->
       exists emb, embeddings !! j = Some emb /\
         added !! j = Some {| e_id := x.1.2; e_document := mailcontent x.2;
                              e_metadata := metadata_of x.2; e_embedding := emb |}) /\
    (forall d, d ∈ doc_ids df -> d ∈ map e_id (sync encode df collection).2).
Proof.
  intros df_new embeddings.
  set (added := entries (map (fun x => x.1.2) df_new) (map (fun x => mailcontent x.2) df_new)
                  (map (fun x => metadata_of x.2) df_new) embeddings).
  assert (length added = length df_new) as Hlen.
  { unfold added. rewrite entries_length_aligned; unfold embeddings;
      rewrite ?Haligned, ?length_map; done. }
  assert (forall j x, df_new !! j = Some x ->
            exists emb, embeddings !! j = Some emb /\
              added !! j = Some {| e_id := x.1.2; e_document := mailcontent x.2;
                                   e_metadata := metadata_of x.2; e_embedding := emb |})
    as Hrows.
  { intros j x Hj.
    destruct (lookup_lt_is_Some_2 embeddings j) as [emb Hemb].
    { unfold embeddings. rewrite Haligned, length_map. by eapply lookup_lt_Some. }
    exists emb. split; [done|]. apply entries_lookup; rewrite ?lookup_map, ?Hj; done. }
  assert ((sync encode df collection).2 = collection ++ added) as Heq.
  { unfold sync. rewrite existing_ids_all by done. fold df_new.
    unfold added, embeddings. clear Hlen Hrows added embeddings. clearbody df_new.
    destruct df_new as [|x rest]; [by rewrite app_nil_r | done]. }
  assert (map e_id added = map (fun x => x.1.2) df_new) as Hbatch.
  { unfold added. apply entries_ids_aligned; unfold embeddings;
      rewrite ?Haligned, ?length_map; done. }
  destruct (df_new_ids (map e_id collection) df) as (Hsub & Hfresh & _).
  fold df_new in Hsub, Hfresh.
  exists added. split; [exact Heq|].
  split; [rewrite Hbatch; by eapply sublist_NoDup|].
  split; [intros e He; apply Hfresh; rewrite <- Hbatch; by apply list_elem_of_fmap_2|].
  split; [done|]. split; [done|].
  intros d Hd. rewrite Heq, map_app, elem_of_app.
  destruct (decide (d ∈ map e_id collection)) as [Hin|Hnin]; [by left|right].
  unfold doc_ids in Hd. apply list_elem_of_fmap in Hd as (x & -> & Hx).
  assert (x ∈ df_new) as Hnew by (by apply list_elem_of_filter).
  apply list_elem_of_lookup in Hnew as [j Hj].
  destruct (Hrows j x Hj) as (emb & _ & Hadded).
  apply list_elem_of_fmap. eexists. split; [|by eapply list_elem_of_lookup_2]. done.
Qed.

(** The sample run stores link2 and row_2 behind link1. *)
Lemma sync_stores_each_new_row_witness :
  exists added,
    (sync Samples.demo_encode Samples.demo_sheet Samples.demo_collection).2
    = Samples.demo_collection ++ added /\
    length added = 2 /\
    map e_id (Samples.demo_collection ++ added) = ["link1"; "link2"; "row_2"].
Proof.
  assert (forall documents : list string,
            length (Samples.demo_encode documents) = length documents) as Haligned
    by (intros documents; apply length_map).
  assert (NoDup (doc_ids Samples.demo_sheet)) as Hids.
  { change (NoDup ["link1"; "link2"; "row_2"]).
    repeat constructor; rewrite ?elem_of_cons, ?elem_of_nil; intros H;
      repeat (destruct H as [H|H]; try discriminate H); done. }
  destruct (sync_stores_each_new_row Samples.demo_encode Samples.demo_sheet
              Samples.demo_collection Hids Haligned)
    as (added & Heq & _ & _ & Hlen & _).
  - vm_compute. discriminate.
  - exists added. split; [exact Heq|]. split; [exact Hlen|].
    rewrite <- Heq. reflexivity.
Defined.

(** *** Generation *)

Local Opaque strip String.append join.

(** X25.  When retrieval returns at least one document, [ask] calls the
    retriever and then the LLM exactly once; the prompt it sends holds
    the question and the content of every retrieved document; and the
    answer it returns is the LLM's output (its [content] when it has
    one) stripped, so it neither begins nor ends with a blank. *)
Theorem documents_give_one_grounded_prompt
    (retriever : string -> list Document) (llm : string -> LLMOutput) (q : string)
    (doc : Document) (docs : list Document)
    (Hdocs : retriever q = doc :: docs) :
  exists final_prompt a,
    events (ask retriever llm q) = [RetrieverInvoke q; LlmInvoke final_prompt] /\
    ending (ask retriever llm q) = Returned a /\
    str_in q final_prompt = true /\
    (forall d, d ∈ doc :: docs -> str_in (page_content d) final_prompt = true) /\
    a = strip match llm final_prompt with
              | OutStr s => s
              | OutObject (Some c) _ => c
              | OutObject None s => s
              end /\
    starts_blank a = false /\ ends_blank a = false.
Proof.
  unfold ask, retrieve_node, llm_node. cbn. rewrite Hdocs.
  set (context := join _ _). set (final_prompt := prompt_format q context).
  exists final_prompt.
  assert (str_in q final_prompt = true) as Hq.
  { unfold final_prompt, prompt_format.
    do 9 (apply str_in_app_r). apply str_in_app_l, str_in_refl. }
  assert (forall d, d ∈ doc :: docs -> str_in (page_content d) final_prompt = true) as Hd.
  { intros d Hin. unfold final_prompt, prompt_format.
    do 14 (apply str_in_app_r). apply str_in_app_l.
    unfold context.
    eapply str_in_join;
      [exact (list_elem_of_fmap_2
                (fun doc => "EMAIL:" +:+ nl +:+ page_content doc +:+ nl
                            +:+ "METADATA: " +:+ metadata doc) _ _ Hin)|].
    do 2 (apply str_in_app_r). apply str_in_app_l, str_in_refl. }
  destruct (llm final_prompt) as [s|[c|] s]; cbn; eexists;
    (split; [reflexivity|]; split; [reflexivity|]; split; [exact Hq|];
     split; [exact Hd|]; split; [reflexivity|];
     split; [apply starts_blank_strip | apply ends_blank_strip]).
Qed.

Local Transparent strip String.append join.

Lemma documents_give_one_grounded_prompt_witness :
  exists final_prompt,
    events (ask Samples.demo_retriever_hit Samples.demo_llm "Did Acme reply?")
    = [RetrieverInvoke "Did Acme reply?"; LlmInvoke final_prompt] /\
    ending (ask Samples.demo_retriever_hit Samples.demo_llm "Did Acme reply?")
    = Returned "made up" /\
    str_in "Thank you for applying to Acme." final_prompt = true.
Proof.
  destruct (documents_give_one_grounded_prompt Samples.demo_retriever_hit Samples.demo_llm
              "Did Acme reply?" _ _ eq_refl)
    as (final_prompt & a & Hev & Hend & _ & Hdoc & Ha & _).
  exists final_prompt. split; [exact Hev|]. split.
  - rewrite Hend, Ha. reflexivity.
  - apply (Hdoc {| page_content := "Thank you for applying to Acme.";
                   metadata := "{'company_name': 'Acme'}" |}). by left.
Defined.

End RagMore.

(* ===================================================================== *)
(** ** Full export: cells for Excel, paging through the listing            *)
(* ===================================================================== *)

Section MainFacts.
Import Text Main.

Lemma filter_chars_all (p : ascii -> bool) (s : string) :
  all_chars p (filter_chars p s) = true.
Proof.
  induction s as [|c s IH]; [done|]. cbn [filter_chars].
  destruct (p c) eqn:E; [|done]. cbn [all_chars]. by rewrite E, IH.
Qed.

Lemma filter_chars_id (p : ascii -> bool) (s : string) :
  all_chars p s = true -> filter_chars p s = s.
Proof.
  induction s as [|c s IH]; [done|]. cbn [all_chars filter_chars].
  intros H. apply andb_true_iff in H as [-> Hs]. by rewrite IH.
Qed.

Lemma take_chars_all (p : ascii -> bool) (n : nat) (s : string) :
  all_chars p s = true -> all_chars p (take_chars n s) = true.
Proof.
  revert n. induction s as [|c s IH]; intros [|n] H; try done.
  cbn [all_chars take_chars] in *. apply andb_true_iff in H as [-> Hs]. by rewrite IH.
Qed.

Lemma take_chars_length (n : nat) (s : string) :
  String.length (take_chars n s) = Nat.min n (String.length s).
Proof.
  revert n. induction s as [|c s IH]; intros [|n]; try done. simpl. by rewrite IH.
Qed.

Lemma take_chars_starts (n : nat) (s : string) :
  starts_formula s = false -> starts_formula (take_chars n s) = false.
Proof. by destruct n, s. Qed.

Lemma slice_to_all (p : ascii -> bool) (stop : Z) (s : string) :
  all_chars p s = true -> all_chars p (slice_to stop s) = true.
Proof. intros H. unfold slice_to. destruct (stop <? 0)%Z; by apply take_chars_all. Qed.

Lemma slice_to_starts (stop : Z) (s : string) :
  starts_formula s = false -> starts_formula (slice_to stop s) = false.
Proof. intros H. unfold slice_to. destruct (stop <? 0)%Z; by apply take_chars_starts. Qed.

(** X26.  Whatever the text and the limit, the cell [clean_for_excel]
    returns holds only newlines, tabs and characters of code 32 or more
    (so none of the other control characters below 32; DEL, code 127,
    passes), and it does not begin with "=", "+", "-" or "@".  For a
    limit that is not negative the cell is at most [max_len] characters
    long and cleaning it again changes nothing.  For a negative limit
    the slice counts from the right: the cell is the untruncated cell
    without its last [-max_len] characters. *)
Theorem clean_for_excel_is_safe_and_stable (text : string) (max_len : Z) :
  let cleaned := clean_for_excel text max_len in
  let untruncated := clean_for_excel text (Z.of_nat (String.length text) + 1) in
  all_chars kept cleaned = true /\
  starts_formula cleaned = false /\
  ((0 <= max_len)%Z ->
     (Z.of_nat (String.length cleaned) <= max_len)%Z /\
     clean_for_excel cleaned max_len = cleaned) /\
  ((max_len < 0)%Z ->
     cleaned = slice_to max_len untruncated /\
     (Z.of_nat (String.length cleaned)
      = Z.max 0 (Z.of_nat (String.length untruncated) + max_len))%Z).
Proof.
  intros cleaned untruncated.
  set (prepared := if starts_formula (filter_chars kept text)
                   then "'" +:+ filter_chars kept text
                   else filter_chars kept text).
  assert (all_chars kept prepared = true) as Hpk.
  { unfold prepared. pose proof (filter_chars_all kept text) as Hf.
    destruct (starts_formula _); [|done]. rewrite app_cons_s, app_nil_s. exact Hf. }
  assert (starts_formula prepared = false) as Hps.
  { unfold prepared. destruct (starts_formula (filter_chars kept text)) eqn:E; [|done].
    by rewrite app_cons_s. }
  assert (cleaned = if (max_len <? Z.of_nat (String.length prepared))%Z
                    then slice_to max_len prepared else prepared) as Hc by reflexivity.
  assert (String.length prepared <= String.length text + 1) as Hlen.
  { unfold prepared.
    assert (String.length (filter_chars kept text) <= String.length text) as Hf.
    { clear. induction text as [|c t IH]; [done|]. cbn [filter_chars].
      destruct (kept c); simpl; lia. }
    destruct (starts_formula _); [|lia]. rewrite app_cons_s, app_nil_s. simpl. lia. }
  assert (untruncated = prepared) as Hu.
  { unfold untruncated, clean_for_excel. fold prepared.
    destruct (Z.ltb_spec (Z.of_nat (String.length text) + 1)
                (Z.of_nat (String.length prepared))); [lia | done]. }
  assert (all_chars kept cleaned = true) as Hkept.
  { rewrite Hc. destruct (_ <? _)%Z; [by apply slice_to_all | done]. }
  assert (starts_formula cleaned = false) as Hstart.
  { rewrite Hc. destruct (_ <? _)%Z; [by apply slice_to_starts | done]. }
  split; [done|]. split; [done|]. split.
  - intros Hpos.
    assert ((Z.of_nat (String.length cleaned) <= max_len)%Z) as Hbound.
    { rewrite Hc. destruct (Z.ltb_spec max_len (Z.of_nat (String.length prepared)));
        [|done].
      unfold slice_to. destruct (Z.ltb_spec max_len 0); [lia|].
      rewrite take_chars_length. lia. }
    split; [done|].
    unfold clean_for_excel at 1. rewrite (filter_chars_id _ _ Hkept), Hstart.
    destruct (Z.ltb_spec max_len (Z.of_nat (String.length cleaned))); [lia | done].
  - intros Hneg. rewrite Hu.
    assert (cleaned = slice_to max_len prepared) as ->.
    { rewrite Hc. destruct (Z.ltb_spec max_len (Z.of_nat (String.length prepared)));
        [done | lia]. }
    split; [done|]. unfold slice_to.
    destruct (Z.ltb_spec max_len 0); [|lia]. rewrite take_chars_length. lia.
Qed.

(** *** Paging through the listing *)

Lemma list_loop_capped (api : ListApi) (limit : Z)
    (Hpage : forall n tok r, (1 <= n <= 500)%Z -> api n tok = Some r ->
               (Z.of_nat (length (messages r)) <= n)%Z)
    (Hprogress : forall n tok r, (1 <= n <= 500)%Z -> api n tok = Some r ->
               more_pages (nextPageToken r) = true -> messages r <> []) :
  forall (fuel : nat) (all_ids : list string) (page_token : option string),
  Z.to_nat (limit - Z.of_nat (length all_ids)) < fuel ->
  exists res,
    list_loop fuel api (Some limit) all_ids page_token = Some res /\
    forall ids, res = Returned ids ->
      (Z.of_nat (length ids) <= Z.max (Z.of_nat (length all_ids)) limit)%Z /\
      exists more, ids = all_ids ++ more.
Proof.
  induction fuel as [|fuel IH]; intros all_ids tok Hfuel; [lia|].
  cbn [list_loop]. destruct (Z.leb_spec (limit - Z.of_nat (length all_ids)) 0) as [Hle|Hgt].
  - eexists. split; [done|]. intros ids [= <-]. split; [lia|]. exists []. by rewrite app_nil_r.
  - remember (Z.min 500 (limit - Z.of_nat (length all_ids))) as n eqn:Hdef.
    assert ((1 <= n <= 500)%Z) as Hrange by lia.
    destruct (api n tok) as [r|] eqn:E; [|by eexists].
    assert ((Z.of_nat (length (messages r)) <= n)%Z) as Hn by (by apply (Hpage n tok)).
    destruct (more_pages (nextPageToken r)) eqn:Hmore.
    + assert (messages r <> []) as Hne by (by eapply Hprogress).
      assert (0 < length (messages r)) as Hpos by (destruct (messages r); simpl; [done|lia]).
      destruct (IH (all_ids ++ messages r) (nextPageToken r)) as (res & Hres & Hbound).
      { rewrite length_app. lia. }
      exists res. split; [done|]. intros ids Hids.
      destruct (Hbound ids Hids) as (Hb & more & ->). rewrite !length_app in *.
      split; [lia|]. exists (messages r ++ more). by rewrite app_assoc.
    + eexists. split; [done|]. intros ids [= <-]. rewrite length_app.
      split; [lia|]. by exists (messages r).
Qed.

(** X27.  [list_all_message_ids] with a cap [max_results], against a
    listing API that, asked for a page of 1 to 500 messages (the only
    page sizes the loop asks for), never returns more messages than that
    and never announces a further page on an empty one: the loop ends
    within [max_results] + 1 turns (by returning, or by the exception of
    a failed call), and a returned list holds at most [max_results] ids
    (none when the cap is zero or negative). *)
Theorem listing_stops_at_max_results (api : ListApi) (limit : Z)
    (Hpage : forall n tok r, (1 <= n <= 500)%Z -> api n tok = Some r ->
               (Z.of_nat (length (messages r)) <= n)%Z)
    (Hprogress : forall n tok r, (1 <= n <= 500)%Z -> api n tok = Some r ->
               more_pages (nextPageToken r) = true -> messages r <> []) :
  exists res,
    list_all_message_ids (S (Z.to_nat limit)) api (Some limit) = Some res /\
    forall ids, res = Returned ids -> (Z.of_nat (length ids) <= Z.max 0 limit)%Z.
Proof.
  destruct (list_loop_capped api limit Hpage Hprogress (S (Z.to_nat limit)) [] None)
    as (res & Hres & Hbound); [simpl; lia|].
  exists res. split; [done|]. intros ids Hids. by destruct (Hbound ids Hids) as [? _].
Qed.

(** Two pages of a, b, c and d with a cap of two: the first call asks
    for two ids and the loop stops there. *)
Lemma listing_stops_at_max_results_witness :
  list_all_message_ids 3 Samples.demo_list_api (Some 2%Z) = Some (Returned ["a"; "b"]) /\
  list_all_message_ids 3 Samples.demo_list_api None
  = Some (Returned ["a"; "b"; "c"; "d"]) /\
  exists res,
    list_all_message_ids 3 Samples.demo_list_api (Some 2%Z) = Some res /\
    forall ids, res = Returned ids -> (Z.of_nat (length ids) <= 2)%Z.
Proof.
  split; [reflexivity|]. split; [reflexivity|].
  apply (listing_stops_at_max_results Samples.demo_list_api 2).
  - intros n [tok|] r Hn [= <-]; simpl; rewrite length_take; simpl; lia.
  - intros n [tok|] r Hn [= <-]; simpl; [done|].
    destruct (Z.to_nat n) eqn:E; [lia | done].
Defined.

End MainFacts.
